(** * A ring-oscillator TRNG simulated with simpy: embedding and properties

    Shallow embedding of [simpy_simulation.py].  The classes [RO], [FF],
    [Counter], [RandOut], [BroadcastPipe] and [TRNG] are translated method by
    method.  Python objects live in a heap indexed by natural numbers so that
    aliasing (a [Store] held both by a [BroadcastPipe] and by its consumer) is
    kept; generators are state machines over their [yield] points; exceptions
    are the [Raise] outcome of a state-and-error monad.  Times and the running
    mean are IEEE binary64 numbers, as Python floats are. *)

From Stdlib Require Import ZArith Lia Floats.PrimFloat Numbers.Cyclic.Int63.Uint63.
From Stdlib Require Floats.FloatAxioms.
From stdpp Require Import base option list strings.

Local Open Scope Z_scope.

(** ** Python values *)

(** The values that travel through stores and generators in this program. *)
Inductive pyval :=
| VNone
| VBool (b : bool)
| VInt (z : Z).

(** Truth value testing, as done by [if], [and] and [not]. *)
Definition truthy (v : pyval) : bool :=
  match v with
  | VNone => false
  | VBool b => b
  | VInt z => negb (z =? 0)
  end.

(** [float(z)] for the integers met here (magnitude below 2^63). *)
Definition float_of_int (z : Z) : float :=
  if z <? 0 then PrimFloat.opp (PrimFloat.of_uint63 (Uint63.of_Z (- z)))
  else PrimFloat.of_uint63 (Uint63.of_Z z).

Inductive exn :=
| ValueError (number : float)      (* simpy: "Negative delay ...", with the refused number *)
| RuntimeError (msg : string)
| StopSimulation
| EmptySchedule
| DanglingReference.               (* a heap index out of range: no Python counterpart *)

Inductive outcome (A : Type) :=
| Return (a : A)
| Raise (e : exn).
Arguments Return {A} a.
Arguments Raise {A} e.

(** ** State and exception monad *)

Definition M (S A : Type) : Type := S -> outcome A * S.

#[global] Instance M_ret {S} : MRet (M S) := fun A a s => (Return a, s).
#[global] Instance M_bind {S} : MBind (M S) := fun A B f m s =>
  match m s with
  | (Return a, s') => f a s'
  | (Raise e, s') => (Raise e, s')
  end.

Definition raise {S A} (e : exn) : M S A := fun s => (Raise e, s).
Definition gets {S A} (f : S -> A) : M S A := fun s => (Return (f s), s).
Definition modify {S} (f : S -> S) : M S unit := fun s => (Return tt, f s).

(** [try: m] continued by [ok], with [except BaseException as e: handler e];
    the state changes made before the exception are kept. *)
Definition try_except {S A B} (m : M S A) (ok : A -> M S B) (handler : exn -> M S B) : M S B :=
  fun s =>
    match m s with
    | (Return a, s') => ok a s'
    | (Raise e, s') => handler e s'
    end.

(** Reading a heap cell. *)
Definition deref {S A} (heap : S -> list A) (i : nat) : M S A := fun s =>
  match heap s !! i with
  | Some a => (Return a, s)
  | None => (Raise DanglingReference, s)
  end.

(** ** The simulation engine *)

(** Modelled from the spec: the discrete-event engine ([simpy.Environment],
    [simpy.Store], events and processes) is imported by the program and is not
    part of its source.  The model follows sections 4.1, 4.2 and 5 of the
    specification (a queue of timed events ordered by due time with ties in
    scheduling order, a negative delay is an error, FIFO mailboxes) with the
    event mechanics of simpy. *)
Module simpy.

Definition URGENT : nat := 0.
Definition NORMAL : nat := 1.

(** The five processes started by [TRNG.__init__]. *)
Inductive proc := ro1_proc | ro2_proc | beat_ff_proc | counter_proc | rand_out_proc.

#[global] Instance proc_eq_dec : EqDecision proc.
Proof. solve_decision. Defined.

Inductive callback :=
| Process_resume_cb (p : proc)
| trigger_get_cb (store : nat)
| trigger_put_cb (store : nat)
| Condition_check_cb (cond : nat)
| StopSimulation_callback.

Inductive ev_value :=
| PENDING
| Succeeded (v : pyval)
| Failed (e : exn).

(** An event object.  [item] is used by put requests, [cond_events] and
    [cond_count] by [all_of] conditions. *)
Record Event := mkEvent {
  callbacks : option (list callback);
  value : ev_value;
  item : pyval;
  cond_events : list nat;
  cond_count : nat
}.

Definition plain_event (cbs : list callback) (v : ev_value) (it : pyval) : Event :=
  mkEvent (Some cbs) v it [] 0.

Definition triggered (e : Event) : bool :=
  match value e with PENDING => false | _ => true end.

(** [capacity = None] is [simpy.core.Infinity]. *)
Record Store := mkStore {
  capacity : option nat;
  items : list pyval;
  put_queue : list nat;
  get_queue : list nat
}.

Definition has_room (st : Store) : bool :=
  match capacity st with
  | None => true
  | Some c => bool_decide (length (items st) < c)%nat
  end.

(** The environment together with the heap of events and stores. *)
Record Environment := mkEnv {
  now : float;
  queue : list (float * nat * nat * nat);   (* time, priority, eid, event *)
  eid : nat;
  events : list Event;
  stores : list Store
}.

Definition set_events (f : list Event -> list Event) (env : Environment) : Environment :=
  mkEnv (now env) (queue env) (eid env) (f (events env)) (stores env).
Definition set_stores (f : list Store -> list Store) (env : Environment) : Environment :=
  mkEnv (now env) (queue env) (eid env) (events env) (f (stores env)).

Definition set_callbacks (cbs : option (list callback)) (e : Event) : Event :=
  mkEvent cbs (value e) (item e) (cond_events e) (cond_count e).
Definition set_value (v : ev_value) (e : Event) : Event :=
  mkEvent (callbacks e) v (item e) (cond_events e) (cond_count e).
Definition set_cond_count (n : nat) (e : Event) : Event :=
  mkEvent (callbacks e) (value e) (item e) (cond_events e) n.

Definition set_items (l : list pyval) (st : Store) : Store :=
  mkStore (capacity st) l (put_queue st) (get_queue st).
Definition set_put_queue (q : list nat) (st : Store) : Store :=
  mkStore (capacity st) (items st) q (get_queue st).
Definition set_get_queue (q : list nat) (st : Store) : Store :=
  mkStore (capacity st) (items st) (put_queue st) q.

Abbreviation E := (M Environment).

Definition new_event (e : Event) : E nat := fun env =>
  (Return (length (events env)), set_events (fun l => l ++ [e]) env).

(** [Store(env, capacity)]: a capacity that is not positive is refused with
    a [ValueError]. *)
Definition new_store (cap : option nat) : E nat := fun env =>
  match cap with
  | Some O => (Raise (ValueError 0), env)
  | _ => (Return (length (stores env)),
          set_stores (fun l => l ++ [mkStore cap [] [] []]) env)
  end.

Definition update_event (ev : nat) (f : Event -> Event) : E unit :=
  _ ← deref events ev; modify (set_events (alter f ev)).

Definition update_store (s : nat) (f : Store -> Store) : E unit :=
  _ ← deref stores s; modify (set_stores (alter f s)).

(** [Environment.schedule]: push [(now + delay, priority, eid, event)]. *)
Definition schedule (ev : nat) (priority : nat) (delay : float) : E unit :=
  modify (fun env =>
    mkEnv (now env)
          (queue env ++ [((now env + delay)%float, priority, eid env, ev)])
          (S (eid env)) (events env) (stores env)).

(** [Event.succeed]. *)
Definition succeed (ev : nat) (v : pyval) : E unit :=
  e ← deref events ev;
  if triggered e then raise (RuntimeError "has already been triggered")
  else update_event ev (set_value (Succeeded v));; schedule ev NORMAL 0.

(** Modelled from the spec: [Environment.timeout] is engine code, not in the
    source.  Section 4.1: delay values must be at least 0, a negative delay
    fails ([InvalidDelay], simpy's [ValueError]); otherwise the timeout is
    scheduled [delay] after the current time. *)
Definition timeout (delay : float) : E nat :=
  if (delay <? 0)%float then raise (ValueError delay)
  else ev ← new_event (plain_event [] (Succeeded VNone) VNone);
       schedule ev NORMAL delay;; mret ev.

(** [Store._do_put] and [Store._do_get]. *)
Definition do_put (s ev : nat) : E unit :=
  st ← deref stores s;
  e ← deref events ev;
  if has_room st then
    update_store s (set_items (items st ++ [item e]));; succeed ev VNone
  else mret tt.

Definition do_get (s ev : nat) : E unit :=
  st ← deref stores s;
  match items st with
  | v :: rest => update_store s (set_items rest);; succeed ev v
  | [] => mret tt
  end.

(** [BaseResource._trigger_put] and [_trigger_get]: a store's [_do_put] and
    [_do_get] return [None], so the loop over the queue stops after its
    first request, which leaves the queue when it has been triggered. *)
Definition trigger_put (s : nat) : E unit :=
  st ← deref stores s;
  match put_queue st with
  | [] => mret tt
  | ev :: rest =>
      do_put s ev;;
      e ← deref events ev;
      if triggered e then update_store s (set_put_queue rest) else mret tt
  end.

Definition trigger_get (s : nat) : E unit :=
  st ← deref stores s;
  match get_queue st with
  | [] => mret tt
  | ev :: rest =>
      do_get s ev;;
      e ← deref events ev;
      if triggered e then update_store s (set_get_queue rest) else mret tt
  end.

(** Modelled from the spec: [Store.put(item)] and [Store.get()] are engine
    code, not in the source.  Section 4.2: the request is queued, then served
    at once when possible; values leave a store in the order they entered. *)
Definition put (s : nat) (v : pyval) : E nat :=
  st ← deref stores s;
  ev ← new_event (plain_event [trigger_get_cb s] PENDING v);
  update_store s (set_put_queue (put_queue st ++ [ev]));;
  trigger_put s;;
  mret ev.

Definition get (s : nat) : E nat :=
  st ← deref stores s;
  ev ← new_event (plain_event [trigger_put_cb s] PENDING VNone);
  update_store s (set_get_queue (get_queue st ++ [ev]));;
  trigger_get s;;
  mret ev.

(** Registering a callback on an event that has not been processed yet. *)
Definition add_callback (ev : nat) (cb : callback) : E unit :=
  e ← deref events ev;
  match callbacks e with
  | Some cbs => update_event ev (set_callbacks (Some (cbs ++ [cb])))
  | None => raise (RuntimeError "event already processed")
  end.

(** [Condition._check] for an [all_of] condition. *)
Definition Condition_check (cond : nat) : E unit :=
  c ← deref events cond;
  if triggered c then mret tt
  else
    update_event cond (set_cond_count (S (cond_count c)));;
    if bool_decide (length (cond_events c) = S (cond_count c))
    then succeed cond VNone else mret tt.

(** The registration of an [all_of] condition on one of its events. *)
Definition all_of_register (cond ev : nat) : E unit :=
  e ← deref events ev;
  match callbacks e with
  | None => Condition_check cond
  | Some _ => add_callback ev (Condition_check_cb cond)
  end.

(** [Environment.all_of(events)]. *)
Definition all_of (evs : list nat) : E nat :=
  cond ← new_event (mkEvent (Some []) PENDING VNone evs 0);
  match evs with
  | [] => succeed cond VNone;; mret cond
  | _ => mapM (all_of_register cond) evs;; mret cond
  end.

(** The queue as a priority queue: the entry popped is the least one for
    the order on [(time, priority, eid)]. *)
Definition entry_lt (a b : float * nat * nat * nat) : bool :=
  let '(ta, pa, ia, _) := a in
  let '(tb, pb, ib, _) := b in
  if (ta =? tb)%float then
    if (pa =? pb)%nat then (ia <? ib)%nat else (pa <? pb)%nat
  else (ta <? tb)%float.

Definition entry_min (a : float * nat * nat * nat) (l : list (float * nat * nat * nat)) :=
  foldl (fun best x => if entry_lt x best then x else best) a l.

Definition entry_eid (a : float * nat * nat * nat) : nat := a.1.2.

Definition heappop (q : list (float * nat * nat * nat))
  : option ((float * nat * nat * nat) * list (float * nat * nat * nat)) :=
  match q with
  | [] => None
  | a :: l =>
      let m := entry_min a l in
      Some (m, filter (fun x => entry_eid x ≠ entry_eid m) q)
  end.

End simpy.

(** ** The objects of the program *)

(** References to the objects whose [state] attribute is read by another
    component. *)
Inductive ref := ref_ro1 | ref_ro2 | ref_beat_ff | ref_counter.

Inductive ro_ref := the_ro1 | the_ro2.

Module RO.
Record t := mk {
  state : bool;
  jitter : float;
  period : float;
  half_period : float;
  frequency : float;
  out_pipe : option nat;            (* [None] or a [BroadcastPipe] *)
  data : list (float * bool);
  verbose : bool
}.

(** [RO.__init__] *)
Definition init (period jitter : float) (out_pipe : option nat) (verbose : bool) : t :=
  mk true jitter period (period / 2)%float (1 / period)%float out_pipe [] verbose.

Definition set_state (b : bool) (r : t) : t :=
  mk b (jitter r) (period r) (half_period r) (frequency r) (out_pipe r) (data r) (verbose r).
Definition set_data (d : list (float * bool)) (r : t) : t :=
  mk (state r) (jitter r) (period r) (half_period r) (frequency r) (out_pipe r) d (verbose r).
End RO.

Module FF.
Record t := mk {
  i_clk_pipe : nat;                 (* a [Store] *)
  i_data : ref;
  o_beat_pipe : nat;                (* a [BroadcastPipe] *)
  state : pyval;
  old_state : pyval;
  data : list (float * pyval);
  verbose : bool
}.

(** [FF.__init__] *)
Definition init (i_clk_pipe : nat) (i_data : ref) (o_beat_pipe : nat) (verbose : bool) : t :=
  mk i_clk_pipe i_data o_beat_pipe (VBool false) (VBool false) [] verbose.

Definition set_state (v : pyval) (f : t) : t :=
  mk (i_clk_pipe f) (i_data f) (o_beat_pipe f) v (old_state f) (data f) (verbose f).
Definition set_old_state (v : pyval) (f : t) : t :=
  mk (i_clk_pipe f) (i_data f) (o_beat_pipe f) (state f) v (data f) (verbose f).
Definition set_data (d : list (float * pyval)) (f : t) : t :=
  mk (i_clk_pipe f) (i_data f) (o_beat_pipe f) (state f) (old_state f) d (verbose f).
End FF.

Module Counter.
Record t := mk {
  i_clk_pipe : nat;                 (* a [Store] *)
  i_rst : ref;
  o_Q_pipe : nat;                   (* a [Store] *)
  count : Z;
  data : list (float * Z);
  count_max : list Z;
  avg : float;
  n : Z;
  verbose : bool;
  old_state : pyval
}.

(** [Counter.__init__]; the running mean starts at zero. *)
Definition init (i_clk_pipe : nat) (i_rst : ref) (o_Q_pipe : nat) (verbose : bool) : t :=
  mk i_clk_pipe i_rst o_Q_pipe 0 [] [] 0%float 1 verbose (VBool false).

(** The [state] property. *)
Definition state (c : t) : Z := count c mod 2.

Definition set_count (z : Z) (c : t) : t :=
  mk (i_clk_pipe c) (i_rst c) (o_Q_pipe c) z (data c) (count_max c) (avg c) (n c)
     (verbose c) (old_state c).
Definition set_data (d : list (float * Z)) (c : t) : t :=
  mk (i_clk_pipe c) (i_rst c) (o_Q_pipe c) (count c) d (count_max c) (avg c) (n c)
     (verbose c) (old_state c).
Definition set_count_max (l : list Z) (c : t) : t :=
  mk (i_clk_pipe c) (i_rst c) (o_Q_pipe c) (count c) (data c) l (avg c) (n c)
     (verbose c) (old_state c).
Definition set_avg (a : float) (c : t) : t :=
  mk (i_clk_pipe c) (i_rst c) (o_Q_pipe c) (count c) (data c) (count_max c) a (n c)
     (verbose c) (old_state c).
Definition set_n (k : Z) (c : t) : t :=
  mk (i_clk_pipe c) (i_rst c) (o_Q_pipe c) (count c) (data c) (count_max c) (avg c) k
     (verbose c) (old_state c).
Definition set_old_state (v : pyval) (c : t) : t :=
  mk (i_clk_pipe c) (i_rst c) (o_Q_pipe c) (count c) (data c) (count_max c) (avg c) (n c)
     (verbose c) v.
End Counter.

(** An entry of [RandOut.data]: the tuple [(now, value)] in verbose mode, the
    bare value otherwise. *)
Inductive sample :=
| Stamped (time : float) (v : pyval)
| Bare (v : pyval).

Definition sample_value (s : sample) : pyval :=
  match s with Stamped _ v => v | Bare v => v end.

Module RandOut.
Record t := mk {
  i_clk_pipe : nat;                 (* a [Store] *)
  i_Q : ref;
  data : list sample;
  old_i_clk : pyval;
  verbose : bool
}.

(** [RandOut.__init__] *)
Definition init (i_clk_pipe : nat) (i_Q : ref) (verbose : bool) : t :=
  mk i_clk_pipe i_Q [] (VBool false) verbose.

Definition set_data (d : list sample) (r : t) : t :=
  mk (i_clk_pipe r) (i_Q r) d (old_i_clk r) (verbose r).
Definition set_old_i_clk (v : pyval) (r : t) : t :=
  mk (i_clk_pipe r) (i_Q r) (data r) v (verbose r).
End RandOut.

Module BroadcastPipe.
Record t := mk {
  capacity : option nat;
  pipes : list nat                  (* references to [Store]s *)
}.

(** [BroadcastPipe.__init__] *)
Definition init (capacity : option nat) : t := mk capacity [].
End BroadcastPipe.

(** ** Generators *)

(** The points at which each [run] generator can be suspended. *)
Inductive RO_pc :=
| RO_start              (* not started *)
| RO_offset_wait        (* [yield self.env.timeout(self.period / 4)] *)
| RO_half_wait.         (* [yield self.env.timeout(self.half_period + ...)] *)

Inductive FF_pc :=
| FF_start
| FF_get.               (* [yield self.i_clk_pipe.get()] *)

Inductive Counter_pc :=
| Counter_start
| Counter_get           (* [yield self.i_clk_pipe.get()] *)
| Counter_settle.       (* [yield self.env.timeout(1e-15)] *)

Inductive RandOut_pc :=
| RandOut_start
| RandOut_get.          (* [yield self.i_clk_pipe.get()] *)

Inductive generator :=
| RO_gen (self : ro_ref) (pc : RO_pc)
| FF_gen (pc : FF_pc)
| Counter_gen (pc : Counter_pc)
| RandOut_gen (pc : RandOut_pc).

(** A [simpy.Process]: its generator ([None] once it has ended), the event it
    waits for and the event that stands for the process itself. *)
Record Process := mkProcess {
  gen : option generator;
  target : option nat;
  pevent : nat
}.

(** ** The whole program state *)

(** The [TRNG] object with everything it owns: the environment, the heap of
    broadcast pipes, the components and their processes, and the state of the
    module-level random generator ([variates] is the sequence of standard
    normal deviates it will produce, [random_pos] the number drawn so far). *)
Module TRNG.
Record t := mk {
  env : simpy.Environment;
  bpipes : list BroadcastPipe.t;
  variates : nat -> float;
  random_pos : nat;
  period : float;
  delta : float;
  jitter1 : float;
  jitter2 : float;
  ro2_bc_pipe : nat;
  beat_bc_pipe : nat;
  counter_pipe : nat;
  q_pipe : nat;
  out_pipe : nat;
  ro1 : RO.t;
  ro2 : RO.t;
  beat_ff : FF.t;
  counter : Counter.t;
  rand_out : RandOut.t;
  procs : simpy.proc -> Process
}.

Definition set_env (f : simpy.Environment -> simpy.Environment) (w : t) : t :=
  mk (f (env w)) (bpipes w) (variates w) (random_pos w) (period w) (delta w) (jitter1 w)
     (jitter2 w) (ro2_bc_pipe w) (beat_bc_pipe w) (counter_pipe w) (q_pipe w) (out_pipe w)
     (ro1 w) (ro2 w) (beat_ff w) (counter w) (rand_out w) (procs w).
Definition set_bpipes (f : list BroadcastPipe.t -> list BroadcastPipe.t) (w : t) : t :=
  mk (env w) (f (bpipes w)) (variates w) (random_pos w) (period w) (delta w) (jitter1 w)
     (jitter2 w) (ro2_bc_pipe w) (beat_bc_pipe w) (counter_pipe w) (q_pipe w) (out_pipe w)
     (ro1 w) (ro2 w) (beat_ff w) (counter w) (rand_out w) (procs w).
Definition set_random_pos (k : nat) (w : t) : t :=
  mk (env w) (bpipes w) (variates w) k (period w) (delta w) (jitter1 w)
     (jitter2 w) (ro2_bc_pipe w) (beat_bc_pipe w) (counter_pipe w) (q_pipe w) (out_pipe w)
     (ro1 w) (ro2 w) (beat_ff w) (counter w) (rand_out w) (procs w).
Definition set_pipe_attrs (a b c d e : nat) (w : t) : t :=
  mk (env w) (bpipes w) (variates w) (random_pos w) (period w) (delta w) (jitter1 w)
     (jitter2 w) a b c d e
     (ro1 w) (ro2 w) (beat_ff w) (counter w) (rand_out w) (procs w).
Definition set_ro1 (f : RO.t -> RO.t) (w : t) : t :=
  mk (env w) (bpipes w) (variates w) (random_pos w) (period w) (delta w) (jitter1 w)
     (jitter2 w) (ro2_bc_pipe w) (beat_bc_pipe w) (counter_pipe w) (q_pipe w) (out_pipe w)
     (f (ro1 w)) (ro2 w) (beat_ff w) (counter w) (rand_out w) (procs w).
Definition set_ro2 (f : RO.t -> RO.t) (w : t) : t :=
  mk (env w) (bpipes w) (variates w) (random_pos w) (period w) (delta w) (jitter1 w)
     (jitter2 w) (ro2_bc_pipe w) (beat_bc_pipe w) (counter_pipe w) (q_pipe w) (out_pipe w)
     (ro1 w) (f (ro2 w)) (beat_ff w) (counter w) (rand_out w) (procs w).
Definition set_beat_ff (f : FF.t -> FF.t) (w : t) : t :=
  mk (env w) (bpipes w) (variates w) (random_pos w) (period w) (delta w) (jitter1 w)
     (jitter2 w) (ro2_bc_pipe w) (beat_bc_pipe w) (counter_pipe w) (q_pipe w) (out_pipe w)
     (ro1 w) (ro2 w) (f (beat_ff w)) (counter w) (rand_out w) (procs w).
Definition set_counter (f : Counter.t -> Counter.t) (w : t) : t :=
  mk (env w) (bpipes w) (variates w) (random_pos w) (period w) (delta w) (jitter1 w)
     (jitter2 w) (ro2_bc_pipe w) (beat_bc_pipe w) (counter_pipe w) (q_pipe w) (out_pipe w)
     (ro1 w) (ro2 w) (beat_ff w) (f (counter w)) (rand_out w) (procs w).
Definition set_rand_out (f : RandOut.t -> RandOut.t) (w : t) : t :=
  mk (env w) (bpipes w) (variates w) (random_pos w) (period w) (delta w) (jitter1 w)
     (jitter2 w) (ro2_bc_pipe w) (beat_bc_pipe w) (counter_pipe w) (q_pipe w) (out_pipe w)
     (ro1 w) (ro2 w) (beat_ff w) (counter w) (f (rand_out w)) (procs w).
Definition set_proc (p : simpy.proc) (pr : Process) (w : t) : t :=
  mk (env w) (bpipes w) (variates w) (random_pos w) (period w) (delta w) (jitter1 w)
     (jitter2 w) (ro2_bc_pipe w) (beat_bc_pipe w) (counter_pipe w) (q_pipe w) (out_pipe w)
     (ro1 w) (ro2 w) (beat_ff w) (counter w) (rand_out w)
     (fun q => if decide (q = p) then pr else procs w q).
End TRNG.

Abbreviation W := (M TRNG.t).

(** Running an engine operation on the environment of the program. *)
Definition lift {A} (m : simpy.E A) : W A := fun w =>
  let (r, e) := m (TRNG.env w) in (r, TRNG.set_env (fun _ => e) w).

Definition the_RO (self : ro_ref) (w : TRNG.t) : RO.t :=
  match self with the_ro1 => TRNG.ro1 w | the_ro2 => TRNG.ro2 w end.

Definition set_RO (self : ro_ref) (f : RO.t -> RO.t) : TRNG.t -> TRNG.t :=
  match self with the_ro1 => TRNG.set_ro1 f | the_ro2 => TRNG.set_ro2 f end.

(** The attribute [state] of a referenced object, read now. *)
Definition state_of (r : ref) (w : TRNG.t) : pyval :=
  match r with
  | ref_ro1 => VBool (RO.state (TRNG.ro1 w))
  | ref_ro2 => VBool (RO.state (TRNG.ro2 w))
  | ref_beat_ff => FF.state (TRNG.beat_ff w)
  | ref_counter => VInt (Counter.state (TRNG.counter w))
  end.

(** Modelled from the spec: [random.normalvariate] belongs to the Python
    library, not to the source; it returns [mu + z * sigma] for the next
    deviate [z] of the generator (the Gaussian draw of section 4.4). *)
Definition normalvariate (mu sigma : float) : W float := fun w =>
  (Return (mu + TRNG.variates w (TRNG.random_pos w) * sigma)%float,
   TRNG.set_random_pos (S (TRNG.random_pos w)) w).

(** ** [BroadcastPipe] *)

(** [BroadcastPipe.put]: the value is put into every registered store; the
    result is the [all_of] condition over the put requests. *)
Definition BroadcastPipe_put (self : nat) (value : pyval) : W nat :=
  bp ← deref TRNG.bpipes self;
  match BroadcastPipe.pipes bp with
  | [] => raise (RuntimeError "There are no output pipes.")
  | _ =>
      events ← lift (mapM (fun store => simpy.put store value) (BroadcastPipe.pipes bp));
      lift (simpy.all_of events)
  end.

(** [BroadcastPipe.get_output_conn]: a fresh store, appended to [pipes]. *)
Definition BroadcastPipe_get_output_conn (self : nat) : W nat :=
  bp ← deref TRNG.bpipes self;
  pipe ← lift (simpy.new_store (BroadcastPipe.capacity bp));
  modify (TRNG.set_bpipes
            (alter (fun b => BroadcastPipe.mk (BroadcastPipe.capacity b)
                                              (BroadcastPipe.pipes b ++ [pipe])) self));;
  mret pipe.

(** ** The [run] generators

    Each function takes the suspension point and the value sent into the
    generator, executes the body up to the next [yield] and returns the new
    suspension point with the yielded event. *)

Definition now : W float := gets (fun w => simpy.now (TRNG.env w)).

(** The [yield] expression at the head of the loop of [RO.run]. *)
Definition RO_wait (self : ro_ref) : W nat :=
  r ← gets (the_RO self);
  z ← normalvariate 0 (RO.jitter r * PrimFloat.sqrt 2 / 2)%float;
  lift (simpy.timeout (RO.half_period r + z)%float).

Definition RO_run (self : ro_ref) (pc : RO_pc) (sent : pyval) : W (RO_pc * nat) :=
  match pc with
  | RO_start =>
      r ← gets (the_RO self);
      match RO.out_pipe r with
      | Some _ =>
          ev ← lift (simpy.timeout (RO.period r / 4)%float);
          mret (RO_offset_wait, ev)
      | None =>
          ev ← RO_wait self;
          mret (RO_half_wait, ev)
      end
  | RO_offset_wait =>
      ev ← RO_wait self;
      mret (RO_half_wait, ev)
  | RO_half_wait =>
      modify (set_RO self (fun r => RO.set_state (negb (RO.state r)) r));;
      r ← gets (the_RO self);
      match RO.out_pipe r with
      | Some out_pipe => BroadcastPipe_put out_pipe (VBool (RO.state r));; mret tt
      | None => mret tt
      end;;
      (if RO.verbose r then
         t ← now;
         modify (set_RO self (fun r => RO.set_data (RO.data r ++ [(t, RO.state r)]) r))
       else mret tt);;
      ev ← RO_wait self;
      mret (RO_half_wait, ev)
  end.

Definition FF_run (pc : FF_pc) (sent : pyval) : W (FF_pc * nat) :=
  match pc with
  | FF_start => mret tt
  | FF_get =>
      if truthy sent then
        modify (TRNG.set_beat_ff (fun f => FF.set_old_state (FF.state f) f));;
        v ← gets (fun w => state_of (FF.i_data (TRNG.beat_ff w)) w);
        modify (TRNG.set_beat_ff (FF.set_state v));;
        self ← gets TRNG.beat_ff;
        (if FF.verbose self then
           t ← now;
           modify (TRNG.set_beat_ff (FF.set_data (FF.data self ++ [(t, FF.state self)])))
         else mret tt);;
        BroadcastPipe_put (FF.o_beat_pipe self) (FF.state self);;
        mret tt
      else mret tt
  end;;
  self ← gets TRNG.beat_ff;
  ev ← lift (simpy.get (FF.i_clk_pipe self));
  mret (FF_get, ev).

(** The float written [1e-15] in the source. *)
Definition settle_delay : float := 0x1.203af9ee75616p-50%float.

(** The body of [Counter.run] after the settling delay (lines 89 to 99). *)
Definition Counter_clocked : W unit :=
  self ← gets TRNG.counter;
  (if Counter.verbose self then
     t ← now;
     modify (TRNG.set_counter (Counter.set_data (Counter.data self ++ [(t, Counter.count self)])))
   else mret tt);;
  lift (simpy.put (Counter.o_Q_pipe self) (VInt (Counter.count self)));;
  rst ← gets (state_of (Counter.i_rst self));
  (if truthy rst && negb (truthy (Counter.old_state self)) then
     modify (TRNG.set_counter (fun c =>
       Counter.set_avg (Counter.avg c +
                        (float_of_int (Counter.count c) - Counter.avg c)
                        / float_of_int (Counter.n c))%float c));;
     modify (TRNG.set_counter (fun c => Counter.set_n (Counter.n c + 1) c));;
     modify (TRNG.set_counter (fun c =>
       Counter.set_count_max (Counter.count_max c ++ [Counter.count c]) c));;
     modify (TRNG.set_counter (Counter.set_count 0))
   else
     modify (TRNG.set_counter (fun c => Counter.set_count (Counter.count c + 1) c)));;
  rst' ← gets (state_of (Counter.i_rst self));
  modify (TRNG.set_counter (Counter.set_old_state rst')).

Definition Counter_run (pc : Counter_pc) (sent : pyval) : W (Counter_pc * nat) :=
  let loop : W (Counter_pc * nat) :=
    self ← gets TRNG.counter;
    ev ← lift (simpy.get (Counter.i_clk_pipe self));
    mret (Counter_get, ev) in
  match pc with
  | Counter_start => loop
  | Counter_get =>
      if truthy sent then
        ev ← lift (simpy.timeout settle_delay);
        mret (Counter_settle, ev)
      else loop
  | Counter_settle => Counter_clocked;; loop
  end.

Definition RandOut_run (pc : RandOut_pc) (sent : pyval) : W (RandOut_pc * nat) :=
  match pc with
  | RandOut_start => mret tt
  | RandOut_get =>
      let i_clk := sent in
      self ← gets TRNG.rand_out;
      (if truthy i_clk && negb (truthy (RandOut.old_i_clk self)) then
         q ← gets (state_of (RandOut.i_Q self));
         if RandOut.verbose self then
           t ← now;
           modify (TRNG.set_rand_out (RandOut.set_data (RandOut.data self ++ [Stamped t q])))
         else
           modify (TRNG.set_rand_out (RandOut.set_data (RandOut.data self ++ [Bare q])))
       else mret tt);;
      modify (TRNG.set_rand_out (RandOut.set_old_i_clk i_clk))
  end;;
  self ← gets TRNG.rand_out;
  ev ← lift (simpy.get (RandOut.i_clk_pipe self));
  mret (RandOut_get, ev).

(** [generator.send(value)]. *)
Definition send (g : generator) (sent : pyval) : W (generator * nat) :=
  match g with
  | RO_gen self pc => '(pc', ev) ← RO_run self pc sent; mret (RO_gen self pc', ev)
  | FF_gen pc => '(pc', ev) ← FF_run pc sent; mret (FF_gen pc', ev)
  | Counter_gen pc => '(pc', ev) ← Counter_run pc sent; mret (Counter_gen pc', ev)
  | RandOut_gen pc => '(pc', ev) ← RandOut_run pc sent; mret (RandOut_gen pc', ev)
  end.

(** ** Processes and the event loop *)

Definition set_process (p : simpy.proc) (f : Process -> Process) : W unit :=
  modify (fun w => TRNG.set_proc p (f (TRNG.procs w p)) w).

(** Modelled from the spec: [simpy.Process._resume] (engine code, not in the
    source).  The value of the processed event is sent into the generator; the
    process then waits for the event the generator yields.  An exception
    leaving the generator ends the process: its own event fails with that
    exception and is scheduled. *)
Definition Process_resume (p : simpy.proc) (event : nat) : W unit :=
  e ← lift (deref simpy.events event);
  pr ← gets (fun w => TRNG.procs w p);
  match gen pr with
  | None => raise (RuntimeError "generator already finished")
  | Some g =>
      try_except
        (match simpy.value e with
         | simpy.Succeeded v => send g v
         | simpy.Failed exc => raise exc
         | simpy.PENDING => raise (RuntimeError "event not triggered")
         end)
        (fun '(g', next) =>
           lift (simpy.add_callback next (simpy.Process_resume_cb p));;
           set_process p (fun pr => mkProcess (Some g') (Some next) (pevent pr)))
        (fun exc =>
           set_process p (fun pr => mkProcess None None (pevent pr));;
           lift (simpy.update_event (pevent pr) (simpy.set_value (simpy.Failed exc)));;
           lift (simpy.schedule (pevent pr) simpy.NORMAL 0))
  end.

(** [Environment.process(generator)]: the process event and its [Initialize]
    event, which is scheduled as urgent. *)
Definition env_process (p : simpy.proc) (g : generator) : W unit :=
  self ← lift (simpy.new_event (simpy.plain_event [] simpy.PENDING VNone));
  init ← lift (simpy.new_event
                 (simpy.plain_event [simpy.Process_resume_cb p] (simpy.Succeeded VNone) VNone));
  lift (simpy.schedule init simpy.URGENT 0);;
  modify (TRNG.set_proc p (mkProcess (Some g) (Some init) self)).

Definition run_callback (event : nat) (cb : simpy.callback) : W unit :=
  match cb with
  | simpy.Process_resume_cb p => Process_resume p event
  | simpy.trigger_get_cb s => lift (simpy.trigger_get s)
  | simpy.trigger_put_cb s => lift (simpy.trigger_put s)
  | simpy.Condition_check_cb c => lift (simpy.Condition_check c)
  | simpy.StopSimulation_callback => raise StopSimulation
  end.

(** Modelled from the spec: [simpy.Environment.step] (section 4.1, [advance]):
    the earliest event is popped, the clock moves to its time, its callbacks
    run, and a failed event that nobody handled raises its exception. *)
Definition step : W unit :=
  q ← gets (fun w => simpy.queue (TRNG.env w));
  match simpy.heappop q with
  | None => raise EmptySchedule
  | Some ((t, _, _, event), rest) =>
      modify (TRNG.set_env (fun env =>
        simpy.mkEnv t rest (simpy.eid env) (simpy.events env) (simpy.stores env)));;
      e ← lift (deref simpy.events event);
      lift (simpy.update_event event (simpy.set_callbacks None));;
      mapM (run_callback event) (default [] (simpy.callbacks e));;
      e' ← lift (deref simpy.events event);
      match simpy.value e' with
      | simpy.Failed exc => raise exc
      | _ => mret tt
      end
  end.

(** The loop of [Environment.run]: steps until an exception leaves [step];
    [StopSimulation] is the normal end.  [None] when [fuel] steps were not
    enough. *)
Fixpoint run_loop (fuel : nat) (w : TRNG.t) : option (outcome unit * TRNG.t) :=
  match fuel with
  | O => None
  | S fuel' =>
      match step w with
      | (Return _, w') => run_loop fuel' w'
      | (Raise StopSimulation, w') => Some (Return tt, w')
      | (Raise exc, w') => Some (Raise exc, w')
      end
  end.

(** [Environment.run(until=at)] for a number [at]. *)
Definition run (at_ : float) (fuel : nat) (w : TRNG.t) : option (outcome unit * TRNG.t) :=
  if (at_ <=? simpy.now (TRNG.env w))%float then Some (Raise (ValueError at_), w)
  else
    match (until ← lift (simpy.new_event (simpy.plain_event [] (simpy.Succeeded VNone) VNone));
           lift (simpy.schedule until simpy.URGENT (at_ - simpy.now (TRNG.env w))%float);;
           lift (simpy.add_callback until simpy.StopSimulation_callback)) w with
    | (Return _, w') => run_loop fuel w'
    | (Raise exc, w') => Some (Raise exc, w')
    end.

(** [fuel] steps of the event loop, stopping at the first exception. *)
Fixpoint steps (fuel : nat) : W unit :=
  match fuel with
  | O => mret tt
  | S fuel' => step;; steps fuel'
  end.

(** ** [TRNG.__init__] *)

(** The state before the constructor has assigned anything. *)
Definition TRNG_blank (period delta jitter1 jitter2 : float) (variates : nat -> float) : TRNG.t :=
  TRNG.mk (simpy.mkEnv 0 [] 0 [] []) [] variates 0 period delta jitter1 jitter2 0 0 0 0 0
          (RO.init period jitter1 None false) (RO.init period jitter1 None false)
          (FF.init 0 ref_ro1 0 false) (Counter.init 0 ref_beat_ff 0 false)
          (RandOut.init 0 ref_counter false)
          (fun _ => mkProcess None None 0).

Definition new_BroadcastPipe (capacity : option nat) : W nat := fun w =>
  (Return (length (TRNG.bpipes w)),
   TRNG.set_bpipes (fun l => l ++ [BroadcastPipe.init capacity]) w).

Definition TRNG_init (verbose : bool) : W unit :=
  period ← gets TRNG.period;
  delta ← gets TRNG.delta;
  jitter1 ← gets TRNG.jitter1;
  jitter2 ← gets TRNG.jitter2;
  ro2_bc_pipe ← new_BroadcastPipe None;
  beat_bc_pipe ← new_BroadcastPipe None;
  counter_pipe ← lift (simpy.new_store None);
  q_pipe ← lift (simpy.new_store None);
  out_pipe ← lift (simpy.new_store None);
  modify (TRNG.set_pipe_attrs ro2_bc_pipe beat_bc_pipe counter_pipe q_pipe out_pipe);;
  modify (TRNG.set_ro1 (fun _ => RO.init period jitter1 None verbose));;
  modify (TRNG.set_ro2 (fun _ => RO.init (period + delta)%float jitter2 (Some ro2_bc_pipe) verbose));;
  conn ← BroadcastPipe_get_output_conn ro2_bc_pipe;
  modify (TRNG.set_beat_ff (fun _ => FF.init conn ref_ro1 beat_bc_pipe verbose));;
  conn ← BroadcastPipe_get_output_conn ro2_bc_pipe;
  modify (TRNG.set_counter (fun _ => Counter.init conn ref_beat_ff q_pipe verbose));;
  conn ← BroadcastPipe_get_output_conn beat_bc_pipe;
  modify (TRNG.set_rand_out (fun _ => RandOut.init conn ref_counter verbose));;
  env_process simpy.ro1_proc (RO_gen the_ro1 RO_start);;
  env_process simpy.ro2_proc (RO_gen the_ro2 RO_start);;
  env_process simpy.beat_ff_proc (FF_gen FF_start);;
  env_process simpy.counter_proc (Counter_gen Counter_start);;
  env_process simpy.rand_out_proc (RandOut_gen RandOut_start).

(** [TRNG(period, delta, jitter1, jitter2, verbose)] with the random generator
    in the state given by [variates]. *)
Definition TRNG_new (period delta jitter1 jitter2 : float) (verbose : bool)
    (variates : nat -> float) : TRNG.t :=
  (TRNG_init verbose (TRNG_blank period delta jitter1 jitter2 variates)).2.

(** ** The jitter statistic *)

Section sigma.

(** [np.std] applied to a list of integers: numpy code, which is not part of
    the source, taken as a parameter. *)
Variable np_std : list Z -> float.

(** The property [TRNG.sigma]; [np.sqrt] on a float is the IEEE square
    root. *)
Definition TRNG_sigma (w : TRNG.t) : float :=
  (np_std (drop 1 (Counter.count_max (TRNG.counter w)))
   * TRNG.delta w
   / PrimFloat.sqrt (2 * TRNG.period w / TRNG.delta w))%float.

End sigma.

(** * Vocabulary of the properties *)

(** ** The engine *)

Section vocabulary.
Import simpy.

(** The environment after [succeed] on a pending event. *)
Definition succeeded (ev : nat) (v : pyval) (env : Environment) : Environment :=
  mkEnv (now env) (queue env ++ [((now env + 0)%float, NORMAL, eid env, ev)])
        (S (eid env)) (alter (set_value (Succeeded v)) ev (events env)) (stores env).

(** The values held for the consumer of a store: the buffered items, then
    the items of the put requests that still wait for room. *)
Definition contents (env : Environment) (s : nat) : list pyval :=
  match stores env !! s with
  | Some st => items st ++ omap (fun ev => item <$> events env !! ev) (put_queue st)
  | None => []
  end.

(** A put request waiting in the queue of store [s]. *)
Definition queued_put (env : Environment) (s ev : nat) : Prop :=
  exists e cbs, events env !! ev = Some e /\ value e = PENDING /\
                callbacks e = Some (trigger_get_cb s :: cbs).

(** Store [s] exists and its put queue holds distinct waiting requests. *)
Definition put_ok (env : Environment) (s : nat) : Prop :=
  exists st, stores env !! s = Some st /\ NoDup (put_queue st) /\
             Forall (queued_put env s) (put_queue st).

(** The request created by [Store.put(v)] on store [s]. *)
Definition put_request (s : nat) (v : pyval) : Event :=
  plain_event [trigger_get_cb s] PENDING v.

(** The effect of [Store.put(v)] on store [s]. *)
Record put_post (s : nat) (v : pyval) (env env' : Environment) : Prop := {
  post_now : now env' = now env;
  post_contents : contents env' s = contents env s ++ [v];
  post_delivered : forall st,
    stores env !! s = Some st -> has_room st = true -> put_queue st = [] ->
    stores env' !! s = Some (set_items (items st ++ [v]) st);
  post_others : forall s', s' <> s -> stores env' !! s' = stores env !! s';
  post_length : length (stores env') = length (stores env);
  post_events : forall x e, events env !! x = Some e ->
    exists e', events env' !! x = Some e' /\ item e' = item e /\ callbacks e' = callbacks e;
  post_new_event : length (events env') = S (length (events env));
  post_ok : forall s', put_ok env s' -> put_ok env' s'
}.

(** What later operations keep of an event that is not theirs: its item,
    its value and the head of its callbacks. *)
Definition ev_rel (e e' : Event) : Prop :=
  item e' = item e /\ value e' = value e /\
  forall c cbs, callbacks e = Some (c :: cbs) -> exists cbs', callbacks e' = Some (c :: cbs').

(** [env'] differs from [env] in events only, and keeps the events other
    than [cond]. *)
Definition cond_rel (cond : nat) (env env' : Environment) : Prop :=
  now env' = now env /\ stores env' = stores env /\
  length (events env') = length (events env) /\
  forall x e, x <> cond -> events env !! x = Some e ->
              exists e', events env' !! x = Some e' /\ ev_rel e e'.

(** [env'] has the stores of [env] and keeps its events. *)
Definition env_kept (env env' : Environment) : Prop :=
  now env' = now env /\ stores env' = stores env /\
  forall x e, events env !! x = Some e ->
              exists e', events env' !! x = Some e' /\ ev_rel e e'.

(** The effect of putting [v] into each store of [ss]. *)
Record puts_post (ss : list nat) (v : pyval) (env env' : Environment) : Prop := {
  puts_now : now env' = now env;
  puts_contents : forall s, s ∈ ss -> contents env' s = contents env s ++ [v];
  puts_delivered : forall s st, s ∈ ss ->
    stores env !! s = Some st -> has_room st = true -> put_queue st = [] ->
    stores env' !! s = Some (set_items (items st ++ [v]) st);
  puts_others : forall s, s ∉ ss -> stores env' !! s = stores env !! s;
  puts_length : length (stores env') = length (stores env);
  puts_events : forall x e, events env !! x = Some e ->
    exists e', events env' !! x = Some e' /\ item e' = item e /\ callbacks e' = callbacks e;
  puts_ok : forall s, put_ok env s -> put_ok env' s
}.

(** Putting [v] into each store of [ss], then the [all_of] condition. *)
Record broadcast_post (ss : list nat) (v : pyval) (env env' : Environment) : Prop := {
  bc_now : now env' = now env;
  bc_contents : forall s, s ∈ ss -> contents env' s = contents env s ++ [v];
  bc_delivered : forall s st, s ∈ ss ->
    stores env !! s = Some st -> has_room st = true -> put_queue st = [] ->
    stores env' !! s = Some (set_items (items st ++ [v]) st);
  bc_others : forall s, s ∉ ss -> stores env' !! s = stores env !! s;
  bc_length : length (stores env') = length (stores env);
  bc_ok : forall s, put_ok env s -> put_ok env' s
}.

(** The other stores are untouched and every event keeps its item. *)
Definition store_frame (s : nat) (env env' : Environment) : Prop :=
  (forall s', s' <> s -> stores env' !! s' = stores env !! s') /\
  (forall x e, events env !! x = Some e ->
               exists e', events env' !! x = Some e' /\ item e' = item e).

End vocabulary.

(** ** The program *)

(** The entry the sampler appends for a value [v]: a time-stamped tuple in
    verbose mode, the bare value otherwise. *)
Definition sampled (w : TRNG.t) (v : pyval) : sample :=
  if RandOut.verbose (TRNG.rand_out w) then Stamped (simpy.now (TRNG.env w)) v else Bare v.

(** A rising edge on the sampler's clock input: the received value is true
    and the previously received one was false. *)
Definition rising_edge (w : TRNG.t) (i_clk : pyval) : Prop :=
  truthy i_clk = true /\ truthy (RandOut.old_i_clk (TRNG.rand_out w)) = false.

(** The state after the sampler has handled the received value [i_clk]. *)
Definition RandOut_received (i_clk : pyval) (w : TRNG.t) : TRNG.t :=
  (RandOut_run RandOut_get i_clk w).2.

(** The sampler appends the full integer count of the counter. *)
Definition records_full_count (w : TRNG.t) (i_clk : pyval) : Prop :=
  RandOut.data (TRNG.rand_out (RandOut_received i_clk w)) =
  RandOut.data (TRNG.rand_out w) ++ [sampled w (VInt (Counter.count (TRNG.counter w)))].

(** A small assembly used for concrete runs: periods 4 and 5 (in units of
    2^-30 s), no jitter, bare samples. *)
Definition example_TRNG : TRNG.t :=
  TRNG_new 0x1p-28 0x1p-30 0 0 false (fun _ => 0%float).

(** The state of [example_TRNG] after [k] steps of the event loop. *)
Definition example_after (k : nat) : TRNG.t := (steps k example_TRNG).2.

(** The pipe [bp] is the object [p], whose registered stores are distinct and
    in order. *)
Definition pipe_ok (w : TRNG.t) (bp : nat) (p : BroadcastPipe.t) : Prop :=
  TRNG.bpipes w !! bp = Some p /\
  NoDup (BroadcastPipe.pipes p) /\
  Forall (put_ok (TRNG.env w)) (BroadcastPipe.pipes p).

(** The exception of [BroadcastPipe.put] on a pipe without consumers. *)
Definition no_output_pipes : exn := RuntimeError "There are no output pipes.".

(** The state in which process [p] has ended with exception [exc]: its
    generator is closed, its own event has failed and is scheduled. *)
Definition process_failed (p : simpy.proc) (pe : nat) (exc : exn) (w : TRNG.t) : TRNG.t :=
  TRNG.set_env
    (fun env =>
       simpy.mkEnv (simpy.now env)
         (simpy.queue env ++ [((simpy.now env + 0)%float, simpy.NORMAL, simpy.eid env, pe)])
         (S (simpy.eid env))
         (alter (simpy.set_value (simpy.Failed exc)) pe (simpy.events env))
         (simpy.stores env))
    (TRNG.set_proc p (mkProcess None None pe) w).

(** The environment after a timeout of [delay] has been created. *)
Definition timeout_scheduled (delay : float) (env : simpy.Environment) : simpy.Environment :=
  simpy.mkEnv (simpy.now env)
    (simpy.queue env
       ++ [((simpy.now env + delay)%float, simpy.NORMAL, simpy.eid env, length (simpy.events env))])
    (S (simpy.eid env))
    (simpy.events env ++ [simpy.plain_event [] (simpy.Succeeded VNone) VNone])
    (simpy.stores env).

(** The duration the oscillator [self] asks for at its next wait: the half
    period plus the next Gaussian draw. *)
Definition sampled_wait (self : ro_ref) (w : TRNG.t) : float :=
  (RO.half_period (the_RO self w)
   + (0 + TRNG.variates w (TRNG.random_pos w)
          * (RO.jitter (the_RO self w) * PrimFloat.sqrt 2 / 2)))%float.

(** The state after one draw from the random generator. *)
Definition drawn (w : TRNG.t) : TRNG.t := TRNG.set_random_pos (S (TRNG.random_pos w)) w.

(** The state in which the oscillator has toggled, before its broadcast. *)
Definition toggled (self : ro_ref) (w : TRNG.t) : TRNG.t :=
  set_RO self (fun r => RO.set_state (negb (RO.state r)) r) w.

(** The state in which the oscillator has logged its new state. *)
Definition RO_logged (self : ro_ref) (w : TRNG.t) : TRNG.t :=
  if RO.verbose (the_RO self w) then
    set_RO self (fun r => RO.set_data
                   (RO.data r ++ [(simpy.now (TRNG.env w), RO.state r)]) r) w
  else w.

(** An assembly whose jitter is far larger than the half period, with a
    random generator that draws -1 every time. *)
Definition jittery_TRNG : TRNG.t :=
  TRNG_new 0x1p-28 0x1p-30 1 1 false (fun _ => (-1)%float).

(** The state just after [BroadcastPipe(env)], before any consumer has
    registered. *)
Definition fresh_pipe_state : TRNG.t :=
  (new_BroadcastPipe None (TRNG_blank 0x1p-28 0x1p-30 0 0 (fun _ => 0%float))).2.

(** An assembly whose oscillator broadcasts into a pipe that nobody listens
    to: the run ends with the error of the first broadcast. *)
Definition unwired_TRNG : TRNG.t :=
  TRNG.set_bpipes (fun _ => [BroadcastPipe.init None; BroadcastPipe.init None]) example_TRNG.

(** [example_TRNG] in verbose mode. *)
Definition example_verbose : TRNG.t :=
  TRNG_new 0x1p-28 0x1p-30 0 0 true (fun _ => 0%float).

(** The state after [get_output_conn] on pipe [bp]. *)
Definition registered (bp : nat) (capacity : option nat) (w : TRNG.t) : TRNG.t :=
  TRNG.set_bpipes
    (alter (fun b => BroadcastPipe.mk (BroadcastPipe.capacity b)
                       (BroadcastPipe.pipes b ++ [length (simpy.stores (TRNG.env w))])) bp)
    (TRNG.set_env (simpy.set_stores (fun l => l ++ [simpy.mkStore capacity [] [] []])) w).

(** [m] relates every state to the state it leaves, whatever its outcome. *)
Definition preserves {S A} (R : S -> S -> Prop) (m : M S A) : Prop :=
  forall s, R s (m s).2.

(** The state after the latch has sampled its data input (lines 58 to 61). *)
Definition FF_latched (w : TRNG.t) : TRNG.t :=
  let ff := TRNG.beat_ff w in
  let v := state_of (FF.i_data ff) w in
  TRNG.set_beat_ff
    (fun _ => FF.mk (FF.i_clk_pipe ff) (FF.i_data ff) (FF.o_beat_pipe ff) v (FF.state ff)
                (if FF.verbose ff then FF.data ff ++ [(simpy.now (TRNG.env w), v)]
                 else FF.data ff)
                (FF.verbose ff)) w.

(** Waiting for the next message: the loop head of the three consumers. *)
Definition await (store : nat) {pc : Type} (at_get : pc) (w : TRNG.t)
    : outcome (pc * nat) * TRNG.t :=
  match lift (simpy.get store) w with
  | (Return ev, w') => (Return (at_get, ev), w')
  | (Raise e, w') => (Raise e, w')
  end.

(** The reset condition of line 92 in state [w]. *)
Definition reset_event (w : TRNG.t) : bool :=
  truthy (state_of (Counter.i_rst (TRNG.counter w)) w)
  && negb (truthy (Counter.old_state (TRNG.counter w))).

(** The state after the counter has logged its count (lines 89 and 90). *)
Definition Counter_logged (w : TRNG.t) : TRNG.t :=
  if Counter.verbose (TRNG.counter w) then
    TRNG.set_counter
      (Counter.set_data (Counter.data (TRNG.counter w)
                           ++ [(simpy.now (TRNG.env w), Counter.count (TRNG.counter w))])) w
  else w.

(** The state after the branch on the reset condition (lines 92 to 98). *)
Definition Counter_branched (w : TRNG.t) : TRNG.t :=
  if reset_event w then
    TRNG.set_counter (fun c =>
      Counter.mk (Counter.i_clk_pipe c) (Counter.i_rst c) (Counter.o_Q_pipe c) 0
        (Counter.data c) (Counter.count_max c ++ [Counter.count c])
        (Counter.avg c + (float_of_int (Counter.count c) - Counter.avg c)
                         / float_of_int (Counter.n c))%float
        (Counter.n c + 1) (Counter.verbose c) (Counter.old_state c)) w
  else TRNG.set_counter (fun c => Counter.set_count (Counter.count c + 1) c) w.

(** The state after line 99. *)
Definition Counter_counted (w : TRNG.t) : TRNG.t :=
  TRNG.set_counter
    (Counter.set_old_state
       (state_of (Counter.i_rst (TRNG.counter w)) (Counter_branched w)))
    (Counter_branched w).

(** The flag [old_state] after the handling of [sent] in state [w] equals
    the state the reset gate has in [w]. *)
Definition old_state_tracks_gate (sent : pyval) (w : TRNG.t) : Prop :=
  Counter.old_state (TRNG.counter (Counter_run Counter_get sent w).2) =
  state_of (Counter.i_rst (TRNG.counter w)) w.

(** The assembly of [example_TRNG] with the counter's reset gate wired to
    the free-running oscillator, as [Counter(env, clk, ro1, q_pipe)] does. *)
Definition gated_TRNG : TRNG.t :=
  TRNG.set_counter
    (fun c => Counter.init (Counter.i_clk_pipe c) ref_ro1 (Counter.o_Q_pipe c) false)
    example_TRNG.

(** A history lists the clock messages the counter has handled, oldest
    first, each with [true] when its handling was a reset event. *)
Definition history := list (pyval * bool).

(** The messages handled after the last reset event of a history. *)
Definition since_reset (tr : history) : history :=
  foldl (fun (acc : history) (m : pyval * bool) => if m.2 then [] else acc ++ [m]) [] tr.

(** The number of true-valued messages among [tr]. *)
Fixpoint true_messages (tr : history) : Z :=
  match tr with
  | [] => 0
  | m :: tr' => (if truthy m.1 then 1 else 0) + true_messages tr'
  end.

(** [counted tr c]: the counter object is [c] when its process, started on
    a fresh counter, has handled the messages of [tr].  The states in which
    the generator is resumed are arbitrary but for the counter object, which
    no other process writes. *)
Inductive counted : history -> Counter.t -> Prop :=
| counted_start (i_clk_pipe : nat) (i_rst : ref) (o_Q_pipe : nat) (verbose : bool) :
    counted [] (Counter.init i_clk_pipe i_rst o_Q_pipe verbose)
| counted_false (tr : history) (c : Counter.t) (sent : pyval) (w : TRNG.t) :
    counted tr c ->
    truthy sent = false ->
    TRNG.counter w = c ->
    counted (tr ++ [(sent, false)]) (TRNG.counter (Counter_run Counter_get sent w).2)
| counted_true (tr : history) (c : Counter.t) (sent : pyval) (w w2 : TRNG.t) :
    counted tr c ->
    truthy sent = true ->
    TRNG.counter w = c ->
    TRNG.counter w2 = TRNG.counter (Counter_run Counter_get sent w).2 ->
    put_ok (TRNG.env w2) (Counter.o_Q_pipe (TRNG.counter w2)) ->
    counted (tr ++ [(sent, reset_event w2)])
            (TRNG.counter (Counter_run Counter_settle VNone w2).2).

(** The value appended at a reset event is the number of true messages
    received since the previous reset event, the message that triggers the
    reset included. *)
Definition appends_received_count (tr : history) (sent : pyval) (c c' : Counter.t) : Prop :=
  Counter.count_max c' =
  Counter.count_max c ++ [true_messages (since_reset tr ++ [(sent, true)])].

(** The first five clock messages of the run of [example_TRNG]. *)
Definition example_history : history :=
  [(VBool false, false); (VBool true, false); (VBool false, false);
   (VBool true, false); (VBool false, false)].


(** ** Further properties of the program *)

(** What the constructor fixes in an oscillator. *)
Definition RO_config (r : RO.t) :=
  (RO.jitter r, RO.period r, RO.half_period r, RO.frequency r, RO.out_pipe r, RO.verbose r).

(** The composition of an assembly: the pipes with their registered
    stores, the parameters, and for every component its connections and
    its mode. *)
Definition wiring (w : TRNG.t) :=
  (TRNG.bpipes w, (TRNG.period w, TRNG.delta w, TRNG.jitter1 w, TRNG.jitter2 w),
   (TRNG.ro2_bc_pipe w, TRNG.beat_bc_pipe w, TRNG.counter_pipe w, TRNG.q_pipe w, TRNG.out_pipe w),
   RO_config (TRNG.ro1 w), RO_config (TRNG.ro2 w),
   (FF.i_clk_pipe (TRNG.beat_ff w), FF.i_data (TRNG.beat_ff w), FF.o_beat_pipe (TRNG.beat_ff w),
    FF.verbose (TRNG.beat_ff w)),
   (Counter.i_clk_pipe (TRNG.counter w), Counter.i_rst (TRNG.counter w),
    Counter.o_Q_pipe (TRNG.counter w), Counter.verbose (TRNG.counter w)),
   (RandOut.i_clk_pipe (TRNG.rand_out w), RandOut.i_Q (TRNG.rand_out w),
    RandOut.verbose (TRNG.rand_out w))).

(** [w'] has the composition of [w]. *)
Definition same_wiring (w w' : TRNG.t) : Prop := wiring w' = wiring w.

(** [kept I]: a state that satisfies [I] is followed by one that does. *)
Definition kept (I : TRNG.t -> Prop) (w w' : TRNG.t) : Prop := I w -> I w'.

(** The recorded sequences of [w'] extend those of [w]. *)
Definition grows (w w' : TRNG.t) : Prop :=
  RO.data (TRNG.ro1 w) `prefix_of` RO.data (TRNG.ro1 w') /\
  RO.data (TRNG.ro2 w) `prefix_of` RO.data (TRNG.ro2 w') /\
  FF.data (TRNG.beat_ff w) `prefix_of` FF.data (TRNG.beat_ff w') /\
  Counter.data (TRNG.counter w) `prefix_of` Counter.data (TRNG.counter w') /\
  Counter.count_max (TRNG.counter w) `prefix_of` Counter.count_max (TRNG.counter w') /\
  RandOut.data (TRNG.rand_out w) `prefix_of` RandOut.data (TRNG.rand_out w').

(** The bookkeeping of a counter: [n] is one more than the number of
    recorded resets, and no count is negative. *)
Definition Counter_ok (c : Counter.t) : Prop :=
  Counter.n c = 1 + Z.of_nat (length (Counter.count_max c)) /\
  0 <= Counter.count c /\
  Forall (fun x => 0 <= x) (Counter.count_max c).

(** The integers 0 and 1. *)
Definition is_bit (v : pyval) : Prop := v = VInt 0 \/ v = VInt 1.

(** An entry of the sampler's output in the given mode: a time-stamped bit
    in verbose mode, a bare bit otherwise. *)
Definition sample_ok (verbose : bool) (s : sample) : Prop :=
  match s with
  | Stamped _ v => verbose = true /\ is_bit v
  | Bare v => verbose = false /\ is_bit v
  end.

(** A sampler that monitors the counter and has recorded bits only. *)
Definition RandOut_ok (r : RandOut.t) : Prop :=
  RandOut.i_Q r = ref_counter /\ Forall (sample_ok (RandOut.verbose r)) (RandOut.data r).

(** No component but the sampler keeps a log, and none has logged. *)
Definition quiet (w : TRNG.t) : Prop :=
  (RO.verbose (TRNG.ro1 w) = false /\ RO.data (TRNG.ro1 w) = []) /\
  (RO.verbose (TRNG.ro2 w) = false /\ RO.data (TRNG.ro2 w) = []) /\
  (FF.verbose (TRNG.beat_ff w) = false /\ FF.data (TRNG.beat_ff w) = []) /\
  (Counter.verbose (TRNG.counter w) = false /\ Counter.data (TRNG.counter w) = []).

(** ** Helper functions and constructors *)

(** The exceptions of the Python runtime met outside the event loop. *)
Inductive py_error := IndexError | ZeroDivisionError.

Section plot.

(** [np.spacing]: numpy code, which is not part of the source, taken as a
    parameter. *)
Variable np_spacing : float -> float.
Context {V : Type}.

(** The loop of [format_straight_line_plot] over the remaining [data], with
    its variables [previous] and [result]. *)
Fixpoint plot_loop (data : list (float * V)) (previous : V) (result : list (float * V))
    : list (float * V) :=
  match data with
  | [] => result
  | (time, value) :: data' =>
      plot_loop data' value
        (result ++ [((time - np_spacing time)%float, previous); (time, value)])
  end.

(** [format_straight_line_plot(data)]; [data[0]] raises [IndexError] on an
    empty list. *)
Definition format_straight_line_plot (data : list (float * V)) : py_error + list (float * V) :=
  match data with
  | [] => inl IndexError
  | (_, previous) :: _ => inr (plot_loop data previous [])
  end.

End plot.

(** The value in force before entry [i] of [data]: the value of the entry
    before it, or its own value for the first entry. *)
Definition value_before {V : Type} (data : list (float * V)) (i : nat) : option V :=
  snd <$> data !! (i - 1)%nat.

(** [RO(env, period, jitter, out_pipe, verbose)]: the constructor computes
    [1 / period], which raises [ZeroDivisionError] for a zero period. *)
Definition RO_new (period jitter : float) (out_pipe : option nat) (verbose : bool)
    : py_error + RO.t :=
  if (period =? 0)%float then inl ZeroDivisionError
  else inr (RO.init period jitter out_pipe verbose).

(** [TRNG(period, delta, jitter1, jitter2, verbose)] with the exceptions of
    the two [RO] constructors; the rest of the constructor is [TRNG_init]. *)
Definition TRNG_checked (period delta jitter1 jitter2 : float) (verbose : bool)
    (variates : nat -> float) : py_error + outcome unit * TRNG.t :=
  match RO_new period jitter1 None verbose with
  | inl e => inl e
  | inr _ =>
      match RO_new (period + delta)%float jitter2 (Some 0%nat) verbose with
      | inl e => inl e
      | inr _ => inr (TRNG_init verbose (TRNG_blank period delta jitter1 jitter2 variates))
      end
  end.

(** The property [TRNG.sigma] with the exception of its Python division
    [2 * self.period / self.delta]. *)
Definition TRNG_sigma_checked (np_std : list Z -> float) (w : TRNG.t) : py_error + float :=
  if (TRNG.delta w =? 0)%float then inl ZeroDivisionError
  else inr (TRNG_sigma np_std w).

(** A new pipe, [n] consumers registered on it, then one broadcast: the
    pipe, the stores handed out and the condition of the broadcast. *)
Definition register_then_put (capacity : option nat) (n : nat) (v : pyval)
    : W (nat * list nat * nat) :=
  bp ← new_BroadcastPipe capacity;
  conns ← mapM (fun _ : unit => BroadcastPipe_get_output_conn bp) (replicate n tt);
  cond ← BroadcastPipe_put bp v;
  mret (bp, conns, cond).

(** ** Message traces of the sampler *)

(** The truth value of the last message of [msgs], [prev] when there is
    none. *)
Definition last_truth (prev : bool) (msgs : list pyval) : bool :=
  foldl (fun _ m => truthy m) prev msgs.

(** The number of messages of [msgs] that are true while the message before
    ([prev] for the first one) was false. *)
Fixpoint rising_edges (prev : bool) (msgs : list pyval) : nat :=
  match msgs with
  | [] => 0
  | m :: msgs' => (if truthy m && negb prev then 1 else 0) + rising_edges (truthy m) msgs'
  end.

(** [sampled_msgs msgs r]: the sampler object is [r] when its process,
    started on a fresh sampler, has handled the messages [msgs].  The states
    in which the generator is resumed are arbitrary but for the sampler
    object, which no other process writes. *)
Inductive sampled_msgs : list pyval -> RandOut.t -> Prop :=
| sampled_start (i_clk_pipe : nat) (i_Q : ref) (verbose : bool) :
    sampled_msgs [] (RandOut.init i_clk_pipe i_Q verbose)
| sampled_next (msgs : list pyval) (r : RandOut.t) (m : pyval) (w : TRNG.t) :
    sampled_msgs msgs r ->
    TRNG.rand_out w = r ->
    sampled_msgs (msgs ++ [m]) (TRNG.rand_out (RandOut_received m w)).

(** ** Well-formed states of the run *)

(** What a run is checked against: whether a callback may stop the
    simulation (it may in a run with a time limit, whose limit event
    carries such a callback, and may not in the plain event loop), and the
    delays the components may ask a timeout for. *)
Class stop_mode := {
  stop_allowed : Prop;
  requested : float -> Prop
}.

Section well_formed.
Import simpy.
Context {mode : stop_mode}.

(** The event of a queue entry. *)
Definition entry_event (x : float * nat * nat * nat) : nat := x.2.

(** The processes a callback list will resume. *)
Definition resume_of (cb : callback) : option proc :=
  match cb with Process_resume_cb p => Some p | _ => None end.

Definition resumes (e : Event) : list proc :=
  omap resume_of (default [] (callbacks e)).

(** The exception of a timeout created with a negative delay, for a delay
    the components may ask for. *)
Definition negative_delay (exc : exn) : Prop :=
  exists d, exc = ValueError d /\ (d <? 0)%float = true /\ requested d.

(** Event [ev] is a request waiting in the get queue of some store. *)
Definition in_get_queue (env : Environment) (ev : nat) : Prop :=
  exists s st, stores env !! s = Some st /\ ev ∈ get_queue st.

(** Event [ev] exists and has not been triggered. *)
Definition pending (env : Environment) (ev : nat) : Prop :=
  exists e, events env !! ev = Some e /\ value e = PENDING.

(** A callback that can run in [env]: the store or condition it names
    exists, a condition is no get request, and the simulation is stopped
    only where the mode allows it. *)
Definition cb_wf (env : Environment) (cb : callback) : Prop :=
  match cb with
  | Process_resume_cb _ => True
  | trigger_get_cb s | trigger_put_cb s => (s < length (stores env))%nat
  | Condition_check_cb c => (c < length (events env))%nat /\ ~ in_get_queue env c
  | StopSimulation_callback => stop_allowed
  end.

(** The environment of a running assembly: queued events exist and are
    triggered, queue entries have distinct identifiers below the next one,
    stores are unbounded with no put waiting, get queues hold distinct
    pending requests and share none, callbacks can run, and a failed event
    failed with a negative delay. *)
Record env_wf (env : Environment) : Prop := {
  wf_queue : forall x, x ∈ queue env ->
    exists e, events env !! entry_event x = Some e /\ value e <> PENDING;
  wf_eid : forall x, x ∈ queue env -> (entry_eid x < eid env)%nat;
  wf_eids : NoDup (entry_eid <$> queue env);
  wf_unbounded : forall s st, stores env !! s = Some st ->
    capacity st = None /\ put_queue st = [];
  wf_get_queue : forall s st, stores env !! s = Some st ->
    NoDup (get_queue st) /\ forall ev, ev ∈ get_queue st -> pending env ev;
  wf_disjoint : forall s1 s2 st1 st2 ev,
    stores env !! s1 = Some st1 -> stores env !! s2 = Some st2 ->
    ev ∈ get_queue st1 -> ev ∈ get_queue st2 -> s1 = s2;
  wf_callbacks : forall ev e cbs, events env !! ev = Some e -> callbacks e = Some cbs ->
    Forall (cb_wf env) cbs;
  wf_failed : forall ev e exc, events env !! ev = Some e -> value e = Failed exc ->
    negative_delay exc
}.

(** [env'] comes after [env] in a run: the stores are the same in number,
    an event stays, stays triggered and failed if it was, and keeps the
    processes it will resume and the fact of having been processed or not;
    a new event resumes no process; queue entries stay; a get request is an
    old one or new. *)
Record extends (env env' : Environment) : Prop := {
  ext_stores : length (stores env') = length (stores env);
  ext_events : forall ev e, events env !! ev = Some e ->
    exists e', events env' !! ev = Some e' /\
               (value e <> PENDING -> value e' <> PENDING) /\
               ((exists exc, value e = Failed exc) -> exists exc, value e' = Failed exc) /\
               resumes e' = resumes e /\
               (callbacks e' = None <-> callbacks e = None);
  ext_new : forall ev e', (length (events env) <= ev)%nat -> events env' !! ev = Some e' ->
    resumes e' = [];
  ext_queue : forall x, x ∈ queue env -> x ∈ queue env';
  ext_get : forall ev, in_get_queue env' ev ->
    in_get_queue env ev \/ (length (events env) <= ev)%nat
}.

(** The environment in which the first request [h] of the get queue of
    store [s] has been served with the first item. *)
Definition served (s h : nat) (v : pyval) (rest : list pyval) (r : list nat)
    (env : Environment) : Environment :=
  succeeded h v
    (set_stores (alter (set_get_queue r) s) (set_stores (alter (set_items rest) s) env)).

(** The request created by [Store.get()] on store [s]. *)
Definition get_request (s : nat) : Event := plain_event [trigger_put_cb s] PENDING VNone.

(** The environment in which a get request has joined the queue of store
    [s], whose object was [st]. *)
Definition enqueued_get (s : nat) (st : Store) (env : Environment) : Environment :=
  set_stores (alter (set_get_queue (get_queue st ++ [length (events env)])) s)
    (set_events (fun l => l ++ [get_request s]) env).

(** The environment in which [ev] has been scheduled. *)
Definition scheduled (ev priority : nat) (delay : float) (env : Environment) : Environment :=
  mkEnv (now env) (queue env ++ [((now env + delay)%float, priority, eid env, ev)])
        (S (eid env)) (events env) (stores env).

(** [m] returns from [env], in a well-formed environment that comes after
    [env] and satisfies [post] with the value returned. *)
Definition runs_to {A} (m : E A) (env : Environment) (post : A -> Environment -> Prop) : Prop :=
  exists a env', m env = (Return a, env') /\ env_wf env' /\ extends env env' /\ post a env'.

End well_formed.

Section run_states.
Context {mode : stop_mode}.

(** The pipe [bp] exists and has registered stores, all of which exist. *)
Definition pipe_valid (w : TRNG.t) (bp : nat) : Prop :=
  exists p, TRNG.bpipes w !! bp = Some p /\ BroadcastPipe.pipes p <> [] /\
            Forall (fun s => s < length (simpy.stores (TRNG.env w)))%nat (BroadcastPipe.pipes p).

(** The wait of an oscillator for the variate [z]: the half period plus
    [normalvariate(0, jitter * sqrt(2) / 2)]. *)
Definition jittered_wait (r : RO.t) (z : float) : float :=
  (RO.half_period r + (0 + z * (RO.jitter r * PrimFloat.sqrt 2 / 2)))%float.

(** The delays the oscillators of [TRNG(period, delta, jitter1, jitter2)]
    ask for: a jittered half period of the first or of the second, and the
    quarter period by which the second starts late. *)
Definition oscillator_delay (period delta jitter1 jitter2 d : float) : Prop :=
  (exists z, d = (period / 2 + (0 + z * (jitter1 * PrimFloat.sqrt 2 / 2)))%float) \/
  (exists z, d = ((period + delta) / 2 + (0 + z * (jitter2 * PrimFloat.sqrt 2 / 2)))%float) \/
  d = ((period + delta) / 4)%float.

(** Every component is connected to pipes and stores that exist, and the
    delays of the oscillators are among those that may be asked for. *)
Record wired (w : TRNG.t) : Prop := {
  wired_ro : forall self bp, RO.out_pipe (the_RO self w) = Some bp -> pipe_valid w bp;
  wired_wait : forall self z, requested (jittered_wait (the_RO self w) z);
  wired_offset : forall self bp, RO.out_pipe (the_RO self w) = Some bp ->
    requested (RO.period (the_RO self w) / 4)%float;
  wired_ff_out : pipe_valid w (FF.o_beat_pipe (TRNG.beat_ff w));
  wired_ff_in : (FF.i_clk_pipe (TRNG.beat_ff w) < length (simpy.stores (TRNG.env w)))%nat;
  wired_counter_in :
    (Counter.i_clk_pipe (TRNG.counter w) < length (simpy.stores (TRNG.env w)))%nat;
  wired_counter_out :
    (Counter.o_Q_pipe (TRNG.counter w) < length (simpy.stores (TRNG.env w)))%nat;
  wired_rand_in :
    (RandOut.i_clk_pipe (TRNG.rand_out w) < length (simpy.stores (TRNG.env w)))%nat
}.

Definition is_RO_gen (g : generator) : Prop :=
  match g with RO_gen _ _ => True | _ => False end.

(** The processes and the events agree: an event resumes a process at most
    once, and only a live process that waits for it; the event of a process
    exists and is no get request; the first process runs an oscillator. *)
Record procs_wf (w : TRNG.t) : Prop := {
  pw_resume : forall ev e p, simpy.events (TRNG.env w) !! ev = Some e -> p ∈ resumes e ->
    gen (TRNG.procs w p) <> None /\ target (TRNG.procs w p) = Some ev;
  pw_nodup : forall ev e, simpy.events (TRNG.env w) !! ev = Some e -> NoDup (resumes e);
  pw_pevent : forall p,
    (pevent (TRNG.procs w p) < length (simpy.events (TRNG.env w)))%nat /\
    ~ in_get_queue (TRNG.env w) (pevent (TRNG.procs w p));
  pw_ro : forall g, gen (TRNG.procs w simpy.ro1_proc) = Some g -> is_RO_gen g
}.

(** Some queued event will resume the first oscillator, or has failed. *)
Definition runnable (env : simpy.Environment) : Prop :=
  exists x e, x ∈ simpy.queue env /\ simpy.events env !! entry_event x = Some e /\
              (simpy.ro1_proc ∈ resumes e \/ exists exc, simpy.value e = simpy.Failed exc).

(** The states of a run between two steps of the event loop. *)
Record run_wf (w : TRNG.t) : Prop := {
  rw_env : env_wf (TRNG.env w);
  rw_wired : wired w;
  rw_procs : procs_wf w;
  rw_runnable : runnable (TRNG.env w)
}.

(** The states inside a step, while the callbacks [pend] of the popped
    event [event] remain to be run. *)
Record mid_wf (event : nat) (pend : list simpy.callback) (w : TRNG.t) : Prop := {
  mid_env : env_wf (TRNG.env w);
  mid_wired : wired w;
  mid_procs : procs_wf w;
  mid_event : exists e, simpy.events (TRNG.env w) !! event = Some e /\
                        simpy.callbacks e = None /\ simpy.value e <> simpy.PENDING;
  mid_cbs : Forall (cb_wf (TRNG.env w)) pend;
  mid_nodup : NoDup (omap resume_of pend);
  mid_alive : forall p, p ∈ omap resume_of pend ->
    gen (TRNG.procs w p) <> None /\
    forall ev e, simpy.events (TRNG.env w) !! ev = Some e -> p ∉ resumes e;
  mid_runnable :
    simpy.ro1_proc ∈ omap resume_of pend \/
    (exists e exc, simpy.events (TRNG.env w) !! event = Some e /\
                   simpy.value e = simpy.Failed exc) \/
    runnable (TRNG.env w)
}.

(** An event a process can wait for: it has not been processed and resumes
    nobody yet. *)
Definition waitable (env : simpy.Environment) (ev : nat) : Prop :=
  exists e cbs, simpy.events env !! ev = Some e /\ simpy.callbacks e = Some cbs /\
                resumes e = [].

(** Event [ev] is in the queue. *)
Definition queued (env : simpy.Environment) (ev : nat) : Prop :=
  exists x, x ∈ simpy.queue env /\ entry_event x = ev.

(** The outcome of resuming a generator in [w] is safe: the event yielded
    can be waited for, or the exception is the one of a negative delay; the
    environment left is well formed and comes after the one of [w]. *)
Definition yields_ok {A} (w : TRNG.t) (r : outcome (A * nat) * TRNG.t) : Prop :=
  match r with
  | (Return (_, ev), w') =>
      env_wf (TRNG.env w') /\ extends (TRNG.env w) (TRNG.env w') /\ waitable (TRNG.env w') ev
  | (Raise exc, w') =>
      env_wf (TRNG.env w') /\ extends (TRNG.env w) (TRNG.env w') /\ negative_delay exc
  end.

(** The state in which the sampler has handled the value [i_clk], before
    it asks for the next one. *)
Definition RandOut_sampled (i_clk : pyval) (w : TRNG.t) : TRNG.t :=
  TRNG.set_rand_out (fun _ => TRNG.rand_out (RandOut_received i_clk w)) w.

(** The environment in which process [p] has registered on the event
    [next] it waits for, whose callbacks were [cbs]. *)
Definition hooked (p : simpy.proc) (next : nat) (cbs : list simpy.callback)
    (env : simpy.Environment) : simpy.Environment :=
  simpy.set_events
    (alter (simpy.set_callbacks (Some (cbs ++ [simpy.Process_resume_cb p]))) next) env.

(** The state in which process [p] waits for [next] with generator [g]. *)
Definition process_waits (p : simpy.proc) (g : generator) (next : nat)
    (cbs : list simpy.callback) (w : TRNG.t) : TRNG.t :=
  TRNG.set_proc p (mkProcess (Some g) (Some next) (pevent (TRNG.procs w p)))
    (TRNG.set_env (fun _ => hooked p next cbs (TRNG.env w)) w).

(** What is sent into, or thrown into, the generator [g] for the event
    [e]. *)
Definition resumed_with (g : generator) (e : simpy.Event) : W (generator * nat) :=
  match simpy.value e with
  | simpy.Succeeded v => send g v
  | simpy.Failed exc => raise exc
  | simpy.PENDING => raise (RuntimeError "event not triggered")
  end.

(** [w'] has the composition and the processes of [w]. *)
Definition untouched (w w' : TRNG.t) : Prop :=
  wiring w' = wiring w /\ TRNG.procs w' = TRNG.procs w.

(** The environment in which the event [pe] of a process has failed with
    [exc] and is scheduled. *)
Definition failed_scheduled (pe : nat) (exc : exn) (env : simpy.Environment)
    : simpy.Environment :=
  scheduled pe simpy.NORMAL 0
    (simpy.set_events (alter (simpy.set_value (simpy.Failed exc)) pe) env).

(** The environment in which the entry of [event] for time [t] has been
    popped, leaving the queue [rest], and the callbacks of [event] have been
    taken off it. *)
Definition popped (t : float) (rest : list (float * nat * nat * nat)) (event : nat)
    (env : simpy.Environment) : simpy.Environment :=
  simpy.set_events (alter (simpy.set_callbacks None) event)
    (simpy.mkEnv t rest (simpy.eid env) (simpy.events env) (simpy.stores env)).

End run_states.

(** The plain event loop and the run with a time limit of
    [TRNG(period, delta, jitter1, jitter2)]. *)
Definition loop_mode (period delta jitter1 jitter2 : float) : stop_mode :=
  {| stop_allowed := False; requested := oscillator_delay period delta jitter1 jitter2 |}.


(** ** Stores that nobody reads *)

(** An unbounded store in which no request waits. *)
Definition idle (st : simpy.Store) : Prop :=
  simpy.capacity st = None /\ simpy.put_queue st = [] /\ simpy.get_queue st = [].

(** Store [s], when idle in [env], is idle in [env'], and its items are
    related by [P]. *)
Definition store_kept (P : list pyval -> list pyval -> Prop) (s : nat)
    (env env' : simpy.Environment) : Prop :=
  forall st, simpy.stores env !! s = Some st -> idle st ->
    exists st', simpy.stores env' !! s = Some st' /\ idle st' /\
                P (simpy.items st) (simpy.items st').

(** No component reads from store [s], and no pipe broadcasts into it; when
    [written] is false the counter does not publish into it either. *)
Definition unread (written : bool) (s : nat) (w : TRNG.t) : Prop :=
  FF.i_clk_pipe (TRNG.beat_ff w) <> s /\
  Counter.i_clk_pipe (TRNG.counter w) <> s /\
  RandOut.i_clk_pipe (TRNG.rand_out w) <> s /\
  (forall bp p, TRNG.bpipes w !! bp = Some p -> s ∉ BroadcastPipe.pipes p) /\
  (written = false -> Counter.o_Q_pipe (TRNG.counter w) <> s).

(** From [w] to [w'] the composition is kept and, when nobody reads store
    [s], the store is kept. *)
Definition keeps_store (P : list pyval -> list pyval -> Prop) (written : bool) (s : nat)
    (w w' : TRNG.t) : Prop :=
  same_wiring w w' /\
  (unread written s w -> store_kept P s (TRNG.env w) (TRNG.env w')).

(** ** The running mean of the counter *)

(** The update of line 93: the mean [avg] of [n - 1] values, a value
    [count] more. *)
Definition mean_update (avg : float) (n count : Z) : float :=
  (avg + (float_of_int count - avg) / float_of_int n)%float.

(** The mean as the counter computes it, one value after the other from 0,
    with the number of the next value. *)
Definition running_mean (l : list Z) : float * Z :=
  foldl (fun '(avg, n) count => (mean_update avg n count, n + 1)) (0%float, 1) l.

(** * Properties *)

(** Unfolding of the monad operations, leaving engine calls folded. *)
Ltac mcbv :=
  cbv beta iota zeta delta [mbind M_bind mret M_ret gets modify raise now try_except].

(** Case analysis on the outcome of the engine calls of the goal. *)
Ltac lift_cases :=
  unfold lift;
  repeat match goal with
         | |- context [let (_, _) := ?m ?e in _] => destruct (m e) as [[?|?] ?]
         end.

Arguments lift : simpl never.

(** ** The monad *)

Lemma bind_run {S A B} (m : M S A) (f : A -> M S B) (s : S) :
  (m ≫= f) s = match m s with
               | (Return a, s') => f a s'
               | (Raise e, s') => (Raise e, s')
               end.
Proof. reflexivity. Qed.

Lemma bind_Return {S A B} (m : M S A) (f : A -> M S B) s a s' :
  m s = (Return a, s') -> (m ≫= f) s = f a s'.
Proof. intros H. rewrite bind_run, H. reflexivity. Qed.

Lemma bind_Raise {S A B} (m : M S A) (f : A -> M S B) s e s' :
  m s = (Raise e, s') -> (m ≫= f) s = (Raise e, s').
Proof. intros H. rewrite bind_run, H. reflexivity. Qed.

(** An engine operation changes the environment only. *)
Lemma lift_run {A} (m : simpy.E A) (w : TRNG.t) :
  lift m w = ((m (TRNG.env w)).1, TRNG.set_env (fun _ => (m (TRNG.env w)).2) w).
Proof. unfold lift. destruct (m (TRNG.env w)); reflexivity. Qed.

(** ** The sampler ([RandOut]) *)

Lemma RandOut_received_rand_out (i_clk : pyval) (w : TRNG.t) :
  TRNG.rand_out (RandOut_received i_clk w) =
  RandOut.set_old_i_clk i_clk
    (if truthy i_clk && negb (truthy (RandOut.old_i_clk (TRNG.rand_out w)))
     then RandOut.set_data
            (RandOut.data (TRNG.rand_out w)
               ++ [sampled w (state_of (RandOut.i_Q (TRNG.rand_out w)) w)])
            (TRNG.rand_out w)
     else TRNG.rand_out w).
Proof.
  unfold RandOut_received, RandOut_run, sampled. mcbv.
  destruct (truthy i_clk && negb (truthy (RandOut.old_i_clk (TRNG.rand_out w)))).
  - destruct (RandOut.verbose (TRNG.rand_out w));
      mcbv; lift_cases; reflexivity.
  - mcbv; lift_cases; reflexivity.
Qed.

(** C1, as amended.  On a rising edge of its clock input a sampler that
    monitors the counter appends the counter's [state] property read at that
    moment, which is the count modulo 2 (time-stamped in verbose mode, bare
    otherwise), not the full count. *)
Theorem RandOut_records_count_parity (w : TRNG.t) (i_clk : pyval) :
  rising_edge w i_clk ->
  RandOut.i_Q (TRNG.rand_out w) = ref_counter ->
  RandOut.data (TRNG.rand_out (RandOut_received i_clk w)) =
  RandOut.data (TRNG.rand_out w)
    ++ [sampled w (VInt (Counter.count (TRNG.counter w) mod 2))].
Proof.
  intros [Hclk Hold] HQ.
  rewrite RandOut_received_rand_out, Hclk, Hold, HQ. reflexivity.
Qed.

Lemma RandOut_records_count_parity_witness :
  rising_edge (example_after 139) (VBool true) /\
  RandOut.i_Q (TRNG.rand_out (example_after 139)) = ref_counter /\
  RandOut.data (TRNG.rand_out (RandOut_received (VBool true) (example_after 139))) =
  RandOut.data (TRNG.rand_out (example_after 139))
    ++ [sampled (example_after 139)
          (VInt (Counter.count (TRNG.counter (example_after 139)) mod 2))].
Proof.
  assert (H1 : rising_edge (example_after 139) (VBool true))
    by (split; vm_compute; reflexivity).
  assert (H2 : RandOut.i_Q (TRNG.rand_out (example_after 139)) = ref_counter)
    by (vm_compute; reflexivity).
  split; [exact H1 | split; [exact H2 |]].
  exact (RandOut_records_count_parity (example_after 139) (VBool true) H1 H2).
Defined.

(** After 139 steps of [example_TRNG] the count is 3 and the sampler is about
    to receive a rising edge; it records 1, not 3. *)
Lemma RandOut_full_count_counterexample :
  rising_edge (example_after 139) (VBool true) /\
  Counter.count (TRNG.counter (example_after 139)) = 3 /\
  ~ records_full_count (example_after 139) (VBool true).
Proof.
  split; [split; vm_compute; reflexivity |].
  split; [vm_compute; reflexivity |].
  unfold records_full_count. intros H. vm_compute in H. discriminate H.
Qed.

(** ** The engine: stores *)

Section engine.
Import simpy.

Lemma deref_Some {S A} (heap : S -> list A) (i : nat) (s : S) (a : A) :
  heap s !! i = Some a -> deref heap i s = (Return a, s).
Proof. intros H. unfold deref. rewrite H. reflexivity. Qed.

Lemma update_store_run (s : nat) (f : Store -> Store) (env : Environment) (st : Store) :
  stores env !! s = Some st ->
  update_store s f env = (Return tt, set_stores (alter f s) env).
Proof.
  intros H. unfold update_store.
  rewrite (bind_Return _ _ _ _ _ (deref_Some stores s env st H)). reflexivity.
Qed.

Lemma update_event_run (ev : nat) (f : Event -> Event) (env : Environment) (e : Event) :
  events env !! ev = Some e ->
  update_event ev f env = (Return tt, set_events (alter f ev) env).
Proof.
  intros H. unfold update_event.
  rewrite (bind_Return _ _ _ _ _ (deref_Some events ev env e H)). reflexivity.
Qed.

Lemma succeed_run (ev : nat) (v : pyval) (env : Environment) (e : Event) :
  events env !! ev = Some e -> value e = PENDING ->
  succeed ev v env = (Return tt, succeeded ev v env).
Proof.
  intros H Hp. unfold succeed.
  rewrite (bind_Return _ _ _ _ _ (deref_Some events ev env e H)).
  unfold triggered. rewrite Hp.
  rewrite (bind_Return _ _ _ _ _ (update_event_run ev _ env e H)). reflexivity.
Qed.

Lemma do_put_room (s ev : nat) (env : Environment) (st : Store) (e : Event) :
  stores env !! s = Some st -> events env !! ev = Some e -> value e = PENDING ->
  has_room st = true ->
  do_put s ev env =
  (Return tt,
   succeeded ev VNone (set_stores (alter (set_items (items st ++ [item e])) s) env)).
Proof.
  intros Hst Hev Hp Hroom. unfold do_put.
  rewrite (bind_Return _ _ _ _ _ (deref_Some stores s env st Hst)).
  rewrite (bind_Return _ _ _ _ _ (deref_Some events ev env e Hev)).
  rewrite Hroom.
  rewrite (bind_Return _ _ _ _ _ (update_store_run s _ env st Hst)).
  apply (succeed_run ev VNone _ e); assumption.
Qed.

Lemma do_put_full (s ev : nat) (env : Environment) (st : Store) (e : Event) :
  stores env !! s = Some st -> events env !! ev = Some e ->
  has_room st = false ->
  do_put s ev env = (Return tt, env).
Proof.
  intros Hst Hev Hroom. unfold do_put.
  rewrite (bind_Return _ _ _ _ _ (deref_Some stores s env st Hst)).
  rewrite (bind_Return _ _ _ _ _ (deref_Some events ev env e Hev)).
  rewrite Hroom. reflexivity.
Qed.

Lemma trigger_put_room (s h : nat) (rest : list nat) (env : Environment)
    (st : Store) (e : Event) :
  stores env !! s = Some st -> put_queue st = h :: rest ->
  events env !! h = Some e -> value e = PENDING -> has_room st = true ->
  trigger_put s env =
  (Return tt,
   set_stores (alter (set_put_queue rest) s)
     (succeeded h VNone (set_stores (alter (set_items (items st ++ [item e])) s) env))).
Proof.
  intros Hst Hq Hev Hp Hroom. unfold trigger_put.
  rewrite (bind_Return _ _ _ _ _ (deref_Some stores s env st Hst)). rewrite Hq.
  rewrite (bind_Return _ _ _ _ _ (do_put_room s h env st e Hst Hev Hp Hroom)).
  set (env3 := succeeded h VNone _).
  assert (He3 : events env3 !! h = Some (set_value (Succeeded VNone) e)).
  { subst env3. cbn. rewrite list_lookup_alter_eq, Hev. reflexivity. }
  rewrite (bind_Return _ _ _ _ _ (deref_Some events h env3 _ He3)).
  cbn [triggered set_value value].
  assert (Hs3 : stores env3 !! s = Some (set_items (items st ++ [item e]) st)).
  { subst env3. cbn. rewrite list_lookup_alter_eq, Hst. reflexivity. }
  apply (update_store_run s _ env3 _ Hs3).
Qed.

Lemma trigger_put_full (s h : nat) (rest : list nat) (env : Environment)
    (st : Store) (e : Event) :
  stores env !! s = Some st -> put_queue st = h :: rest ->
  events env !! h = Some e -> value e = PENDING -> has_room st = false ->
  trigger_put s env = (Return tt, env).
Proof.
  intros Hst Hq Hev Hp Hroom. unfold trigger_put.
  rewrite (bind_Return _ _ _ _ _ (deref_Some stores s env st Hst)). rewrite Hq.
  rewrite (bind_Return _ _ _ _ _ (do_put_full s h env st e Hst Hev Hroom)).
  rewrite (bind_Return _ _ _ _ _ (deref_Some events h env _ Hev)).
  unfold triggered. rewrite Hp. reflexivity.
Qed.

Lemma put_room (s : nat) (v : pyval) (env : Environment) (st : Store)
    (h : nat) (rest : list nat) (e : Event) :
  stores env !! s = Some st -> has_room st = true ->
  put_queue st ++ [length (events env)] = h :: rest ->
  (events env ++ [put_request s v]) !! h = Some e -> value e = PENDING ->
  put s v env =
  (Return (length (events env)),
   set_stores (alter (set_put_queue rest) s)
     (succeeded h VNone
        (set_stores (alter (set_items (items st ++ [item e])) s)
           (set_stores (alter (set_put_queue (h :: rest)) s)
              (set_events (fun l => l ++ [put_request s v]) env))))).
Proof.
  intros Hst Hroom Hq Hev Hp. unfold put.
  rewrite (bind_Return _ _ _ _ _ (deref_Some stores s env st Hst)).
  unfold new_event at 1. rewrite bind_run. cbv beta iota. fold (put_request s v).
  set (env1 := set_events _ env).
  assert (Hs1 : stores env1 !! s = Some st) by exact Hst.
  rewrite (bind_Return _ _ _ _ _ (update_store_run s _ env1 st Hs1)). rewrite Hq.
  set (env2 := set_stores _ env1).
  assert (Hs2 : stores env2 !! s = Some (set_put_queue (h :: rest) st)).
  { subst env2. cbn. rewrite list_lookup_alter_eq, Hst. reflexivity. }
  assert (He2 : events env2 !! h = Some e) by exact Hev.
  rewrite (bind_Return _ _ _ _ _
             (trigger_put_room s h rest env2 _ e Hs2 eq_refl He2 Hp Hroom)).
  reflexivity.
Qed.

Lemma put_full (s : nat) (v : pyval) (env : Environment) (st : Store)
    (h : nat) (rest : list nat) (e : Event) :
  stores env !! s = Some st -> has_room st = false ->
  put_queue st ++ [length (events env)] = h :: rest ->
  (events env ++ [put_request s v]) !! h = Some e -> value e = PENDING ->
  put s v env =
  (Return (length (events env)),
   set_stores (alter (set_put_queue (h :: rest)) s)
     (set_events (fun l => l ++ [put_request s v]) env)).
Proof.
  intros Hst Hroom Hq Hev Hp. unfold put.
  rewrite (bind_Return _ _ _ _ _ (deref_Some stores s env st Hst)).
  unfold new_event at 1. rewrite bind_run. cbv beta iota. fold (put_request s v).
  set (env1 := set_events _ env).
  assert (Hs1 : stores env1 !! s = Some st) by exact Hst.
  rewrite (bind_Return _ _ _ _ _ (update_store_run s _ env1 st Hs1)). rewrite Hq.
  set (env2 := set_stores _ env1).
  assert (Hs2 : stores env2 !! s = Some (set_put_queue (h :: rest) st)).
  { subst env2. cbn. rewrite list_lookup_alter_eq, Hst. reflexivity. }
  assert (He2 : events env2 !! h = Some e) by exact Hev.
  rewrite (bind_Return _ _ _ _ _
             (trigger_put_full s h rest env2 _ e Hs2 eq_refl He2 Hp Hroom)).
  reflexivity.
Qed.

Lemma queued_put_valid env s x : queued_put env s x -> (x < length (events env))%nat.
Proof. intros (e & cbs & H & _). eapply lookup_lt_Some, H. Qed.

Lemma omap_ext_in {A B} (f g : A -> option B) (l : list A) :
  (forall x, x ∈ l -> f x = g x) -> omap f l = omap g l.
Proof.
  induction l as [|a l IH]; intros H; [reflexivity |]. cbn.
  rewrite (H a) by (left). rewrite IH; [reflexivity |].
  intros x Hx. apply H. right. exact Hx.
Qed.

(** The contents of a store depend on its record and on the items of the
    requests in its put queue. *)
Lemma contents_kept (env env' : Environment) (s : nat) :
  stores env' !! s = stores env !! s ->
  (forall x e, events env !! x = Some e ->
               exists e', events env' !! x = Some e' /\ item e' = item e) ->
  put_ok env s ->
  contents env' s = contents env s.
Proof.
  intros Hs Hev (st & Hst & _ & Hall). unfold contents. rewrite Hs, Hst.
  f_equal. apply omap_ext_in. intros x Hx.
  rewrite Forall_forall in Hall. destruct (Hall x Hx) as (e & cbs & He & _).
  destruct (Hev x e He) as (e' & He' & Hi). rewrite He, He'. cbn. congruence.
Qed.

Lemma put_spec (s : nat) (v : pyval) (env : Environment) :
  put_ok env s ->
  exists env', put s v env = (Return (length (events env)), env') /\ put_post s v env env'.
Proof.
  intros (st & Hst & Hnd & Hall).
  set (ev := length (events env)).
  set (evs1 := events env ++ [put_request s v]).
  assert (F3 : forall x e, events env !! x = Some e -> evs1 !! x = Some e).
  { intros x e He. apply lookup_app_l_Some, He. }
  assert (Fnew : evs1 !! ev = Some (put_request s v)).
  { apply list_lookup_middle. reflexivity. }
  assert (F1 : Forall (fun x => exists e cbs, evs1 !! x = Some e /\ value e = PENDING /\
                                 callbacks e = Some (trigger_get_cb s :: cbs))
                 (put_queue st ++ [ev])).
  { apply Forall_app; split.
    - eapply Forall_impl; [exact Hall |].
      intros x (e & cbs & He & Hp & Hc). exists e, cbs. auto.
    - constructor; [| constructor]. exists (put_request s v), []. auto. }
  assert (F2 : NoDup (put_queue st ++ [ev])).
  { apply NoDup_app. split; [exact Hnd |]. split; [| apply NoDup_singleton].
    intros x Hx Hx'. apply list_elem_of_singleton in Hx'. subst x.
    rewrite Forall_forall in Hall. apply Hall, queued_put_valid in Hx.
    unfold ev in Hx. lia. }
  assert (F4 : omap (fun x => item <$> evs1 !! x) (put_queue st ++ [ev]) =
               omap (fun x => item <$> events env !! x) (put_queue st) ++ [v]).
  { rewrite omap_app. f_equal.
    - apply omap_ext_in. intros x Hx. rewrite Forall_forall in Hall.
      destruct (Hall x Hx) as (e & cbs & He & _). rewrite He, (F3 _ _ He). reflexivity.
    - cbn. rewrite Fnew. reflexivity. }
  destruct (put_queue st ++ [ev]) as [|h rest] eqn:Hq.
  { destruct (put_queue st); discriminate. }
  inversion F1 as [|? ? (e & cbs & He & Hp & Hc) F1']; subst.
  apply NoDup_cons in F2 as [Hh Hrest].
  assert (Hkeep : forall x, x <> h ->
            alter (set_value (Succeeded VNone)) h evs1 !! x = evs1 !! x).
  { intros x Hx. apply list_lookup_alter_ne. congruence. }
  assert (Hother : forall s' x, s' <> s -> queued_put env s' x -> x <> h).
  { intros s' x Hs' (e' & cbs' & He' & _ & Hc') ->.
    rewrite (F3 _ _ He') in He. congruence. }
  destruct (has_room st) eqn:Hroom.
  - eexists. split; [eapply put_room; eauto |].
    split; cbn.
    + reflexivity.
    + unfold contents. cbn. rewrite !list_lookup_alter_eq, Hst. cbn.
      fold evs1. rewrite <- !app_assoc. f_equal.
      rewrite <- F4. cbn. rewrite He. cbn. f_equal.
      apply omap_ext_in. intros x Hx. rewrite Hkeep; [reflexivity |].
      intros ->. contradiction.
    + intros st0 Hst0 _ Hq0. rewrite !list_lookup_alter_eq, Hst. cbn.
      assert (st0 = st) by congruence. subst st0.
      rewrite Hq0 in Hq. cbn in Hq. injection Hq as <- <-.
      fold ev in He. rewrite Fnew in He. injection He as <-.
      destruct st; cbn in *; subst; reflexivity.
    + intros s' Hs'. rewrite !list_lookup_alter_ne by congruence. reflexivity.
    + rewrite !length_alter. reflexivity.
    + intros x e0 He0. fold evs1. rewrite list_lookup_alter.
      destruct (decide (h = x)) as [-> | _]; rewrite (F3 _ _ He0); cbn; eauto.
    + fold evs1. rewrite length_alter. unfold evs1. rewrite length_app. cbn. lia.
    + intros s' (st' & Hst' & Hnd' & Hall'). destruct (decide (s' = s)) as [-> | Hne].
      * unfold put_ok. cbn.
        eexists. split; [rewrite !list_lookup_alter_eq, Hst; reflexivity |]. cbn.
        split; [exact Hrest |].
        rewrite Forall_forall in F1'. apply Forall_forall. intros x Hx.
        destruct (F1' x Hx) as (e' & cbs' & He' & Hp' & Hc').
        exists e', cbs'. cbn. fold evs1. rewrite Hkeep; [auto |].
        intros ->. contradiction.
      * exists st'. cbn.
        split; [rewrite !list_lookup_alter_ne by congruence; exact Hst' |].
        split; [exact Hnd' |].
        eapply Forall_impl; [exact Hall' |]. intros x Hx.
        pose proof (Hother s' x Hne Hx) as Hxh.
        destruct Hx as (e' & cbs' & He' & Hp' & Hc').
        exists e', cbs'. cbn. fold evs1. rewrite Hkeep by exact Hxh. auto.
  - eexists. split; [eapply put_full; eauto |].
    split; cbn.
    + reflexivity.
    + unfold contents. cbn. rewrite !list_lookup_alter_eq, Hst. cbn.
      fold evs1. rewrite <- !app_assoc. f_equal. exact F4.
    + intros st0 Hst0 Hroom0 _. congruence.
    + intros s' Hs'. rewrite !list_lookup_alter_ne by congruence. reflexivity.
    + rewrite !length_alter. reflexivity.
    + intros x e0 He0. fold evs1. rewrite (F3 _ _ He0). eauto.
    + rewrite length_app. cbn. lia.
    + intros s' (st' & Hst' & Hnd' & Hall'). destruct (decide (s' = s)) as [-> | Hne].
      * unfold put_ok. cbn.
        eexists. split; [rewrite !list_lookup_alter_eq, Hst; reflexivity |]. cbn.
        split; [apply NoDup_cons; auto |].
        constructor; [exists e, cbs; auto | exact F1'].
      * exists st'. cbn.
        split; [rewrite !list_lookup_alter_ne by congruence; exact Hst' |].
        split; [exact Hnd' |].
        eapply Forall_impl; [exact Hall' |].
        intros x (e' & cbs' & He' & Hp' & Hc'). exists e', cbs'. cbn. auto.
Qed.

Lemma ev_rel_refl e : ev_rel e e.
Proof. repeat split. eauto. Qed.

Lemma ev_rel_trans e1 e2 e3 : ev_rel e1 e2 -> ev_rel e2 e3 -> ev_rel e1 e3.
Proof.
  intros (Hi & Hv & Hc) (Hi' & Hv' & Hc'). repeat split; try congruence.
  intros c cbs H. destruct (Hc c cbs H) as (cbs' & H'). eauto.
Qed.

Lemma cond_rel_refl cond env : cond_rel cond env env.
Proof. repeat split. intros x e _ H. exists e. split; [exact H | apply ev_rel_refl]. Qed.

Lemma cond_rel_trans cond env1 env2 env3 :
  cond_rel cond env1 env2 -> cond_rel cond env2 env3 -> cond_rel cond env1 env3.
Proof.
  intros (Hn & Hs & Hl & He) (Hn' & Hs' & Hl' & He').
  repeat split; try congruence.
  intros x e Hx H. destruct (He x e Hx H) as (e2 & H2 & R2).
  destruct (He' x e2 Hx H2) as (e3 & H3 & R3).
  exists e3. split; [exact H3 | eapply ev_rel_trans; eauto].
Qed.

Lemma alter_cond_rel cond f env :
  cond_rel cond env (set_events (alter f cond) env).
Proof.
  repeat split; cbn.
  - apply length_alter.
  - intros x e Hx H. exists e. rewrite list_lookup_alter_ne by congruence.
    split; [exact H | apply ev_rel_refl].
Qed.

Lemma Condition_check_spec (cond : nat) (env : Environment) :
  (cond < length (events env))%nat ->
  exists env', Condition_check cond env = (Return tt, env') /\ cond_rel cond env env'.
Proof.
  intros Hc. destruct (lookup_lt_is_Some_2 _ _ Hc) as [c Hlook].
  unfold Condition_check.
  rewrite (bind_Return _ _ _ _ _ (deref_Some events cond env c Hlook)).
  destruct (triggered c) eqn:Htr.
  { eexists. split; [reflexivity | apply cond_rel_refl]. }
  rewrite (bind_Return _ _ _ _ _ (update_event_run cond _ env c Hlook)).
  case_bool_decide.
  - set (env1 := set_events _ env).
    assert (H1 : events env1 !! cond = Some (set_cond_count (S (cond_count c)) c)).
    { subst env1. cbn. rewrite list_lookup_alter_eq, Hlook. reflexivity. }
    assert (Hp : value (set_cond_count (S (cond_count c)) c) = PENDING).
    { cbn. unfold triggered in Htr. destruct (value c); [reflexivity | discriminate..]. }
    eexists. split; [apply (succeed_run cond VNone env1 _ H1 Hp) |].
    eapply cond_rel_trans; [apply alter_cond_rel |].
    unfold succeeded. repeat split; cbn.
    + rewrite !length_alter. reflexivity.
    + intros x e Hx Hxe. exists e. rewrite list_lookup_alter_ne by congruence.
      split; [exact Hxe | apply ev_rel_refl].
  - eexists. split; [reflexivity | apply alter_cond_rel].
Qed.

Lemma add_callback_spec (cond ev : nat) (cb : callback) (env : Environment) (e : Event)
    (cbs : list callback) :
  events env !! ev = Some e -> callbacks e = Some cbs ->
  exists env', add_callback ev cb env = (Return tt, env') /\ cond_rel cond env env'.
Proof.
  intros Hlook Hcb. unfold add_callback.
  rewrite (bind_Return _ _ _ _ _ (deref_Some events ev env e Hlook)). rewrite Hcb.
  eexists. split; [apply (update_event_run ev _ env e Hlook) |].
  repeat split; cbn.
  - apply length_alter.
  - intros x e0 _ H. rewrite list_lookup_alter.
    destruct (decide (ev = x)) as [-> | _].
    + rewrite H. cbn. eexists. split; [reflexivity |].
      assert (e0 = e) by congruence. subst e0.
      repeat split. cbn. intros c cbs0 Hc. rewrite Hcb in Hc. injection Hc as ->.
      eexists. reflexivity.
    + exists e0. split; [exact H | apply ev_rel_refl].
Qed.

Lemma all_of_register_spec (cond : nat) (evs : list nat) (env : Environment) :
  (cond < length (events env))%nat ->
  Forall (fun ev => ev < length (events env))%nat evs ->
  exists l env', mapM (all_of_register cond) evs env = (Return l, env') /\
                 cond_rel cond env env'.
Proof.
  revert env. induction evs as [|ev evs IH]; intros env Hc Hall.
  { exists [], env. split; [reflexivity | apply cond_rel_refl]. }
  inversion Hall as [|? ? Hev Hall']; subst.
  destruct (lookup_lt_is_Some_2 _ _ Hev) as [e Hlook].
  assert (exists env1, all_of_register cond ev env = (Return tt, env1) /\
                       cond_rel cond env env1) as (env1 & Hrun & Hrel).
  { unfold all_of_register.
    rewrite (bind_Return _ _ _ _ _ (deref_Some events ev env e Hlook)).
    destruct (callbacks e) as [cbs|] eqn:Hcb.
    - eapply add_callback_spec; eauto.
    - apply Condition_check_spec, Hc. }
  pose proof Hrel as (_ & _ & Hlen & _).
  destruct (IH env1) as (l & env2 & Hrun2 & Hrel2).
  { rewrite Hlen. exact Hc. }
  { rewrite Hlen. exact Hall'. }
  exists (tt :: l), env2. split; [| eapply cond_rel_trans; eauto].
  cbn. rewrite (bind_Return _ _ _ _ _ Hrun).
  rewrite (bind_Return _ _ _ _ _ Hrun2). reflexivity.
Qed.

Lemma all_of_spec (evs : list nat) (env : Environment) :
  evs <> [] ->
  Forall (fun ev => ev < length (events env))%nat evs ->
  exists env', all_of evs env = (Return (length (events env)), env') /\ env_kept env env'.
Proof.
  intros Hne Hall. unfold all_of, new_event at 1. rewrite bind_run. cbv beta iota.
  set (env1 := set_events _ env).
  destruct evs as [|ev0 evs0]; [contradiction |].
  destruct (all_of_register_spec (length (events env)) (ev0 :: evs0) env1)
    as (l & env2 & Hrun & Hn & Hs & Hl & He).
  { subst env1. cbn. rewrite length_app. cbn. lia. }
  { subst env1. cbn. rewrite length_app. cbn.
    eapply Forall_impl; [exact Hall |]. cbn. intros; lia. }
  exists env2. split.
  - rewrite (bind_Return _ _ _ _ _ Hrun). reflexivity.
  - split; [exact Hn |]. split; [exact Hs |].
    intros x e Hx. apply He.
    + apply lookup_lt_Some in Hx. lia.
    + subst env1. cbn. apply lookup_app_l_Some, Hx.
Qed.

Lemma env_kept_put_ok (env env' : Environment) (s : nat) :
  env_kept env env' -> put_ok env s -> put_ok env' s.
Proof.
  intros (_ & Hs & He) (st & Hst & Hnd & Hall).
  exists st. rewrite Hs. split; [exact Hst |]. split; [exact Hnd |].
  eapply Forall_impl; [exact Hall |].
  intros x (e & cbs & Hx & Hp & Hc).
  destruct (He x e Hx) as (e' & Hx' & _ & Hv & Hcb).
  destruct (Hcb _ _ Hc) as (cbs' & Hc').
  exists e', cbs'. split; [exact Hx' |]. split; [congruence | exact Hc'].
Qed.

Lemma env_kept_contents (env env' : Environment) (s : nat) :
  env_kept env env' -> put_ok env s -> contents env' s = contents env s.
Proof.
  intros (_ & Hs & He) Hok. apply contents_kept; [rewrite Hs; reflexivity | | exact Hok].
  intros x e Hx. destruct (He x e Hx) as (e' & Hx' & Hi & _). eauto.
Qed.

Lemma puts_spec (ss : list nat) (v : pyval) (env : Environment) :
  NoDup ss -> Forall (put_ok env) ss ->
  exists evs env',
    mapM (fun store => put store v) ss env = (Return evs, env') /\
    puts_post ss v env env' /\
    Forall (fun ev => ev < length (events env'))%nat evs /\
    length evs = length ss.
Proof.
  revert env. induction ss as [|s ss IH]; intros env Hnd Hall.
  { exists [], env. split; [reflexivity |]. split; [| split; [constructor | reflexivity]].
    split; try reflexivity; try tauto.
    - intros s Hs. inversion Hs.
    - intros s st Hs. inversion Hs.
    - intros x e H. eauto. }
  apply NoDup_cons in Hnd as [Hs Hnd].
  inversion Hall as [|? ? Hok Hall']; subst.
  destruct (put_spec s v env Hok) as (env1 & Hrun1 & P1).
  destruct (IH env1 Hnd) as (evs & env2 & Hrun2 & P2 & Hvalid & Hlen).
  { eapply Forall_impl; [exact Hall' |]. intros s'. apply (post_ok _ _ _ _ P1). }
  exists (length (events env) :: evs), env2. split.
  { cbn. rewrite (bind_Return _ _ _ _ _ Hrun1).
    rewrite (bind_Return _ _ _ _ _ Hrun2). reflexivity. }
  assert (Hkept1 : forall s', s' <> s -> put_ok env s' -> contents env1 s' = contents env s').
  { intros s' Hne Hok'. apply contents_kept; [apply (post_others _ _ _ _ P1), Hne | | exact Hok'].
    intros x e Hx. destruct (post_events _ _ _ _ P1 x e Hx) as (e' & ? & ? & _). eauto. }
  assert (Hkept2 : forall s', s' ∉ ss -> put_ok env1 s' -> contents env2 s' = contents env1 s').
  { intros s' Hne Hok'. apply contents_kept; [apply (puts_others _ _ _ _ P2), Hne | | exact Hok'].
    intros x e Hx. destruct (puts_events _ _ _ _ P2 x e Hx) as (e' & ? & ? & _). eauto. }
  split; [| split].
  - split.
    + rewrite (puts_now _ _ _ _ P2). apply (post_now _ _ _ _ P1).
    + intros s' Hs'. apply elem_of_cons in Hs' as [-> | Hin].
      * rewrite Hkept2; [apply (post_contents _ _ _ _ P1) | exact Hs |].
        apply (post_ok _ _ _ _ P1), Hok.
      * rewrite (puts_contents _ _ _ _ P2 s' Hin). f_equal.
        apply Hkept1; [intros ->; contradiction |].
        rewrite Forall_forall in Hall'. apply Hall', Hin.
    + intros s' st Hs' Hst Hroom Hq. apply elem_of_cons in Hs' as [-> | Hin].
      * rewrite (puts_others _ _ _ _ P2 s Hs).
        apply (post_delivered _ _ _ _ P1); assumption.
      * apply (puts_delivered _ _ _ _ P2 s' st Hin); [| assumption..].
        rewrite (post_others _ _ _ _ P1); [exact Hst |]. intros ->. contradiction.
    + intros s' Hs'. apply not_elem_of_cons in Hs' as [Hne Hnin].
      rewrite (puts_others _ _ _ _ P2 s' Hnin). apply (post_others _ _ _ _ P1), Hne.
    + rewrite (puts_length _ _ _ _ P2). apply (post_length _ _ _ _ P1).
    + intros x e Hx. destruct (post_events _ _ _ _ P1 x e Hx) as (e1 & H1 & Hi1 & Hc1).
      destruct (puts_events _ _ _ _ P2 x e1 H1) as (e2 & H2 & Hi2 & Hc2).
      exists e2. split; [exact H2 |]. split; congruence.
    + intros s' Hok'. apply (puts_ok _ _ _ _ P2), (post_ok _ _ _ _ P1), Hok'.
  - constructor; [| exact Hvalid].
    destruct (lookup_lt_is_Some_2 (events env1) (length (events env))) as [e1 He1].
    { rewrite (post_new_event _ _ _ _ P1). lia. }
    destruct (puts_events _ _ _ _ P2 _ _ He1) as (e2 & H2 & _).
    eapply lookup_lt_Some, H2.
  - cbn. rewrite Hlen. reflexivity.
Qed.

Lemma broadcast_spec (ss : list nat) (v : pyval) (env : Environment) :
  ss <> [] -> NoDup ss -> Forall (put_ok env) ss ->
  exists cond env',
    (evs ← mapM (fun store => put store v) ss; all_of evs) env = (Return cond, env') /\
    broadcast_post ss v env env'.
Proof.
  intros Hne Hnd Hall.
  destruct (puts_spec ss v env Hnd Hall) as (evs & env1 & Hrun1 & P1 & Hvalid & Hlen).
  destruct (all_of_spec evs env1) as (env2 & Hrun2 & K2); [| exact Hvalid |].
  { intros ->. destruct ss; [contradiction | discriminate]. }
  exists (length (events env1)), env2. split.
  { rewrite (bind_Return _ _ _ _ _ Hrun1). exact Hrun2. }
  pose proof K2 as (Hn2 & Hs2 & He2).
  split.
  - rewrite Hn2. apply (puts_now _ _ _ _ P1).
  - intros s Hs. rewrite (env_kept_contents env1 env2 s K2).
    + apply (puts_contents _ _ _ _ P1 s Hs).
    + apply (puts_ok _ _ _ _ P1). rewrite Forall_forall in Hall. apply Hall, Hs.
  - intros s st Hs Hst Hroom Hq. rewrite Hs2.
    apply (puts_delivered _ _ _ _ P1 s st Hs Hst Hroom Hq).
  - intros s Hs. rewrite Hs2. apply (puts_others _ _ _ _ P1 s Hs).
  - rewrite Hs2. apply (puts_length _ _ _ _ P1).
  - intros s Hok. apply (env_kept_put_ok env1 env2 s K2), (puts_ok _ _ _ _ P1), Hok.
Qed.

End engine.

(** ** [BroadcastPipe] *)

Lemma lift_Return {A} (m : simpy.E A) (w : TRNG.t) (a : A) (env' : simpy.Environment) :
  m (TRNG.env w) = (Return a, env') ->
  lift m w = (Return a, TRNG.set_env (fun _ => env') w).
Proof. intros H. unfold lift. rewrite H. reflexivity. Qed.

Lemma BroadcastPipe_put_spec (w : TRNG.t) (bp : nat) (p : BroadcastPipe.t) (v : pyval) :
  pipe_ok w bp p -> BroadcastPipe.pipes p <> [] ->
  exists cond env',
    BroadcastPipe_put bp v w = (Return cond, TRNG.set_env (fun _ => env') w) /\
    broadcast_post (BroadcastPipe.pipes p) v (TRNG.env w) env'.
Proof.
  intros (Hbp & Hnd & Hall) Hne.
  destruct (puts_spec _ v _ Hnd Hall) as (evs & env1 & Hrun1 & _ & Hvalid & Hlen).
  destruct (broadcast_spec _ v _ Hne Hnd Hall) as (cond & env2 & Hrun & Hpost).
  rewrite (bind_Return _ _ _ _ _ Hrun1) in Hrun.
  exists cond, env2. split; [| exact Hpost].
  unfold BroadcastPipe_put.
  rewrite (bind_Return _ _ _ _ _ (deref_Some TRNG.bpipes bp w p Hbp)).
  destruct (BroadcastPipe.pipes p) as [|s0 ss] eqn:Hp; [contradiction |].
  rewrite (bind_Return _ _ _ _ _ (lift_Return _ w _ _ Hrun1)).
  apply (lift_Return (simpy.all_of evs) (TRNG.set_env (fun _ => env1) w) cond env2 Hrun).
Qed.

Lemma BroadcastPipe_put_empty (w : TRNG.t) (bp : nat) (p : BroadcastPipe.t) (v : pyval) :
  TRNG.bpipes w !! bp = Some p -> BroadcastPipe.pipes p = [] ->
  BroadcastPipe_put bp v w = (Raise no_output_pipes, w).
Proof.
  intros Hbp Hp. unfold BroadcastPipe_put.
  rewrite (bind_Return _ _ _ _ _ (deref_Some TRNG.bpipes bp w p Hbp)), Hp. reflexivity.
Qed.

Lemma the_RO_set_RO (self : ro_ref) (f : RO.t -> RO.t) (w : TRNG.t) :
  the_RO self (set_RO self f w) = f (the_RO self w).
Proof. destruct self; reflexivity. Qed.

Lemma bpipes_set_RO (self : ro_ref) (f : RO.t -> RO.t) (w : TRNG.t) :
  TRNG.bpipes (set_RO self f w) = TRNG.bpipes w.
Proof. destruct self; reflexivity. Qed.

(** C6.  A [put] on a broadcast pipe with no registered consumer raises the
    "no output pipes" [RuntimeError] (the specification's [NoConsumersError])
    and changes nothing; its two callers, the oscillator and the latch, have
    no handler: the exception leaves their generators. *)
Theorem BroadcastPipe_put_without_consumers_raises
    (w : TRNG.t) (bp : nat) (p : BroadcastPipe.t) (v : pyval) :
  TRNG.bpipes w !! bp = Some p -> BroadcastPipe.pipes p = [] ->
  BroadcastPipe_put bp v w = (Raise no_output_pipes, w) /\
  (forall self sent, RO.out_pipe (the_RO self w) = Some bp ->
     (RO_run self RO_half_wait sent w).1 = Raise no_output_pipes) /\
  (forall sent, truthy sent = true -> FF.o_beat_pipe (TRNG.beat_ff w) = bp ->
     (FF_run FF_get sent w).1 = Raise no_output_pipes).
Proof.
  intros Hbp Hp. split; [apply (BroadcastPipe_put_empty w bp p v Hbp Hp) |]. split.
  - intros self sent Hout. unfold RO_run. mcbv.
    rewrite the_RO_set_RO. cbn [RO.out_pipe RO.set_state]. rewrite Hout.
    erewrite BroadcastPipe_put_empty; [reflexivity | | exact Hp].
    rewrite bpipes_set_RO. exact Hbp.
  - intros sent Hsent Hself. unfold FF_run. mcbv. rewrite Hsent. mcbv.
    destruct (FF.verbose _); mcbv; cbn [TRNG.beat_ff TRNG.set_beat_ff FF.o_beat_pipe FF.set_state
      FF.set_old_state FF.set_data]; rewrite Hself;
      (erewrite BroadcastPipe_put_empty; [reflexivity | exact Hbp | exact Hp]).
Qed.

(** ** Processes and the event loop *)

Lemma set_env_id (w : TRNG.t) : TRNG.set_env (fun _ => TRNG.env w) w = w.
Proof. destruct w; reflexivity. Qed.

Lemma lift_deref_events (w : TRNG.t) (ev : nat) (e : simpy.Event) :
  simpy.events (TRNG.env w) !! ev = Some e ->
  lift (deref simpy.events ev) w = (Return e, w).
Proof.
  intros H. rewrite (lift_Return _ w e (TRNG.env w)); [| apply deref_Some, H].
  rewrite set_env_id. reflexivity.
Qed.



(** ** The oscillator *)

Lemma timeout_run (delay : float) (env : simpy.Environment) :
  simpy.timeout delay env =
  if (delay <? 0)%float then (Raise (ValueError delay), env)
  else (Return (length (simpy.events env)), timeout_scheduled delay env).
Proof. unfold simpy.timeout. destruct (delay <? 0)%float; reflexivity. Qed.

Lemma RO_wait_run (self : ro_ref) (w : TRNG.t) :
  RO_wait self w =
  if (sampled_wait self w <? 0)%float
  then (Raise (ValueError (sampled_wait self w)), drawn w)
  else (Return (length (simpy.events (TRNG.env w))),
        TRNG.set_env (timeout_scheduled (sampled_wait self w)) (drawn w)).
Proof.
  unfold RO_wait, normalvariate, lift. mcbv.
  assert (Hr : the_RO self (TRNG.set_random_pos (S (TRNG.random_pos w)) w) = the_RO self w)
    by (destruct self; reflexivity).
  rewrite timeout_run. cbn [TRNG.env TRNG.set_random_pos].
  fold (sampled_wait self w).
  destruct (sampled_wait self w <? 0)%float.
  - unfold drawn. destruct w; reflexivity.
  - reflexivity.
Qed.

Lemma RO_run_offset_wait (self : ro_ref) (sent : pyval) (w : TRNG.t) :
  RO_run self RO_offset_wait sent w =
  match RO_wait self w with
  | (Return ev, w') => (Return (RO_half_wait, ev), w')
  | (Raise e, w') => (Raise e, w')
  end.
Proof. reflexivity. Qed.

Lemma RO_run_start_no_sink (self : ro_ref) (sent : pyval) (w : TRNG.t) :
  RO.out_pipe (the_RO self w) = None ->
  RO_run self RO_start sent w =
  match RO_wait self w with
  | (Return ev, w') => (Return (RO_half_wait, ev), w')
  | (Raise e, w') => (Raise e, w')
  end.
Proof. intros H. unfold RO_run. mcbv. rewrite H. reflexivity. Qed.

Lemma RO_run_start_sink (self : ro_ref) (sent : pyval) (w : TRNG.t) (bp : nat) :
  RO.out_pipe (the_RO self w) = Some bp ->
  RO_run self RO_start sent w =
  if (RO.period (the_RO self w) / 4 <? 0)%float
  then (Raise (ValueError (RO.period (the_RO self w) / 4)%float), w)
  else (Return (RO_offset_wait, length (simpy.events (TRNG.env w))),
        TRNG.set_env (timeout_scheduled (RO.period (the_RO self w) / 4)%float) w).
Proof.
  intros H. unfold RO_run. mcbv. rewrite H. unfold lift. rewrite timeout_run.
  destruct (RO.period (the_RO self w) / 4 <? 0)%float.
  - destruct w; reflexivity.
  - reflexivity.
Qed.

Lemma RO_run_half_wait_no_sink (self : ro_ref) (sent : pyval) (w : TRNG.t) :
  RO.out_pipe (the_RO self w) = None ->
  RO_run self RO_half_wait sent w =
  match RO_wait self (RO_logged self (toggled self w)) with
  | (Return ev, w') => (Return (RO_half_wait, ev), w')
  | (Raise e, w') => (Raise e, w')
  end.
Proof.
  intros H. unfold RO_run. mcbv. fold (toggled self w).
  assert (Ho : RO.out_pipe (the_RO self (toggled self w)) = None).
  { unfold toggled. rewrite the_RO_set_RO. exact H. }
  rewrite Ho. unfold RO_logged.
  destruct (RO.verbose (the_RO self (toggled self w))); reflexivity.
Qed.

Lemma RO_run_half_wait_sink (self : ro_ref) (sent : pyval) (w : TRNG.t) (bp cond : nat)
    (env' : simpy.Environment) :
  RO.out_pipe (the_RO self w) = Some bp ->
  BroadcastPipe_put bp (VBool (negb (RO.state (the_RO self w)))) (toggled self w) =
    (Return cond, TRNG.set_env (fun _ => env') (toggled self w)) ->
  RO_run self RO_half_wait sent w =
  match RO_wait self (RO_logged self (TRNG.set_env (fun _ => env') (toggled self w))) with
  | (Return ev, w') => (Return (RO_half_wait, ev), w')
  | (Raise e, w') => (Raise e, w')
  end.
Proof.
  intros H Hput. unfold RO_run. mcbv. fold (toggled self w).
  assert (Hr : the_RO self (toggled self w) = RO.set_state (negb (RO.state (the_RO self w))) (the_RO self w)).
  { unfold toggled. rewrite the_RO_set_RO. reflexivity. }
  rewrite Hr. cbn [RO.out_pipe RO.set_state RO.state RO.verbose]. rewrite H, Hput.
  unfold RO_logged.
  assert (Hr2 : the_RO self (TRNG.set_env (fun _ => env') (toggled self w)) = the_RO self (toggled self w))
    by (destruct self; reflexivity).
  rewrite Hr2, Hr. cbn [RO.verbose RO.set_state RO.state].
  destruct (RO.verbose (the_RO self w)); reflexivity.
Qed.






(** The run of [jittery_TRNG] ends with the exception of the first wait. *)
Example jittery_run_aborts :
  exists d w', run 1 10 jittery_TRNG = Some (Raise (ValueError d), w') /\
               (d <? 0)%float = true.
Proof. eexists. eexists. split; vm_compute; reflexivity. Qed.

Lemma BroadcastPipe_put_without_consumers_raises_witness :
  TRNG.bpipes fresh_pipe_state !! 0%nat = Some (BroadcastPipe.init None) /\
  BroadcastPipe.pipes (BroadcastPipe.init None) = [] /\
  BroadcastPipe_put 0 (VBool true) fresh_pipe_state = (Raise no_output_pipes, fresh_pipe_state).
Proof.
  assert (H1 : TRNG.bpipes fresh_pipe_state !! 0%nat = Some (BroadcastPipe.init None))
    by reflexivity.
  assert (H2 : BroadcastPipe.pipes (BroadcastPipe.init None) = []) by reflexivity.
  split; [exact H1 | split; [exact H2 |]].
  exact (proj1 (BroadcastPipe_put_without_consumers_raises
                  fresh_pipe_state 0 (BroadcastPipe.init None) (VBool true) H1 H2)).
Defined.

Example unwired_run_aborts :
  exists w', run 1 20 unwired_TRNG = Some (Raise no_output_pipes, w').
Proof. eexists. vm_compute. reflexivity. Qed.

(** A broadcast changes the environment only, whatever its outcome. *)
Lemma BroadcastPipe_put_frame (bp : nat) (v : pyval) (w : TRNG.t) :
  exists env', (BroadcastPipe_put bp v w).2 = TRNG.set_env (fun _ => env') w.
Proof.
  unfold BroadcastPipe_put, deref. mcbv.
  destruct (TRNG.bpipes w !! bp) as [p|].
  - destruct (BroadcastPipe.pipes p).
    + exists (TRNG.env w). symmetry. apply set_env_id.
    + lift_cases; eexists; reflexivity.
  - exists (TRNG.env w). symmetry. apply set_env_id.
Qed.

Lemma RO_wait_frame (self : ro_ref) (w : TRNG.t) :
  exists env', (RO_wait self w).2 = TRNG.set_env (fun _ => env') (drawn w).
Proof.
  rewrite RO_wait_run. destruct (sampled_wait self w <? 0)%float.
  - exists (TRNG.env (drawn w)). symmetry. apply set_env_id.
  - eexists. reflexivity.
Qed.

Lemma RO_run_half_wait_sink_raise (self : ro_ref) (sent : pyval) (w w1 : TRNG.t) (bp : nat)
    (e : exn) :
  RO.out_pipe (the_RO self w) = Some bp ->
  BroadcastPipe_put bp (VBool (negb (RO.state (the_RO self w)))) (toggled self w) = (Raise e, w1) ->
  RO_run self RO_half_wait sent w = (Raise e, w1).
Proof.
  intros H Hput. unfold RO_run. mcbv. fold (toggled self w).
  assert (Hr : the_RO self (toggled self w) =
               RO.set_state (negb (RO.state (the_RO self w))) (the_RO self w)).
  { unfold toggled. rewrite the_RO_set_RO. reflexivity. }
  rewrite Hr. cbn [RO.out_pipe RO.set_state RO.state RO.verbose]. rewrite H, Hput.
  reflexivity.
Qed.

Lemma the_RO_set_env (self : ro_ref) (f : simpy.Environment -> simpy.Environment) (w : TRNG.t) :
  the_RO self (TRNG.set_env f w) = the_RO self w.
Proof. destruct self; reflexivity. Qed.

Lemma the_RO_drawn (self : ro_ref) (w : TRNG.t) : the_RO self (drawn w) = the_RO self w.
Proof. destruct self; reflexivity. Qed.

Lemma state_RO_logged (self : ro_ref) (w : TRNG.t) :
  RO.state (the_RO self (RO_logged self w)) = RO.state (the_RO self w).
Proof.
  unfold RO_logged. destruct (RO.verbose (the_RO self w)); [| reflexivity].
  rewrite the_RO_set_RO. reflexivity.
Qed.

Lemma state_toggled (self : ro_ref) (w : TRNG.t) :
  RO.state (the_RO self (toggled self w)) = negb (RO.state (the_RO self w)).
Proof. unfold toggled. rewrite the_RO_set_RO. reflexivity. Qed.

Lemma state_after_wait (self : ro_ref) (w : TRNG.t) :
  RO.state (the_RO self (RO_wait self w).2) = RO.state (the_RO self w).
Proof.
  destruct (RO_wait_frame self w) as [env' ->].
  rewrite the_RO_set_env, the_RO_drawn. reflexivity.
Qed.

(** The oscillator toggles when its half-period wait is over. *)
Lemma RO_run_half_wait_toggles (self : ro_ref) (sent : pyval) (w : TRNG.t) :
  RO.state (the_RO self (RO_run self RO_half_wait sent w).2) = negb (RO.state (the_RO self w)).
Proof.
  destruct (RO.out_pipe (the_RO self w)) as [bp|] eqn:Hout.
  - destruct (BroadcastPipe_put_frame bp (VBool (negb (RO.state (the_RO self w)))) (toggled self w))
      as [env' He].
    destruct (BroadcastPipe_put bp _ (toggled self w)) as [[cond|e] w1] eqn:Hput;
      cbn in He; subst w1.
    + rewrite (RO_run_half_wait_sink self sent w bp cond env' Hout Hput).
      pose proof (state_after_wait self
                    (RO_logged self (TRNG.set_env (fun _ => env') (toggled self w)))) as Hs.
      destruct (RO_wait self _) as [[a|e] w2]; cbn in Hs |- *; rewrite Hs;
        rewrite state_RO_logged, the_RO_set_env; apply state_toggled.
    + rewrite (RO_run_half_wait_sink_raise self sent w _ bp e Hout Hput). cbn.
      rewrite the_RO_set_env. apply state_toggled.
  - rewrite (RO_run_half_wait_no_sink self sent w Hout).
    pose proof (state_after_wait self (RO_logged self (toggled self w))) as Hs.
    destruct (RO_wait self _) as [[a|e] w2]; cbn in Hs |- *; rewrite Hs;
      rewrite state_RO_logged; apply state_toggled.
Qed.

(** C10.  An oscillator with an output sink first waits a quarter of its
    period without toggling, and only then starts its first half-period
    wait; an oscillator without sink starts its first half-period wait at
    once.  The toggle comes at the end of a half-period wait, so the first
    toggle of an oscillator with a sink is a quarter period later. *)
Theorem RO_initial_offset (self : ro_ref) (w : TRNG.t) (sent : pyval) :
  (RO.period (the_RO self w) / 4 <? 0)%float = false ->
  (sampled_wait self w <? 0)%float = false ->
  (forall bp, RO.out_pipe (the_RO self w) = Some bp ->
     RO_run self RO_start sent w =
       (Return (RO_offset_wait, length (simpy.events (TRNG.env w))),
        TRNG.set_env (timeout_scheduled (RO.period (the_RO self w) / 4)%float) w)) /\
  RO_run self RO_offset_wait sent w =
    (Return (RO_half_wait, length (simpy.events (TRNG.env w))),
     TRNG.set_env (timeout_scheduled (sampled_wait self w)) (drawn w)) /\
  (RO.out_pipe (the_RO self w) = None ->
     RO_run self RO_start sent w =
       (Return (RO_half_wait, length (simpy.events (TRNG.env w))),
        TRNG.set_env (timeout_scheduled (sampled_wait self w)) (drawn w))) /\
  RO.state (the_RO self (RO_run self RO_half_wait sent w).2) = negb (RO.state (the_RO self w)).
Proof.
  intros Hq Hs. split; [| split; [| split]].
  - intros bp Hout. rewrite (RO_run_start_sink self sent w bp Hout), Hq. reflexivity.
  - rewrite RO_run_offset_wait, RO_wait_run, Hs. reflexivity.
  - intros Hout. rewrite (RO_run_start_no_sink self sent w Hout), RO_wait_run, Hs. reflexivity.
  - apply RO_run_half_wait_toggles.
Qed.

Lemma RO_initial_offset_witness :
  (RO.period (the_RO the_ro2 example_TRNG) / 4 <? 0)%float = false /\
  (sampled_wait the_ro2 example_TRNG <? 0)%float = false /\
  RO_run the_ro2 RO_start VNone example_TRNG =
    (Return (RO_offset_wait, length (simpy.events (TRNG.env example_TRNG))),
     TRNG.set_env (timeout_scheduled (RO.period (the_RO the_ro2 example_TRNG) / 4)%float)
       example_TRNG).
Proof.
  assert (H1 : (RO.period (the_RO the_ro2 example_TRNG) / 4 <? 0)%float = false)
    by (vm_compute; reflexivity).
  assert (H2 : (sampled_wait the_ro2 example_TRNG <? 0)%float = false)
    by (vm_compute; reflexivity).
  split; [exact H1 | split; [exact H2 |]].
  exact (proj1 (RO_initial_offset the_ro2 example_TRNG VNone H1 H2) 0%nat eq_refl).
Defined.

(** In the run of the example the oscillator without sink (period 2^-28)
    toggles first after half a period, the one with a sink (period
    2^-28 + 2^-30) after three quarters of its period. *)
Example first_toggles :
  RO.data (TRNG.ro1 (steps 12 example_verbose).2) !! 0%nat = Some (0x1p-29%float, false) /\
  RO.data (TRNG.ro2 (steps 12 example_verbose).2) !! 0%nat = Some (0x1.ep-29%float, false) /\
  ((0x1p-28 + 0x1p-30) / 4 + (0x1p-28 + 0x1p-30) / 2 = 0x1.ep-29)%float.
Proof. vm_compute. repeat split; reflexivity. Qed.

(** ** Fan-out *)

Lemma BroadcastPipe_puts_spec (vs : list pyval) (w : TRNG.t) (bp : nat) (p : BroadcastPipe.t) :
  pipe_ok w bp p -> BroadcastPipe.pipes p <> [] ->
  exists conds env',
    mapM (BroadcastPipe_put bp) vs w = (Return conds, TRNG.set_env (fun _ => env') w) /\
    (forall s, s ∈ BroadcastPipe.pipes p ->
       contents env' s = contents (TRNG.env w) s ++ vs) /\
    (forall s st, s ∈ BroadcastPipe.pipes p ->
       simpy.stores (TRNG.env w) !! s = Some st ->
       simpy.capacity st = None -> simpy.put_queue st = [] ->
       simpy.stores env' !! s = Some (simpy.set_items (simpy.items st ++ vs) st)) /\
    (forall s, s ∉ BroadcastPipe.pipes p ->
       simpy.stores env' !! s = simpy.stores (TRNG.env w) !! s) /\
    length (simpy.stores env') = length (simpy.stores (TRNG.env w)) /\
    (forall s, put_ok (TRNG.env w) s -> put_ok env' s).
Proof.
  revert w. induction vs as [|v vs IH]; intros w Hok Hne.
  { exists [], (TRNG.env w). rewrite set_env_id. split; [reflexivity |].
    split; [intros; rewrite app_nil_r; reflexivity |].
    split; [| auto].
    intros s st _ Hst _ _. rewrite app_nil_r, Hst. destruct st; reflexivity. }
  destruct (BroadcastPipe_put_spec w bp p v Hok Hne) as (cond & env1 & Hrun1 & P1).
  set (w1 := TRNG.set_env (fun _ => env1) w) in *.
  assert (Hok1 : pipe_ok w1 bp p).
  { destruct Hok as (Hbp & Hnd & Hall). split; [exact Hbp |]. split; [exact Hnd |].
    eapply Forall_impl; [exact Hall |]. intros s. apply (bc_ok _ _ _ _ P1). }
  destruct (IH w1 Hok1 Hne) as (conds & env2 & Hrun2 & Hc & Hd & Ho & Hl & Hk).
  exists (cond :: conds), env2. split.
  { cbn [mapM]. rewrite (bind_Return _ _ _ _ _ Hrun1).
    rewrite (bind_Return _ _ _ _ _ Hrun2). reflexivity. }
  split; [| split; [| split; [| split]]].
  - intros s Hs. rewrite (Hc s Hs). cbn. rewrite (bc_contents _ _ _ _ P1 s Hs).
    rewrite <- app_assoc. reflexivity.
  - intros s st Hs Hst Hcap Hq.
    assert (Hroom : simpy.has_room st = true) by (unfold simpy.has_room; rewrite Hcap; reflexivity).
    pose proof (bc_delivered _ _ _ _ P1 s st Hs Hst Hroom Hq) as H1.
    rewrite (Hd s _ Hs H1 Hcap Hq). cbn. rewrite <- app_assoc. reflexivity.
  - intros s Hs. rewrite (Ho s Hs). apply (bc_others _ _ _ _ P1 s Hs).
  - rewrite Hl. apply (bc_length _ _ _ _ P1).
  - intros s Hs. apply Hk, (bc_ok _ _ _ _ P1), Hs.
Qed.

Lemma BroadcastPipe_get_output_conn_run (w : TRNG.t) (bp : nat) (p : BroadcastPipe.t) :
  TRNG.bpipes w !! bp = Some p ->
  BroadcastPipe.capacity p <> Some 0%nat ->
  BroadcastPipe_get_output_conn bp w =
  (Return (length (simpy.stores (TRNG.env w))), registered bp (BroadcastPipe.capacity p) w).
Proof.
  intros Hbp Hcap. unfold BroadcastPipe_get_output_conn.
  rewrite (bind_Return _ _ _ _ _ (deref_Some TRNG.bpipes bp w p Hbp)).
  unfold lift, simpy.new_store. rewrite bind_run.
  destruct (BroadcastPipe.capacity p) as [[|c]|]; [contradiction | reflexivity..].
Qed.

Lemma put_ok_valid (env : simpy.Environment) (s : nat) :
  put_ok env s -> (s < length (simpy.stores env))%nat.
Proof. intros (st & Hst & _). eapply lookup_lt_Some, Hst. Qed.

(** C7.  On a pipe with at least one registered store (and a capacity that
    the engine accepts), a sequence of puts adds the values, once each and in
    put order, to what every registered store holds for its consumer (at
    once to its items when the store is unbounded), and to no other store; a
    store registered afterwards is empty and the earlier puts are not
    repeated for it. *)
Theorem BroadcastPipe_put_fan_out (w : TRNG.t) (bp : nat) (p : BroadcastPipe.t)
    (vs : list pyval) :
  pipe_ok w bp p -> BroadcastPipe.pipes p <> [] ->
  BroadcastPipe.capacity p <> Some 0%nat ->
  exists conds w',
    mapM (BroadcastPipe_put bp) vs w = (Return conds, w') /\
    (forall s, s ∈ BroadcastPipe.pipes p ->
       contents (TRNG.env w') s = contents (TRNG.env w) s ++ vs) /\
    (forall s st, s ∈ BroadcastPipe.pipes p ->
       simpy.stores (TRNG.env w) !! s = Some st ->
       simpy.capacity st = None -> simpy.put_queue st = [] ->
       simpy.stores (TRNG.env w') !! s = Some (simpy.set_items (simpy.items st ++ vs) st)) /\
    (forall s, s ∉ BroadcastPipe.pipes p ->
       simpy.stores (TRNG.env w') !! s = simpy.stores (TRNG.env w) !! s) /\
    exists new w'',
      BroadcastPipe_get_output_conn bp w' = (Return new, w'') /\
      (new ∉ BroadcastPipe.pipes p) /\
      TRNG.bpipes w'' !! bp =
        Some (BroadcastPipe.mk (BroadcastPipe.capacity p) (BroadcastPipe.pipes p ++ [new])) /\
      contents (TRNG.env w'') new = [] /\
      (forall s, s ∈ BroadcastPipe.pipes p ->
         contents (TRNG.env w'') s = contents (TRNG.env w') s).
Proof.
  intros Hok Hne Hcap.
  destruct (BroadcastPipe_puts_spec vs w bp p Hok Hne)
    as (conds & env' & Hrun & Hc & Hd & Ho & Hl & Hk).
  destruct Hok as (Hbp & Hnd & Hall).
  exists conds, (TRNG.set_env (fun _ => env') w).
  split; [exact Hrun |]. split; [exact Hc |]. split; [exact Hd |]. split; [exact Ho |].
  set (w' := TRNG.set_env (fun _ => env') w).
  exists (length (simpy.stores (TRNG.env w'))), (registered bp (BroadcastPipe.capacity p) w').
  split; [apply BroadcastPipe_get_output_conn_run; [exact Hbp | exact Hcap] |].
  assert (Hvalid : forall s, s ∈ BroadcastPipe.pipes p -> (s < length (simpy.stores env'))%nat).
  { intros s Hs. rewrite Hl. apply put_ok_valid.
    rewrite Forall_forall in Hall. apply Hall, Hs. }
  split; [| split; [| split]].
  - intros Hin. apply Hvalid in Hin. cbn in Hin. lia.
  - cbn. rewrite list_lookup_alter_eq, Hbp. reflexivity.
  - unfold contents. cbn. rewrite list_lookup_middle by reflexivity. reflexivity.
  - intros s Hs. unfold contents. cbn.
    rewrite lookup_app_l by (apply Hvalid, Hs). reflexivity.
Qed.

Lemma BroadcastPipe_put_fan_out_witness :
  pipe_ok example_TRNG 0 (BroadcastPipe.mk None [3; 4]%nat) /\
  BroadcastPipe.pipes (BroadcastPipe.mk None [3; 4]%nat) <> [] /\
  BroadcastPipe.capacity (BroadcastPipe.mk None [3; 4]%nat) <> Some 0%nat /\
  exists conds w',
    mapM (BroadcastPipe_put 0) [VBool false; VBool true] example_TRNG = (Return conds, w') /\
    (forall s, s ∈ [3; 4]%nat ->
       contents (TRNG.env w') s =
       contents (TRNG.env example_TRNG) s ++ [VBool false; VBool true]).
Proof.
  assert (H1 : pipe_ok example_TRNG 0 (BroadcastPipe.mk None [3; 4]%nat)).
  { split; [reflexivity |]. split; [apply (bool_decide_unpack _); reflexivity |].
    repeat constructor; (eexists; split; [reflexivity | split; constructor]). }
  assert (H2 : BroadcastPipe.pipes (BroadcastPipe.mk None [3; 4]%nat) <> []) by discriminate.
  assert (H3 : BroadcastPipe.capacity (BroadcastPipe.mk None [3; 4]%nat) <> Some 0%nat)
    by discriminate.
  split; [exact H1 | split; [exact H2 | split; [exact H3 |]]].
  destruct (BroadcastPipe_put_fan_out example_TRNG 0 _ [VBool false; VBool true] H1 H2 H3)
    as (conds & w' & Hrun & Hc & _).
  exists conds, w'. split; [exact Hrun | exact Hc].
Defined.

(** ** Frame properties *)

Section preserves.
Context {S : Type} (R : S -> S -> Prop) `{!Reflexive R, !Transitive R}.

Lemma preserves_bind {A B} (m : M S A) (f : A -> M S B) :
  preserves R m -> (forall a, preserves R (f a)) -> preserves R (m ≫= f).
Proof.
  intros Hm Hf s. rewrite bind_run. specialize (Hm s).
  destruct (m s) as [[a|e] s1]; cbn in Hm |- *; [| exact Hm].
  transitivity s1; [exact Hm | apply Hf].
Qed.

Lemma preserves_ret {A} (a : A) : preserves R (mret a).
Proof. intros s. reflexivity. Qed.

Lemma preserves_raise {A} (e : exn) : preserves R (raise (A:=A) e).
Proof. intros s. reflexivity. Qed.

Lemma preserves_deref {A} (heap : S -> list A) (i : nat) : preserves R (deref heap i).
Proof. intros s. unfold deref. destruct (heap s !! i); reflexivity. Qed.

Lemma preserves_modify (f : S -> S) : (forall s, R s (f s)) -> preserves R (modify f).
Proof. intros H s. apply H. Qed.

End preserves.

Section get_frame.
Import simpy.
Variable s : nat.

#[local] Instance store_frame_refl : Reflexive (store_frame s).
Proof. intros env. split; eauto. Qed.

#[local] Instance store_frame_trans : Transitive (store_frame s).
Proof.
  intros e1 e2 e3 [H1 H1'] [H2 H2']. split.
  - intros s' Hs'. rewrite (H2 s' Hs'). apply H1, Hs'.
  - intros x e Hx. destruct (H1' x e Hx) as (e' & Hx' & Hi).
    destruct (H2' x e' Hx') as (e'' & Hx'' & Hi'). exists e''. split; [auto | congruence].
Qed.

Lemma update_store_frame (f : Store -> Store) : preserves (store_frame s) (update_store s f).
Proof.
  apply preserves_bind; [apply _ | apply preserves_deref; apply _ |].
  intros _. apply preserves_modify. intros env. split; cbn; [| eauto].
  intros s' Hs'. apply list_lookup_alter_ne. congruence.
Qed.

Lemma update_event_frame (ev : nat) (f : Event -> Event) :
  (forall e, item (f e) = item e) -> preserves (store_frame s) (update_event ev f).
Proof.
  intros Hf. apply preserves_bind; [apply _ | apply preserves_deref; apply _ |].
  intros _. apply preserves_modify. intros env. split; cbn; [reflexivity |].
  intros x e Hx. rewrite list_lookup_alter.
  destruct (decide (ev = x)) as [-> | _]; rewrite Hx; cbn; eauto.
Qed.

Lemma schedule_frame (ev priority : nat) (delay : float) :
  preserves (store_frame s) (schedule ev priority delay).
Proof. apply preserves_modify. intros env. split; cbn; eauto. Qed.

Lemma new_event_frame (e : Event) : preserves (store_frame s) (new_event e).
Proof.
  intros env. split; cbn; [reflexivity |].
  intros x e0 Hx. exists e0. split; [apply lookup_app_l_Some, Hx | reflexivity].
Qed.

Lemma succeed_frame (ev : nat) (v : pyval) : preserves (store_frame s) (succeed ev v).
Proof.
  apply preserves_bind; [apply _ | apply preserves_deref; apply _ |].
  intros e. destruct (triggered e); [apply preserves_raise; apply _ |].
  apply preserves_bind; [apply _ | apply update_event_frame; reflexivity |].
  intros _. apply schedule_frame.
Qed.

Lemma get_frame : preserves (store_frame s) (get s).
Proof.
  unfold get, trigger_get, do_get.
  repeat first
    [ apply update_store_frame
    | apply new_event_frame
    | apply succeed_frame
    | apply preserves_deref; apply _
    | apply preserves_ret; apply _
    | apply preserves_bind; [apply _ | |]; intros
    | match goal with
      | |- preserves _ (match ?x with _ => _ end) => destruct x
      | |- preserves _ (if ?x then _ else _) => destruct x
      end ].
Qed.

End get_frame.

(** ** The latch ([FF]) *)

Lemma await_frame (store : nat) {pc : Type} (at_get : pc) (w : TRNG.t) :
  exists env', (await store at_get w).2 = TRNG.set_env (fun _ => env') w /\
               store_frame store (TRNG.env w) env'.
Proof.
  unfold await. rewrite lift_run. pose proof (get_frame store (TRNG.env w)) as H.
  destruct (simpy.get store (TRNG.env w)) as [[ev|e] env']; cbn in *; eauto.
Qed.

Lemma state_of_set_old_state (r : ref) (w : TRNG.t) (v : pyval) :
  state_of r (TRNG.set_beat_ff (FF.set_old_state v) w) = state_of r w.
Proof. destruct r; reflexivity. Qed.

Lemma FF_run_true (sent : pyval) (w : TRNG.t) :
  truthy sent = true ->
  FF_run FF_get sent w =
  match BroadcastPipe_put (FF.o_beat_pipe (TRNG.beat_ff w))
          (state_of (FF.i_data (TRNG.beat_ff w)) w) (FF_latched w) with
  | (Return _, w') => await (FF.i_clk_pipe (TRNG.beat_ff w)) FF_get w'
  | (Raise e, w') => (Raise e, w')
  end.
Proof.
  intros Hsent.
  destruct (BroadcastPipe_put_frame (FF.o_beat_pipe (TRNG.beat_ff w))
              (state_of (FF.i_data (TRNG.beat_ff w)) w) (FF_latched w)) as [env' He].
  unfold FF_run. mcbv. rewrite Hsent.
  destruct w as [env bpipes variates pos period delta j1 j2 a b c d e0 ro1 ro2 ff counter ro procs].
  destruct ff as [clk i_data o_beat st old data verbose].
  unfold FF_latched in *. cbn [TRNG.beat_ff TRNG.set_beat_ff TRNG.env FF.i_data FF.set_old_state
    FF.set_state FF.verbose FF.o_beat_pipe FF.state FF.data FF.set_data FF.i_clk_pipe
    FF.old_state] in *.
  assert (Hst : forall x, state_of i_data
            (TRNG.mk env bpipes variates pos period delta j1 j2 a b c d e0 ro1 ro2
               (FF.mk clk i_data o_beat st x data verbose) counter ro procs) =
          state_of i_data
            (TRNG.mk env bpipes variates pos period delta j1 j2 a b c d e0 ro1 ro2
               (FF.mk clk i_data o_beat st old data verbose) counter ro procs)).
  { intros x. destruct i_data; reflexivity. }
  rewrite ?(Hst st).
  destruct verbose; mcbv;
    cbn [TRNG.beat_ff TRNG.set_beat_ff TRNG.env FF.i_data FF.set_old_state
      FF.set_state FF.verbose FF.o_beat_pipe FF.state FF.data FF.set_data FF.i_clk_pipe
      FF.old_state simpy.now] in *;
    destruct (BroadcastPipe_put _ _ _) as [[cond|e] w3]; cbn in He; subst w3; reflexivity.
Qed.

Lemma FF_run_false (sent : pyval) (w : TRNG.t) :
  truthy sent = false ->
  FF_run FF_get sent w = await (FF.i_clk_pipe (TRNG.beat_ff w)) FF_get w.
Proof. intros Hsent. unfold FF_run. mcbv. rewrite Hsent. reflexivity. Qed.

(** C5.  On a true value the latch keeps its state in [old_state], takes
    the state its data source has at that moment and broadcasts it: every
    store registered on its output pipe receives it.  On a false value its
    attributes, the pipes and all stores but its own clock store (from which
    it asks for the next value) are unchanged. *)
Theorem FF_latches_on_true_only (w : TRNG.t) (sent : pyval) :
  let ff := TRNG.beat_ff w in
  let w' := (FF_run FF_get sent w).2 in
  (truthy sent = true ->
     FF.old_state (TRNG.beat_ff w') = FF.state ff /\
     FF.state (TRNG.beat_ff w') = state_of (FF.i_data ff) w /\
     (forall p, pipe_ok w (FF.o_beat_pipe ff) p -> BroadcastPipe.pipes p <> [] ->
        FF.i_clk_pipe ff ∉ BroadcastPipe.pipes p ->
        forall s, s ∈ BroadcastPipe.pipes p ->
          contents (TRNG.env w') s =
          contents (TRNG.env w) s ++ [state_of (FF.i_data ff) w])) /\
  (truthy sent = false ->
     TRNG.beat_ff w' = ff /\ TRNG.bpipes w' = TRNG.bpipes w /\
     forall s, s <> FF.i_clk_pipe ff ->
       simpy.stores (TRNG.env w') !! s = simpy.stores (TRNG.env w) !! s).
Proof.
  intros ff w'. split; intros Hsent; subst w'.
  - rewrite (FF_run_true sent w Hsent). fold ff.
    assert (Hfields : forall w3 : TRNG.t,
              (exists env1, w3 = TRNG.set_env (fun _ => env1) (FF_latched w)) ->
              forall o : outcome nat,
              TRNG.beat_ff (match o with
                            | Return _ => await (FF.i_clk_pipe ff) FF_get w3
                            | Raise e => (Raise e, w3)
                            end).2 = TRNG.beat_ff (FF_latched w)).
    { intros w3 [env1 ->] [c|e]; [| reflexivity].
      destruct (await_frame (FF.i_clk_pipe ff) FF_get
                  (TRNG.set_env (fun _ => env1) (FF_latched w))) as (env2 & -> & _).
      reflexivity. }
    split; [| split].
    + destruct (BroadcastPipe_put_frame (FF.o_beat_pipe ff) (state_of (FF.i_data ff) w)
                  (FF_latched w)) as [env1 He].
      destruct (BroadcastPipe_put _ _ _) as [o w3]. cbn in He.
      rewrite (Hfields w3 (ex_intro _ env1 He) o). reflexivity.
    + destruct (BroadcastPipe_put_frame (FF.o_beat_pipe ff) (state_of (FF.i_data ff) w)
                  (FF_latched w)) as [env1 He].
      destruct (BroadcastPipe_put _ _ _) as [o w3]. cbn in He.
      rewrite (Hfields w3 (ex_intro _ env1 He) o). reflexivity.
    + intros p Hok Hne Hclk s Hs.
      destruct (BroadcastPipe_put_spec (FF_latched w) (FF.o_beat_pipe ff) p
                  (state_of (FF.i_data ff) w) Hok Hne) as (cond & env1 & Hput & P1).
      rewrite Hput.
      destruct (await_frame (FF.i_clk_pipe ff) FF_get
                  (TRNG.set_env (fun _ => env1) (FF_latched w))) as (env2 & -> & Hst & Hev).
      cbn [TRNG.env TRNG.set_env].
      change (contents (TRNG.env w) s) with (contents (TRNG.env (FF_latched w)) s).
      rewrite <- (bc_contents _ _ _ _ P1 s Hs).
      apply contents_kept.
      * apply Hst. intros ->. contradiction.
      * exact Hev.
      * apply (bc_ok _ _ _ _ P1). destruct Hok as (_ & _ & Hall).
        rewrite Forall_forall in Hall. apply Hall, Hs.
  - rewrite (FF_run_false sent w Hsent). fold ff.
    destruct (await_frame (FF.i_clk_pipe ff) FF_get w) as (env' & -> & Hst & _).
    split; [reflexivity |]. split; [reflexivity |].
    intros s Hs. apply Hst, Hs.
Qed.

Lemma FF_latches_on_true_only_witness :
  truthy (VBool true) = true /\
  FF.old_state (TRNG.beat_ff (FF_run FF_get (VBool true) example_TRNG).2) =
    FF.state (TRNG.beat_ff example_TRNG) /\
  FF.state (TRNG.beat_ff (FF_run FF_get (VBool true) example_TRNG).2) =
    state_of (FF.i_data (TRNG.beat_ff example_TRNG)) example_TRNG.
Proof.
  assert (H : truthy (VBool true) = true) by reflexivity.
  split; [exact H |].
  destruct (proj1 (FF_latches_on_true_only example_TRNG (VBool true)) H) as (H1 & H2 & _).
  split; [exact H1 | exact H2].
Defined.

(** ** The counter *)

Lemma Counter_clocked_run (w : TRNG.t) :
  Counter_clocked w =
  match lift (simpy.put (Counter.o_Q_pipe (TRNG.counter w))
                (VInt (Counter.count (TRNG.counter w)))) (Counter_logged w) with
  | (Return _, w1) => (Return tt, Counter_counted w1)
  | (Raise e, w1) => (Raise e, w1)
  end.
Proof.
  unfold Counter_clocked. mcbv. unfold Counter_logged.
  destruct (Counter.verbose (TRNG.counter w)); mcbv.
  - rewrite !lift_run. cbn [fst snd].
    destruct (simpy.put _ _ _) as [[ev|e] env1]; cbn [fst snd]; [| reflexivity].
    unfold Counter_counted, Counter_branched, reset_event.
    cbn [TRNG.counter TRNG.set_env TRNG.set_counter Counter.i_rst Counter.old_state Counter.set_data].
    destruct (truthy _ && negb _); reflexivity.
  - rewrite !lift_run. cbn [fst snd].
    destruct (simpy.put _ _ _) as [[ev|e] env1]; cbn [fst snd]; [| reflexivity].
    unfold Counter_counted, Counter_branched, reset_event.
    cbn [TRNG.counter TRNG.set_env TRNG.set_counter Counter.i_rst Counter.old_state Counter.set_data].
    destruct (truthy _ && negb _); reflexivity.
Qed.

Lemma Counter_run_get_true (sent : pyval) (w : TRNG.t) :
  truthy sent = true ->
  Counter_run Counter_get sent w =
  (Return (Counter_settle, length (simpy.events (TRNG.env w))),
   TRNG.set_env (timeout_scheduled settle_delay) w).
Proof. intros Hsent. unfold Counter_run. rewrite Hsent. reflexivity. Qed.

Lemma Counter_run_get_false (sent : pyval) (w : TRNG.t) :
  truthy sent = false ->
  Counter_run Counter_get sent w = await (Counter.i_clk_pipe (TRNG.counter w)) Counter_get w.
Proof. intros Hsent. unfold Counter_run. rewrite Hsent. reflexivity. Qed.

Lemma Counter_run_settle (sent : pyval) (w : TRNG.t) :
  Counter_run Counter_settle sent w =
  match Counter_clocked w with
  | (Return _, w1) => await (Counter.i_clk_pipe (TRNG.counter w1)) Counter_get w1
  | (Raise e, w1) => (Raise e, w1)
  end.
Proof.
  unfold Counter_run. rewrite bind_run.
  destruct (Counter_clocked w) as [[[]|e] w1]; reflexivity.
Qed.

(** The state in which a settled iteration of the counter ends, when the
    output store accepts the count. *)
Lemma Counter_settled (sent : pyval) (w : TRNG.t) :
  put_ok (TRNG.env w) (Counter.o_Q_pipe (TRNG.counter w)) ->
  exists env1 env2,
    (Counter_run Counter_settle sent w).2 =
      TRNG.set_env (fun _ => env2)
        (Counter_counted (TRNG.set_env (fun _ => env1) (Counter_logged w))) /\
    put_post (Counter.o_Q_pipe (TRNG.counter w)) (VInt (Counter.count (TRNG.counter w)))
      (TRNG.env w) env1 /\
    store_frame (Counter.i_clk_pipe (TRNG.counter w)) env1 env2.
Proof.
  intros Hok.
  assert (Henv : TRNG.env (Counter_logged w) = TRNG.env w).
  { unfold Counter_logged. destruct (Counter.verbose _); reflexivity. }
  destruct (put_spec (Counter.o_Q_pipe (TRNG.counter w))
              (VInt (Counter.count (TRNG.counter w))) (TRNG.env w) Hok) as (env1 & Hput & P1).
  rewrite <- Henv in Hput.
  rewrite Counter_run_settle, Counter_clocked_run, (lift_Return _ _ _ _ Hput).
  set (w1 := Counter_counted _).
  destruct (await_frame (Counter.i_clk_pipe (TRNG.counter w1)) Counter_get w1)
    as (env2 & Hw & Hframe).
  exists env1, env2. split; [exact Hw |]. split; [exact P1 |].
  assert (Hclk : Counter.i_clk_pipe (TRNG.counter w1) = Counter.i_clk_pipe (TRNG.counter w)).
  { subst w1. unfold Counter_counted, Counter_branched, Counter_logged.
    destruct (reset_event _); destruct (Counter.verbose _); reflexivity. }
  assert (He1 : TRNG.env w1 = env1).
  { subst w1. unfold Counter_counted, Counter_branched.
    destruct (reset_event _); reflexivity. }
  rewrite <- Hclk, <- He1. exact Hframe.
Qed.

(** What a settled iteration leaves in the counter, read off the state
    [Counter_counted] is applied to. *)
Lemma Counter_counted_fields (w : TRNG.t) (env1 env2 : simpy.Environment) :
  let c := TRNG.counter w in
  let w' := TRNG.set_env (fun _ => env2)
              (Counter_counted (TRNG.set_env (fun _ => env1) (Counter_logged w))) in
  let c' := TRNG.counter w' in
  (reset_event w = true ->
     Counter.avg c' = (Counter.avg c + (float_of_int (Counter.count c) - Counter.avg c)
                                       / float_of_int (Counter.n c))%float /\
     Counter.n c' = Counter.n c + 1 /\
     Counter.count_max c' = Counter.count_max c ++ [Counter.count c] /\
     Counter.count c' = 0) /\
  (reset_event w = false ->
     Counter.count c' = Counter.count c + 1 /\
     Counter.avg c' = Counter.avg c /\
     Counter.n c' = Counter.n c /\
     Counter.count_max c' = Counter.count_max c) /\
  Counter.old_state c' = state_of (Counter.i_rst c) w' /\
  (Counter.i_rst c <> ref_counter ->
     state_of (Counter.i_rst c) w' = state_of (Counter.i_rst c) w) /\
  Counter.i_clk_pipe c' = Counter.i_clk_pipe c /\
  Counter.i_rst c' = Counter.i_rst c /\
  Counter.o_Q_pipe c' = Counter.o_Q_pipe c /\
  Counter.verbose c' = Counter.verbose c.
Proof.
  destruct w as [env bpipes variates pos period delta j1 j2 a b c0 d e0 ro1 ro2 ff counter ro procs].
  destruct counter as [clk rst q count data count_max avg n verbose old].
  unfold Counter_counted, Counter_branched, Counter_logged, reset_event.
  cbn [TRNG.counter TRNG.set_env TRNG.set_counter Counter.verbose Counter.i_rst Counter.old_state
       Counter.set_data Counter.count Counter.data TRNG.env].
  destruct verbose, rst;
    cbn [TRNG.counter TRNG.set_env TRNG.set_counter Counter.verbose Counter.i_rst
         Counter.old_state Counter.set_data Counter.count Counter.data TRNG.env state_of
         TRNG.ro1 TRNG.ro2 TRNG.beat_ff Counter.state];
    match goal with
    | |- context [if ?b then _ else _] => destruct b eqn:Hb
    end;
    cbn [TRNG.counter TRNG.set_env TRNG.set_counter Counter.verbose Counter.i_rst
         Counter.old_state Counter.set_data Counter.count Counter.data TRNG.env state_of
         TRNG.ro1 TRNG.ro2 TRNG.beat_ff Counter.state Counter.set_count Counter.set_old_state
         Counter.avg Counter.n Counter.count_max Counter.i_clk_pipe Counter.o_Q_pipe];
    repeat split; try reflexivity; try discriminate; try congruence;
    unfold Counter.state in *; cbn [Counter.count Counter.set_data] in *; congruence.
Qed.

(** C4.  A true clock message makes the counter wait the settling delay
    first; nothing else changes.  When it resumes, the count it had is put
    into its output store, then the reset gate is read: on a rising edge of
    the gate the running mean, [n], [count_max] and [count] are updated as
    for a reset, otherwise [count] grows by one. *)
Theorem Counter_counts_clock_edges (w w2 : TRNG.t) (sent sent2 : pyval) :
  truthy sent = true ->
  put_ok (TRNG.env w2) (Counter.o_Q_pipe (TRNG.counter w2)) ->
  Counter.o_Q_pipe (TRNG.counter w2) <> Counter.i_clk_pipe (TRNG.counter w2) ->
  Counter_run Counter_get sent w =
    (Return (Counter_settle, length (simpy.events (TRNG.env w))),
     TRNG.set_env (timeout_scheduled settle_delay) w) /\
  (0 <? settle_delay)%float = true /\
  let c := TRNG.counter w2 in
  let w' := (Counter_run Counter_settle sent2 w2).2 in
  let c' := TRNG.counter w' in
  contents (TRNG.env w') (Counter.o_Q_pipe c) =
    contents (TRNG.env w2) (Counter.o_Q_pipe c) ++ [VInt (Counter.count c)] /\
  (reset_event w2 = true ->
     Counter.avg c' = (Counter.avg c + (float_of_int (Counter.count c) - Counter.avg c)
                                       / float_of_int (Counter.n c))%float /\
     Counter.n c' = Counter.n c + 1 /\
     Counter.count_max c' = Counter.count_max c ++ [Counter.count c] /\
     Counter.count c' = 0) /\
  (reset_event w2 = false ->
     Counter.count c' = Counter.count c + 1 /\
     Counter.avg c' = Counter.avg c /\
     Counter.n c' = Counter.n c /\
     Counter.count_max c' = Counter.count_max c).
Proof.
  intros Hsent Hok Hne.
  split; [apply Counter_run_get_true, Hsent |]. split; [reflexivity |].
  intros c w' c'. subst c w' c'.
  destruct (Counter_settled sent2 w2 Hok) as (env1 & env2 & -> & P1 & Hst & Hev).
  destruct (Counter_counted_fields w2 env1 env2) as (Hreset & Hcount & _).
  split; [| split; [exact Hreset | exact Hcount]].
  cbn [TRNG.env TRNG.set_env].
  rewrite <- (post_contents _ _ _ _ P1).
  apply contents_kept.
  - apply Hst. exact Hne.
  - exact Hev.
  - apply (post_ok _ _ _ _ P1), Hok.
Qed.

(** C8, as amended.  An iteration for a true clock value ends, whichever
    branch it took, with [old_state] equal to the state the reset gate has
    at that moment (for a gate other than the counter itself, the state it
    had when the counter resumed).  An iteration for a false clock value
    leaves the counter, and so [old_state], as it was. *)
Theorem Counter_old_state_after_iteration (w : TRNG.t) (sent : pyval) :
  (put_ok (TRNG.env w) (Counter.o_Q_pipe (TRNG.counter w)) ->
   let w' := (Counter_run Counter_settle sent w).2 in
   Counter.old_state (TRNG.counter w') = state_of (Counter.i_rst (TRNG.counter w)) w' /\
   (Counter.i_rst (TRNG.counter w) <> ref_counter ->
    Counter.old_state (TRNG.counter w') = state_of (Counter.i_rst (TRNG.counter w)) w)) /\
  (truthy sent = false ->
   TRNG.counter (Counter_run Counter_get sent w).2 = TRNG.counter w).
Proof.
  split.
  - intros Hok w'. subst w'.
    destruct (Counter_settled sent w Hok) as (env1 & env2 & -> & _).
    destruct (Counter_counted_fields w env1 env2) as (_ & _ & Hold & Hgate & _).
    split; [exact Hold |]. intros Hr. rewrite Hold. apply Hgate, Hr.
  - intros Hsent. rewrite (Counter_run_get_false sent w Hsent).
    destruct (await_frame (Counter.i_clk_pipe (TRNG.counter w)) Counter_get w) as (env' & -> & _).
    reflexivity.
Qed.

Lemma Counter_counts_clock_edges_witness :
  truthy (VBool true) = true /\
  put_ok (TRNG.env (example_after 63)) (Counter.o_Q_pipe (TRNG.counter (example_after 63))) /\
  Counter.o_Q_pipe (TRNG.counter (example_after 63))
    <> Counter.i_clk_pipe (TRNG.counter (example_after 63)) /\
  reset_event (example_after 63) = true /\
  Counter.count_max (TRNG.counter (Counter_run Counter_settle VNone (example_after 63)).2) =
    Counter.count_max (TRNG.counter (example_after 63))
      ++ [Counter.count (TRNG.counter (example_after 63))] /\
  Counter.count (TRNG.counter (Counter_run Counter_settle VNone (example_after 63)).2) = 0.
Proof.
  assert (H1 : truthy (VBool true) = true) by reflexivity.
  assert (H2 : put_ok (TRNG.env (example_after 63))
                 (Counter.o_Q_pipe (TRNG.counter (example_after 63)))).
  { eexists. split; [vm_compute; reflexivity |]. split; constructor. }
  assert (H3 : Counter.o_Q_pipe (TRNG.counter (example_after 63))
               <> Counter.i_clk_pipe (TRNG.counter (example_after 63)))
    by (vm_compute; discriminate).
  assert (H4 : reset_event (example_after 63) = true) by (vm_compute; reflexivity).
  split; [exact H1 | split; [exact H2 | split; [exact H3 | split; [exact H4 |]]]].
  destruct (Counter_counts_clock_edges (example_after 58) (example_after 63)
              (VBool true) VNone H1 H2 H3) as (_ & _ & _ & Hreset & _).
  destruct (Hreset H4) as (_ & _ & Hmax & Hcount).
  split; [exact Hmax | exact Hcount].
Defined.

(** After 31 steps of [gated_TRNG] the counter is about to receive a false
    clock value while its gate is high and [old_state] is false: the
    iteration leaves [old_state] false. *)
Lemma Counter_old_state_false_message_counterexample :
  gen (TRNG.procs (steps 31 gated_TRNG).2 simpy.counter_proc) = Some (Counter_gen Counter_get) /\
  truthy (VBool false) = false /\
  state_of (Counter.i_rst (TRNG.counter (steps 31 gated_TRNG).2)) (steps 31 gated_TRNG).2
    = VBool true /\
  ~ old_state_tracks_gate (VBool false) (steps 31 gated_TRNG).2.
Proof.
  split; [vm_compute; reflexivity |]. split; [reflexivity |].
  split; [vm_compute; reflexivity |].
  unfold old_state_tracks_gate. intros H. vm_compute in H. discriminate H.
Qed.

Lemma Counter_old_state_after_iteration_witness :
  put_ok (TRNG.env (example_after 63)) (Counter.o_Q_pipe (TRNG.counter (example_after 63))) /\
  Counter.old_state (TRNG.counter (Counter_run Counter_settle VNone (example_after 63)).2) =
    state_of (Counter.i_rst (TRNG.counter (example_after 63)))
      (Counter_run Counter_settle VNone (example_after 63)).2.
Proof.
  assert (H2 : put_ok (TRNG.env (example_after 63))
                 (Counter.o_Q_pipe (TRNG.counter (example_after 63)))).
  { eexists. split; [vm_compute; reflexivity |]. split; constructor. }
  split; [exact H2 |].
  exact (proj1 (proj1 (Counter_old_state_after_iteration (example_after 63) VNone) H2)).
Defined.

(** ** Histories of the counter *)

Lemma since_reset_snoc (tr : history) (m : pyval * bool) :
  since_reset (tr ++ [m]) = if m.2 then [] else since_reset tr ++ [m].
Proof. unfold since_reset. rewrite foldl_app. reflexivity. Qed.

Lemma true_messages_app (tr1 tr2 : history) :
  true_messages (tr1 ++ tr2) = true_messages tr1 + true_messages tr2.
Proof. induction tr1 as [|m tr1 IH]; cbn; [reflexivity | rewrite IH; lia]. Qed.

Lemma Counter_get_keeps_counter (sent : pyval) (w : TRNG.t) :
  TRNG.counter (Counter_run Counter_get sent w).2 = TRNG.counter w.
Proof.
  destruct (truthy sent) eqn:Hsent.
  - rewrite (Counter_run_get_true sent w Hsent). reflexivity.
  - rewrite (Counter_run_get_false sent w Hsent).
    destruct (await_frame (Counter.i_clk_pipe (TRNG.counter w)) Counter_get w) as (env' & -> & _).
    reflexivity.
Qed.

(** The count is the number of true messages handled since the last reset
    event. *)
Lemma counted_count (tr : history) (c : Counter.t) :
  counted tr c -> Counter.count c = true_messages (since_reset tr).
Proof.
  induction 1 as [| tr c sent w Hc IH Hsent Hw | tr c sent w w2 Hc IH Hsent Hw Hw2 Hok].
  - reflexivity.
  - rewrite Counter_get_keeps_counter, Hw, IH, since_reset_snoc. cbn [snd].
    rewrite true_messages_app. cbn. rewrite Hsent. lia.
  - rewrite Counter_get_keeps_counter, Hw in Hw2.
    destruct (Counter_settled VNone w2 Hok) as (env1 & env2 & -> & _).
    destruct (Counter_counted_fields w2 env1 env2) as (Hreset & Hcount & _).
    rewrite since_reset_snoc. cbn [snd].
    destruct (reset_event w2).
    + destruct (Hreset eq_refl) as (_ & _ & _ & ->). reflexivity.
    + destruct (Hcount eq_refl) as (-> & _). rewrite Hw2, IH, true_messages_app.
      cbn. rewrite Hsent. lia.
Qed.

(** C3, as amended.  At a reset event the value appended to [count_max] is
    the number of true-valued clock messages handled after the previous
    reset event (or after the start) and before the message that triggers
    this reset: that message is not counted, so the value is one less than
    the number of true messages received since the previous reset. *)
Theorem count_at_reset_counts_earlier_messages
    (tr : history) (c : Counter.t) (sent : pyval) (w w2 : TRNG.t) :
  counted tr c ->
  truthy sent = true ->
  TRNG.counter w = c ->
  TRNG.counter w2 = TRNG.counter (Counter_run Counter_get sent w).2 ->
  put_ok (TRNG.env w2) (Counter.o_Q_pipe (TRNG.counter w2)) ->
  reset_event w2 = true ->
  Counter.count_max (TRNG.counter (Counter_run Counter_settle VNone w2).2) =
    Counter.count_max c ++ [true_messages (since_reset tr)] /\
  true_messages (since_reset tr ++ [(sent, true)]) = true_messages (since_reset tr) + 1.
Proof.
  intros Hc Hsent Hw Hw2 Hok Hreset. split.
  - rewrite Counter_get_keeps_counter, Hw in Hw2.
    destruct (Counter_settled VNone w2 Hok) as (env1 & env2 & -> & _).
    destruct (Counter_counted_fields w2 env1 env2) as (Hr & _).
    destruct (Hr Hreset) as (_ & _ & -> & _).
    rewrite Hw2, (counted_count tr c Hc). reflexivity.
  - rewrite true_messages_app. cbn. rewrite Hsent. lia.
Qed.

Lemma counted_false_eq (tr tr' : history) (c c' : Counter.t) (sent : pyval) (w : TRNG.t) :
  counted tr c -> truthy sent = false -> TRNG.counter w = c ->
  tr' = tr ++ [(sent, false)] ->
  c' = TRNG.counter (Counter_run Counter_get sent w).2 ->
  counted tr' c'.
Proof. intros Hc Hs Hw -> ->. apply (counted_false tr c sent w); assumption. Qed.

Lemma counted_true_eq (tr tr' : history) (c c' : Counter.t) (sent : pyval) (w w2 : TRNG.t) :
  counted tr c -> truthy sent = true -> TRNG.counter w = c ->
  TRNG.counter w2 = TRNG.counter (Counter_run Counter_get sent w).2 ->
  put_ok (TRNG.env w2) (Counter.o_Q_pipe (TRNG.counter w2)) ->
  tr' = tr ++ [(sent, reset_event w2)] ->
  c' = TRNG.counter (Counter_run Counter_settle VNone w2).2 ->
  counted tr' c'.
Proof. intros Hc Hs Hw Hw2 Hok -> ->. apply (counted_true tr c sent w w2); assumption. Qed.

(** In the run of [example_TRNG] the counter receives its messages in the
    states reached after 11, 19, 31, 38, 50 and 58 steps, and resumes after
    the settling delay in the states reached after 24, 43 and 63 steps. *)
Lemma example_history_counted :
  counted example_history (TRNG.counter (example_after 58)).
Proof.
  assert (Hput : forall k, (k = 24 \/ k = 43)%nat ->
            put_ok (TRNG.env (example_after k))
                   (Counter.o_Q_pipe (TRNG.counter (example_after k)))).
  { intros k [-> | ->]; (eexists; split; [vm_compute; reflexivity |]; split; constructor). }
  pose proof (counted_start 4 ref_beat_ff 1 false) as H0.
  assert (H1 : counted [(VBool false, false)] (TRNG.counter (example_after 19))).
  { apply (counted_false_eq _ _ _ _ (VBool false) (example_after 11) H0);
      vm_compute; reflexivity. }
  assert (H2 : counted [(VBool false, false); (VBool true, false)]
                 (TRNG.counter (example_after 31))).
  { apply (counted_true_eq _ _ _ _ (VBool true) (example_after 19) (example_after 24) H1);
      try (apply Hput; auto; fail); vm_compute; reflexivity. }
  assert (H3 : counted [(VBool false, false); (VBool true, false); (VBool false, false)]
                 (TRNG.counter (example_after 38))).
  { apply (counted_false_eq _ _ _ _ (VBool false) (example_after 31) H2);
      vm_compute; reflexivity. }
  assert (H4 : counted [(VBool false, false); (VBool true, false); (VBool false, false);
                        (VBool true, false)]
                 (TRNG.counter (example_after 50))).
  { apply (counted_true_eq _ _ _ _ (VBool true) (example_after 38) (example_after 43) H3);
      try (apply Hput; auto; fail); vm_compute; reflexivity. }
  apply (counted_false_eq _ _ _ _ (VBool false) (example_after 50) H4);
    vm_compute; reflexivity.
Qed.

(** At the first reset event of that run three true messages have been
    received, the third one triggering the reset, and 2 is appended. *)
Lemma count_at_reset_counterexample :
  counted example_history (TRNG.counter (example_after 58)) /\
  truthy (VBool true) = true /\
  TRNG.counter (example_after 63) =
    TRNG.counter (Counter_run Counter_get (VBool true) (example_after 58)).2 /\
  reset_event (example_after 63) = true /\
  Counter.count_max (TRNG.counter (Counter_run Counter_settle VNone (example_after 63)).2) = [2] /\
  true_messages (since_reset example_history ++ [(VBool true, true)]) = 3 /\
  ~ appends_received_count example_history (VBool true)
      (TRNG.counter (example_after 58))
      (TRNG.counter (Counter_run Counter_settle VNone (example_after 63)).2).
Proof.
  split; [exact example_history_counted |].
  split; [reflexivity |].
  split; [vm_compute; reflexivity |].
  split; [vm_compute; reflexivity |].
  split; [vm_compute; reflexivity |].
  split; [reflexivity |].
  unfold appends_received_count. intros H. vm_compute in H. discriminate H.
Qed.

Lemma count_at_reset_counts_earlier_messages_witness :
  counted example_history (TRNG.counter (example_after 58)) /\
  truthy (VBool true) = true /\
  TRNG.counter (example_after 63) =
    TRNG.counter (Counter_run Counter_get (VBool true) (example_after 58)).2 /\
  put_ok (TRNG.env (example_after 63)) (Counter.o_Q_pipe (TRNG.counter (example_after 63))) /\
  reset_event (example_after 63) = true /\
  Counter.count_max (TRNG.counter (Counter_run Counter_settle VNone (example_after 63)).2) =
    Counter.count_max (TRNG.counter (example_after 58))
      ++ [true_messages (since_reset example_history)].
Proof.
  pose proof example_history_counted as H1.
  assert (H2 : truthy (VBool true) = true) by reflexivity.
  assert (H3 : TRNG.counter (example_after 63) =
               TRNG.counter (Counter_run Counter_get (VBool true) (example_after 58)).2)
    by (vm_compute; reflexivity).
  assert (H4 : put_ok (TRNG.env (example_after 63))
                 (Counter.o_Q_pipe (TRNG.counter (example_after 63)))).
  { eexists. split; [vm_compute; reflexivity |]. split; constructor. }
  assert (H5 : reset_event (example_after 63) = true) by (vm_compute; reflexivity).
  split; [exact H1 | split; [exact H2 | split; [exact H3 | split; [exact H4 | split; [exact H5 |]]]]].
  exact (proj1 (count_at_reset_counts_earlier_messages example_history _ (VBool true)
                  (example_after 58) (example_after 63) H1 H2 eq_refl H3 H4 H5)).
Defined.

(** ** The jitter statistic *)



(** * Further properties *)

Section run_frame.
Variable R : TRNG.t -> TRNG.t -> Prop.
Context `{!Reflexive R, !Transitive R}.
Hypothesis R_env : forall f w, R w (TRNG.set_env f w).
Hypothesis R_proc : forall p pr w, R w (TRNG.set_proc p pr w).
Hypothesis R_drawn : forall w, R w (drawn w).
Hypothesis R_toggled : forall self w, R w (toggled self w).
Hypothesis R_RO_logged : forall self w, R w (RO_logged self w).
Hypothesis R_FF_latched : forall w, R w (FF_latched w).
Hypothesis R_Counter_logged : forall w, R w (Counter_logged w).
Hypothesis R_Counter_counted : forall w, R w (Counter_counted w).
Hypothesis R_RandOut_received : forall v w, R w (RandOut_received v w).

Lemma preserves_lift {A} (m : simpy.E A) : preserves R (lift m).
Proof. intros w. rewrite lift_run. apply R_env. Qed.

Lemma preserves_gets {A} (f : TRNG.t -> A) : preserves R (gets f).
Proof. intros w. reflexivity. Qed.

Lemma preserves_try_except {A B} (m : W A) (ok : A -> W B) (handler : exn -> W B) :
  preserves R m -> (forall a, preserves R (ok a)) -> (forall e, preserves R (handler e)) ->
  preserves R (try_except m ok handler).
Proof.
  intros Hm Hok Hh w. unfold try_except. specialize (Hm w).
  destruct (m w) as [[a|e] w1]; cbn in Hm.
  - transitivity w1; [exact Hm | apply Hok].
  - transitivity w1; [exact Hm | apply Hh].
Qed.

Lemma preserves_mapM {A B} (f : A -> W B) (l : list A) :
  (forall a, preserves R (f a)) -> preserves R (mapM f l).
Proof.
  intros Hf. induction l as [|a l IH]; cbn [mapM].
  - apply preserves_ret; apply _.
  - apply preserves_bind; [apply _ | apply Hf |]. intros b.
    apply preserves_bind; [apply _ | apply IH |]. intros bs. apply preserves_ret; apply _.
Qed.

Lemma preserves_outcome {A B} (m : W A) (f : A -> B) :
  preserves R m ->
  preserves R (fun w => match m w with
                        | (Return a, w') => (Return (f a), w')
                        | (Raise e, w') => (Raise e, w')
                        end).
Proof. intros Hm w. specialize (Hm w). destruct (m w) as [[a|e] w1]; exact Hm. Qed.

Lemma BroadcastPipe_put_preserves (bp : nat) (v : pyval) : preserves R (BroadcastPipe_put bp v).
Proof. intros w. destruct (BroadcastPipe_put_frame bp v w) as [env' ->]. apply R_env. Qed.

Lemma await_preserves (store : nat) {pc : Type} (at_get : pc) : preserves R (await store at_get).
Proof. intros w. destruct (await_frame store at_get w) as (env' & -> & _). apply R_env. Qed.

Lemma RO_wait_preserves (self : ro_ref) : preserves R (RO_wait self).
Proof.
  intros w. destruct (RO_wait_frame self w) as [env' ->].
  transitivity (drawn w); [apply R_drawn | apply R_env].
Qed.

Lemma RO_run_preserves (self : ro_ref) (pc : RO_pc) (sent : pyval) :
  preserves R (RO_run self pc sent).
Proof.
  intros w. destruct pc.
  - destruct (RO.out_pipe (the_RO self w)) as [bp|] eqn:Hout.
    + rewrite (RO_run_start_sink self sent w bp Hout).
      destruct (_ <? 0)%float; [reflexivity | apply R_env].
    + rewrite (RO_run_start_no_sink self sent w Hout).
      apply (preserves_outcome (RO_wait self) (fun ev => (RO_half_wait, ev))), RO_wait_preserves.
  - rewrite RO_run_offset_wait.
    apply (preserves_outcome (RO_wait self) (fun ev => (RO_half_wait, ev))), RO_wait_preserves.
  - destruct (RO.out_pipe (the_RO self w)) as [bp|] eqn:Hout.
    + destruct (BroadcastPipe_put_frame bp (VBool (negb (RO.state (the_RO self w)))) (toggled self w))
        as [env' He].
      destruct (BroadcastPipe_put bp _ (toggled self w)) as [[cond|e] w1] eqn:Hput;
        cbn in He; subst w1.
      * rewrite (RO_run_half_wait_sink self sent w bp cond env' Hout Hput).
        transitivity (toggled self w); [apply R_toggled |].
        transitivity (TRNG.set_env (fun _ => env') (toggled self w)); [apply R_env |].
        transitivity (RO_logged self (TRNG.set_env (fun _ => env') (toggled self w)));
          [apply R_RO_logged |].
        apply (preserves_outcome (RO_wait self) (fun ev => (RO_half_wait, ev))), RO_wait_preserves.
      * rewrite (RO_run_half_wait_sink_raise self sent w _ bp e Hout Hput). cbn.
        transitivity (toggled self w); [apply R_toggled | apply R_env].
    + rewrite (RO_run_half_wait_no_sink self sent w Hout).
      transitivity (toggled self w); [apply R_toggled |].
      transitivity (RO_logged self (toggled self w)); [apply R_RO_logged |].
      apply (preserves_outcome (RO_wait self) (fun ev => (RO_half_wait, ev))), RO_wait_preserves.
Qed.

Lemma FF_run_preserves (pc : FF_pc) (sent : pyval) : preserves R (FF_run pc sent).
Proof.
  intros w. destruct pc.
  - change (FF_run FF_start sent w) with (await (FF.i_clk_pipe (TRNG.beat_ff w)) FF_get w).
    apply await_preserves.
  - destruct (truthy sent) eqn:Hsent.
    + rewrite (FF_run_true sent w Hsent).
      transitivity (FF_latched w); [apply R_FF_latched |].
      pose proof (BroadcastPipe_put_preserves (FF.o_beat_pipe (TRNG.beat_ff w))
                    (state_of (FF.i_data (TRNG.beat_ff w)) w) (FF_latched w)) as Hput.
      destruct (BroadcastPipe_put _ _ _) as [[cond|e] w1]; cbn in Hput; [| exact Hput].
      transitivity w1; [exact Hput | apply await_preserves].
    + rewrite (FF_run_false sent w Hsent). apply await_preserves.
Qed.

Lemma Counter_clocked_preserves : preserves R Counter_clocked.
Proof.
  intros w. rewrite Counter_clocked_run.
  transitivity (Counter_logged w); [apply R_Counter_logged |].
  pose proof (preserves_lift (simpy.put (Counter.o_Q_pipe (TRNG.counter w))
                (VInt (Counter.count (TRNG.counter w)))) (Counter_logged w)) as Hput.
  destruct (lift _ _) as [[ev|e] w1]; cbn in Hput |- *; [| exact Hput].
  transitivity w1; [exact Hput | apply R_Counter_counted].
Qed.

Lemma Counter_run_preserves (pc : Counter_pc) (sent : pyval) : preserves R (Counter_run pc sent).
Proof.
  intros w. destruct pc.
  - change (Counter_run Counter_start sent w)
      with (await (Counter.i_clk_pipe (TRNG.counter w)) Counter_get w).
    apply await_preserves.
  - destruct (truthy sent) eqn:Hsent.
    + rewrite (Counter_run_get_true sent w Hsent). apply R_env.
    + rewrite (Counter_run_get_false sent w Hsent). apply await_preserves.
  - rewrite Counter_run_settle.
    pose proof (Counter_clocked_preserves w) as Hc.
    destruct (Counter_clocked w) as [[[]|e] w1]; cbn in Hc; [| exact Hc].
    transitivity w1; [exact Hc | apply await_preserves].
Qed.

Lemma RandOut_run_preserves (pc : RandOut_pc) (sent : pyval) : preserves R (RandOut_run pc sent).
Proof.
  intros w. destruct pc.
  - change (RandOut_run RandOut_start sent w)
      with (await (RandOut.i_clk_pipe (TRNG.rand_out w)) RandOut_get w).
    apply await_preserves.
  - apply R_RandOut_received.
Qed.

Lemma send_preserves (g : generator) (v : pyval) : preserves R (send g v).
Proof.
  destruct g as [self pc|pc|pc|pc]; cbn [send].
  - apply preserves_bind; [apply _ | apply RO_run_preserves |].
    intros [pc' ev]. apply preserves_ret; apply _.
  - apply preserves_bind; [apply _ | apply FF_run_preserves |].
    intros [pc' ev]. apply preserves_ret; apply _.
  - apply preserves_bind; [apply _ | apply Counter_run_preserves |].
    intros [pc' ev]. apply preserves_ret; apply _.
  - apply preserves_bind; [apply _ | apply RandOut_run_preserves |].
    intros [pc' ev]. apply preserves_ret; apply _.
Qed.

Ltac frame :=
  repeat first
    [ apply preserves_lift
    | apply preserves_gets
    | apply preserves_ret; apply _
    | apply preserves_raise; apply _
    | apply preserves_deref; apply _
    | apply send_preserves
    | apply preserves_modify; intros; apply R_proc
    | apply preserves_modify; intros; apply R_env
    | apply preserves_bind; [apply _ | |]; intros
    | apply preserves_try_except; intros
    | apply preserves_mapM; intros
    | match goal with
      | |- preserves _ (match ?x with _ => _ end) => destruct x
      | |- preserves _ (if ?x then _ else _) => destruct x
      | |- preserves _ (let '(_, _) := ?x in _) => destruct x
      end ].

Lemma Process_resume_preserves (p : simpy.proc) (event : nat) :
  preserves R (Process_resume p event).
Proof. unfold Process_resume, set_process. frame. Qed.

Lemma run_callback_preserves (event : nat) (cb : simpy.callback) :
  preserves R (run_callback event cb).
Proof. destruct cb; cbn [run_callback]; [apply Process_resume_preserves | frame ..]. Qed.

Lemma step_preserves : preserves R step.
Proof. unfold step. frame. all: try apply run_callback_preserves. Qed.

Lemma steps_preserves (k : nat) : preserves R (steps k).
Proof.
  induction k as [|k IH]; cbn [steps]; [apply preserves_ret; apply _ |].
  apply preserves_bind; [apply _ | apply step_preserves | intros _; exact IH].
Qed.

End run_frame.

#[global] Instance same_wiring_refl : Reflexive same_wiring.
Proof. intros w. reflexivity. Qed.

#[global] Instance same_wiring_trans : Transitive same_wiring.
Proof. intros w1 w2 w3 H1 H2. unfold same_wiring in *. congruence. Qed.

Lemma RandOut_received_footprint (v : pyval) (w : TRNG.t) :
  exists env', RandOut_received v w =
               TRNG.set_env (fun _ => env')
                 (TRNG.set_rand_out (fun _ => TRNG.rand_out (RandOut_received v w)) w).
Proof.
  unfold RandOut_received, RandOut_run. mcbv.
  destruct (truthy v && negb (truthy (RandOut.old_i_clk (TRNG.rand_out w)))).
  - destruct (RandOut.verbose (TRNG.rand_out w)); mcbv; lift_cases; eexists; reflexivity.
  - mcbv; lift_cases; eexists; reflexivity.
Qed.

Lemma steps_same_wiring (k : nat) (w : TRNG.t) : same_wiring w (steps k w).2.
Proof.
  apply (steps_preserves same_wiring); try reflexivity.
  - intros self w0. destruct self; reflexivity.
  - intros self w0. unfold RO_logged. destruct self; destruct (RO.verbose _); reflexivity.
  - intros w0. unfold Counter_logged. destruct (Counter.verbose _); reflexivity.
  - intros w0. unfold Counter_counted, Counter_branched. destruct (reset_event w0); reflexivity.
  - intros v w0. destruct (RandOut_received_footprint v w0) as [env' ->].
    unfold same_wiring, wiring. cbn. rewrite RandOut_received_rand_out.
    destruct (_ && _); reflexivity.
Qed.

(** X1.  The composition of an assembly is fixed: no step of the event
    loop changes the pipes and the stores registered on them, the
    parameters, or the connections and the mode of a component. *)
Theorem wiring_is_fixed (w : TRNG.t) (k : nat) : wiring (steps k w).2 = wiring w.
Proof. exact (steps_same_wiring k w). Qed.

(** ** Invariants of the run *)

#[global] Instance kept_refl (I : TRNG.t -> Prop) : Reflexive (kept I).
Proof. intros w H. exact H. Qed.

#[global] Instance kept_trans (I : TRNG.t -> Prop) : Transitive (kept I).
Proof. intros w1 w2 w3 H1 H2 H. exact (H2 (H1 H)). Qed.

#[global] Instance grows_refl : Reflexive grows.
Proof. intros w. repeat split; reflexivity. Qed.

#[global] Instance grows_trans : Transitive grows.
Proof.
  intros w1 w2 w3 (A1 & A2 & A3 & A4 & A5 & A6) (B1 & B2 & B3 & B4 & B5 & B6).
  repeat split; etransitivity; eassumption.
Qed.

Lemma steps_grows (k : nat) (w : TRNG.t) : grows w (steps k w).2.
Proof.
  apply (steps_preserves grows); try (intros; repeat split; reflexivity).
  - intros self w0. destruct self; repeat split; reflexivity.
  - intros self w0. unfold RO_logged.
    destruct self; destruct (RO.verbose _); try reflexivity;
      repeat split; cbn; first [reflexivity | apply prefix_app_r; reflexivity].
  - intros w0. unfold FF_latched.
    destruct (FF.verbose _); repeat split; cbn;
      first [reflexivity | apply prefix_app_r; reflexivity].
  - intros w0. unfold Counter_logged.
    destruct (Counter.verbose _); repeat split; cbn;
      first [reflexivity | apply prefix_app_r; reflexivity].
  - intros w0. unfold Counter_counted, Counter_branched.
    destruct (reset_event w0); repeat split; cbn;
      first [reflexivity | apply prefix_app_r; reflexivity].
  - intros v w0. destruct (RandOut_received_footprint v w0) as [env' ->].
    unfold grows. cbn. rewrite RandOut_received_rand_out.
    repeat split; try reflexivity.
    destruct (_ && _); cbn; first [reflexivity | apply prefix_app_r; reflexivity].
Qed.

(** X2.  Recording is append-only: after any number of steps of the event
    loop each log ([data] of the oscillators, the latch, the counter and
    the sampler, and [count_max]) starts with what it held before. *)
Theorem logs_are_append_only (w : TRNG.t) (k : nat) : grows w (steps k w).2.
Proof. exact (steps_grows k w). Qed.

(** The components just after construction. *)
Lemma TRNG_new_components (period delta jitter1 jitter2 : float) (verbose : bool)
    (variates : nat -> float) :
  let w := TRNG_new period delta jitter1 jitter2 verbose variates in
  TRNG.ro1 w = RO.init period jitter1 None verbose /\
  TRNG.ro2 w = RO.init (period + delta)%float jitter2 (Some 0%nat) verbose /\
  TRNG.beat_ff w = FF.init 3 ref_ro1 1 verbose /\
  TRNG.counter w = Counter.init 4 ref_beat_ff 1 verbose /\
  TRNG.rand_out w = RandOut.init 5 ref_counter verbose /\
  TRNG.bpipes w = [BroadcastPipe.mk None [3; 4]%nat; BroadcastPipe.mk None [5]%nat].
Proof. vm_compute. repeat split; reflexivity. Qed.

Lemma steps_Counter_ok (k : nat) (w : TRNG.t) :
  Counter_ok (TRNG.counter w) -> Counter_ok (TRNG.counter (steps k w).2).
Proof.
  apply (steps_preserves (kept (fun w => Counter_ok (TRNG.counter w))));
    try (intros; exact (fun H => H)).
  - intros self w0. destruct self; exact (fun H => H).
  - intros self w0. unfold RO_logged.
    destruct self; destruct (RO.verbose _); exact (fun H => H).
  - intros w0. unfold Counter_logged. destruct (Counter.verbose _); exact (fun H => H).
  - intros w0 (Hn & Hc & Hall). unfold Counter_counted, Counter_branched.
    destruct (reset_event w0); unfold Counter_ok; cbn.
    + rewrite length_app, Forall_app, Forall_singleton. cbn. repeat split; [lia | lia | auto ..].
    + repeat split; [lia | lia | auto].
  - intros v w0. destruct (RandOut_received_footprint v w0) as [env' ->]. exact (fun H => H).
Qed.

(** X3.  Throughout the run of an assembly [n] is one more than the number
    of recorded resets (so the running mean never divides by zero), and
    neither the count nor a recorded count is negative. *)
Theorem Counter_bookkeeping (period delta jitter1 jitter2 : float) (verbose : bool)
    (variates : nat -> float) (k : nat) :
  Counter_ok (TRNG.counter (steps k (TRNG_new period delta jitter1 jitter2 verbose variates)).2).
Proof.
  apply steps_Counter_ok.
  destruct (TRNG_new_components period delta jitter1 jitter2 verbose variates)
    as (_ & _ & _ & -> & _).
  repeat split; [cbn; lia | constructor].
Qed.

Lemma Counter_state_bit (c : Counter.t) : is_bit (VInt (Counter.state c)).
Proof.
  unfold Counter.state, is_bit.
  pose proof (Z.mod_pos_bound (Counter.count c) 2 ltac:(lia)) as H.
  assert (Hc : Counter.count c mod 2 = 0 \/ Counter.count c mod 2 = 1) by lia.
  destruct Hc as [-> | ->]; auto.
Qed.

Lemma steps_RandOut_ok (k : nat) (w : TRNG.t) :
  RandOut_ok (TRNG.rand_out w) -> RandOut_ok (TRNG.rand_out (steps k w).2).
Proof.
  apply (steps_preserves (kept (fun w => RandOut_ok (TRNG.rand_out w))));
    try (intros; exact (fun H => H)).
  - intros self w0. destruct self; exact (fun H => H).
  - intros self w0. unfold RO_logged.
    destruct self; destruct (RO.verbose _); exact (fun H => H).
  - intros w0. unfold Counter_logged. destruct (Counter.verbose _); exact (fun H => H).
  - intros w0. unfold Counter_counted, Counter_branched.
    destruct (reset_event w0); exact (fun H => H).
  - intros v w0 (HQ & Hall). destruct (RandOut_received_footprint v w0) as [env' ->].
    cbn. rewrite RandOut_received_rand_out.
    destruct (_ && _); unfold RandOut_ok; cbn; [| auto].
    split; [exact HQ |]. rewrite Forall_app, Forall_singleton. split; [exact Hall |].
    rewrite HQ. unfold sampled, state_of.
    destruct (RandOut.verbose (TRNG.rand_out w0)); cbn; (split; [reflexivity |]);
      apply Counter_state_bit.
Qed.

(** X4.  Every sample the assembly records is the integer 0 or 1, in a
    time-stamped tuple in verbose mode and bare otherwise. *)
Theorem samples_are_bits (period delta jitter1 jitter2 : float) (verbose : bool)
    (variates : nat -> float) (k : nat) :
  Forall (sample_ok verbose)
    (RandOut.data
       (TRNG.rand_out (steps k (TRNG_new period delta jitter1 jitter2 verbose variates)).2)).
Proof.
  set (w0 := TRNG_new period delta jitter1 jitter2 verbose variates).
  assert (H0 : RandOut_ok (TRNG.rand_out w0)).
  { subst w0. destruct (TRNG_new_components period delta jitter1 jitter2 verbose variates)
      as (_ & _ & _ & _ & -> & _). split; [reflexivity | constructor]. }
  destruct (steps_RandOut_ok k w0 H0) as [_ Hall].
  assert (Hv : RandOut.verbose (TRNG.rand_out (steps k w0).2) = verbose).
  { pose proof (steps_same_wiring k w0) as Hw. unfold same_wiring, wiring in Hw.
    assert (Hv : RandOut.verbose (TRNG.rand_out (steps k w0).2) =
                 RandOut.verbose (TRNG.rand_out w0)) by congruence.
    rewrite Hv. subst w0.
    destruct (TRNG_new_components period delta jitter1 jitter2 verbose variates)
      as (_ & _ & _ & _ & -> & _). reflexivity. }
  rewrite Hv in Hall. exact Hall.
Qed.

Lemma steps_quiet (k : nat) (w : TRNG.t) : quiet w -> quiet (steps k w).2.
Proof.
  apply (steps_preserves (kept quiet)); try (intros; exact (fun H => H)).
  - intros self w0. destruct self; exact (fun H => H).
  - intros self w0 H. pose proof H as ((V1 & _) & (V2 & _) & _). unfold RO_logged.
    destruct self; cbn; [rewrite V1 | rewrite V2]; exact H.
  - intros w0 H. pose proof H as (_ & _ & (V & D) & _). unfold FF_latched, quiet in *.
    cbn. rewrite V. tauto.
  - intros w0 H. pose proof H as (_ & _ & _ & (V & _)). unfold Counter_logged.
    rewrite V. exact H.
  - intros w0. unfold Counter_counted, Counter_branched.
    destruct (reset_event w0); exact (fun H => H).
  - intros v w0. destruct (RandOut_received_footprint v w0) as [env' ->]. exact (fun H => H).
Qed.

(** X5.  In non-verbose mode the oscillators, the latch and the counter
    never log anything: their [data] stay empty throughout the run. *)
Theorem non_verbose_run_keeps_no_logs (period delta jitter1 jitter2 : float)
    (variates : nat -> float) (k : nat) :
  let w := (steps k (TRNG_new period delta jitter1 jitter2 false variates)).2 in
  RO.data (TRNG.ro1 w) = [] /\ RO.data (TRNG.ro2 w) = [] /\
  FF.data (TRNG.beat_ff w) = [] /\ Counter.data (TRNG.counter w) = [].
Proof.
  assert (H0 : quiet (TRNG_new period delta jitter1 jitter2 false variates)).
  { unfold quiet.
    destruct (TRNG_new_components period delta jitter1 jitter2 false variates)
      as (-> & -> & -> & -> & _). repeat split. }
  destruct (steps_quiet k _ H0) as ((_ & H1) & (_ & H2) & (_ & H3) & (_ & H4)).
  cbn zeta. auto.
Qed.

(** ** The plotting helper *)

Section plot_properties.
Variable np_spacing : float -> float.
Context {V : Type}.

Lemma plot_loop_app (data : list (float * V)) (previous : V) (result : list (float * V)) :
  plot_loop np_spacing data previous result = result ++ plot_loop np_spacing data previous [].
Proof.
  revert previous result. induction data as [|[time value] data IH]; intros previous result.
  - cbn. rewrite app_nil_r. reflexivity.
  - cbn [plot_loop]. rewrite IH. rewrite (IH value ([] ++ _)). cbn [app].
    rewrite <- app_assoc. reflexivity.
Qed.

Lemma plot_loop_cons (time : float) (value previous : V) (data : list (float * V)) :
  plot_loop np_spacing ((time, value) :: data) previous [] =
  ((time - np_spacing time)%float, previous) :: (time, value)
    :: plot_loop np_spacing data value [].
Proof. cbn [plot_loop]. rewrite plot_loop_app. reflexivity. Qed.

Lemma plot_loop_length (data : list (float * V)) (previous : V) :
  length (plot_loop np_spacing data previous []) = (2 * length data)%nat.
Proof.
  revert previous. induction data as [|[time value] data IH]; intros previous.
  - reflexivity.
  - rewrite plot_loop_cons. cbn [length]. rewrite IH. lia.
Qed.

Lemma plot_loop_points (data : list (float * V)) (previous : V) (i : nat) (t : float) (v : V) :
  data !! i = Some (t, v) ->
  plot_loop np_spacing data previous [] !! (2 * i)%nat =
    Some ((t - np_spacing t)%float,
          match i with O => previous | S j => default v (snd <$> data !! j) end) /\
  plot_loop np_spacing data previous [] !! (2 * i + 1)%nat = Some (t, v).
Proof.
  revert previous i. induction data as [|[time value] data IH]; intros previous i Hi.
  - discriminate Hi.
  - rewrite plot_loop_cons. destruct i as [|i].
    + cbn in Hi. injection Hi as -> ->. split; reflexivity.
    + cbn in Hi. destruct (IH value i Hi) as [H1 H2].
      replace (2 * S i)%nat with (S (S (2 * i))) by lia.
      replace (S (S (2 * i)) + 1)%nat with (S (S (2 * i + 1))) by lia.
      split; [| exact H2].
      etransitivity; [exact H1 |]. destruct i as [|j]; reflexivity.
Qed.

End plot_properties.

(** X6.  [format_straight_line_plot] fails with [IndexError] exactly on
    the empty list; otherwise it returns two points for each entry of its
    argument. *)
Theorem format_straight_line_plot_length {V : Type} (np_spacing : float -> float)
    (data : list (float * V)) :
  match format_straight_line_plot np_spacing data with
  | inl e => e = IndexError /\ data = []
  | inr result => data <> [] /\ length result = (2 * length data)%nat
  end.
Proof.
  destruct data as [|[time value] data]; cbn [format_straight_line_plot].
  - split; reflexivity.
  - split; [discriminate | apply plot_loop_length].
Qed.

(** X7.  Entry [i] of the argument of [format_straight_line_plot] is
    point [2 i + 1] of the result; point [2 i] lies [np.spacing] before it
    and carries the value of the entry before (the value of the entry
    itself for the first one). *)
Theorem format_straight_line_plot_points {V : Type} (np_spacing : float -> float)
    (data result : list (float * V)) (i : nat) (t : float) (v : V) :
  format_straight_line_plot np_spacing data = inr result ->
  data !! i = Some (t, v) ->
  result !! (2 * i + 1)%nat = Some (t, v) /\
  exists previous,
    value_before data i = Some previous /\
    result !! (2 * i)%nat = Some ((t - np_spacing t)%float, previous).
Proof.
  intros Hr Hi. destruct data as [|[time value] data]; [discriminate Hr |].
  cbn [format_straight_line_plot] in Hr. injection Hr as <-.
  destruct (plot_loop_points np_spacing _ value i t v Hi) as [H1 H2].
  split; [exact H2 |]. unfold value_before. destruct i as [|j].
  - cbn in Hi. injection Hi as -> ->. exists v. split; [reflexivity | exact H1].
  - replace (S j - 1)%nat with j by lia.
    assert (Hj : is_Some (((time, value) :: data) !! j)).
    { apply lookup_lt_is_Some. apply lookup_lt_Some in Hi. lia. }
    destruct Hj as [[t' v'] Hj]. rewrite Hj in H1 |- *. cbn in H1 |- *.
    exists v'. split; [reflexivity | exact H1].
Qed.

Lemma format_straight_line_plot_points_witness :
  format_straight_line_plot (fun _ => 0x1p-60%float)
    [(1%float, true); (2%float, false); (3%float, true)] =
    inr [((1 - 0x1p-60)%float, true); (1%float, true);
         ((2 - 0x1p-60)%float, true); (2%float, false);
         ((3 - 0x1p-60)%float, false); (3%float, true)] /\
  [(1%float, true); (2%float, false); (3%float, true)] !! 2%nat = Some (3%float, true) /\
  [((1 - 0x1p-60)%float, true); (1%float, true);
   ((2 - 0x1p-60)%float, true); (2%float, false);
   ((3 - 0x1p-60)%float, false); (3%float, true)] !! 5%nat = Some (3%float, true).
Proof.
  assert (H1 : format_straight_line_plot (fun _ => 0x1p-60%float)
                 [(1%float, true); (2%float, false); (3%float, true)] =
               inr [((1 - 0x1p-60)%float, true); (1%float, true);
                    ((2 - 0x1p-60)%float, true); (2%float, false);
                    ((3 - 0x1p-60)%float, false); (3%float, true)]) by reflexivity.
  assert (H2 : [(1%float, true); (2%float, false); (3%float, true)] !! 2%nat
               = Some (3%float, true)) by reflexivity.
  split; [exact H1 | split; [exact H2 |]].
  exact (proj1 (format_straight_line_plot_points _ _ _ 2 3%float true H1 H2)).
Defined.

(** ** Construction and the statistic *)

Lemma TRNG_init_returns (period delta jitter1 jitter2 : float) (verbose : bool)
    (variates : nat -> float) :
  TRNG_init verbose (TRNG_blank period delta jitter1 jitter2 variates) =
  (Return tt, TRNG_new period delta jitter1 jitter2 verbose variates).
Proof. vm_compute. reflexivity. Qed.

Lemma TRNG_new_pipes (period delta jitter1 jitter2 : float) (verbose : bool)
    (variates : nat -> float) :
  let w := TRNG_new period delta jitter1 jitter2 verbose variates in
  pipe_ok w 0 (BroadcastPipe.mk None [3; 4]%nat) /\
  pipe_ok w 1 (BroadcastPipe.mk None [5]%nat).
Proof.
  cbv zeta. unfold pipe_ok, put_ok.
  split; (split; [vm_compute; reflexivity |]);
    (split; [apply (bool_decide_unpack _); reflexivity |]);
    repeat constructor;
    (eexists; split; [vm_compute; reflexivity | split; constructor]).
Qed.

(** X8.  The constructor raises [ZeroDivisionError] when the period of one of
    the oscillators is zero and otherwise returns; the latch and the counter
    then listen on two distinct stores of the pipe the second oscillator
    broadcasts into, the sampler on the one store of the latch's pipe, the
    first oscillator has no sink, and the five processes are scheduled, in
    the order of their creation, at time zero. *)
Theorem TRNG_construction (period delta jitter1 jitter2 : float) (verbose : bool)
    (variates : nat -> float) :
  let w := TRNG_new period delta jitter1 jitter2 verbose variates in
  TRNG_checked period delta jitter1 jitter2 verbose variates =
    (if ((period =? 0) || (period + delta =? 0))%float then inl ZeroDivisionError
     else inr (Return tt, w)) /\
  RO.out_pipe (TRNG.ro1 w) = None /\
  RO.out_pipe (TRNG.ro2 w) = Some (TRNG.ro2_bc_pipe w) /\
  FF.o_beat_pipe (TRNG.beat_ff w) = TRNG.beat_bc_pipe w /\
  Counter.o_Q_pipe (TRNG.counter w) = TRNG.q_pipe w /\
  pipe_ok w (TRNG.ro2_bc_pipe w)
    (BroadcastPipe.mk None [FF.i_clk_pipe (TRNG.beat_ff w); Counter.i_clk_pipe (TRNG.counter w)]) /\
  pipe_ok w (TRNG.beat_bc_pipe w)
    (BroadcastPipe.mk None [RandOut.i_clk_pipe (TRNG.rand_out w)]) /\
  NoDup [TRNG.counter_pipe w; TRNG.q_pipe w; TRNG.out_pipe w; FF.i_clk_pipe (TRNG.beat_ff w);
         Counter.i_clk_pipe (TRNG.counter w); RandOut.i_clk_pipe (TRNG.rand_out w)] /\
  simpy.stores (TRNG.env w) = replicate 6 (simpy.mkStore None [] [] []) /\
  (fun x => (x.1.1.1, x.1.1.2)) <$> simpy.queue (TRNG.env w) =
    replicate 5 (0%float, simpy.URGENT) /\
  (fun x => simpy.events (TRNG.env w) !! x.2) <$> simpy.queue (TRNG.env w) =
    (fun p => Some (simpy.plain_event [simpy.Process_resume_cb p]
                      (simpy.Succeeded VNone) VNone)) <$>
      [simpy.ro1_proc; simpy.ro2_proc; simpy.beat_ff_proc; simpy.counter_proc;
       simpy.rand_out_proc].
Proof.
  cbv zeta. split.
  { unfold TRNG_checked, RO_new. rewrite TRNG_init_returns.
    destruct (period =? 0)%float; [reflexivity |].
    destruct (period + delta =? 0)%float; reflexivity. }
  destruct (TRNG_new_pipes period delta jitter1 jitter2 verbose variates) as [P1 P2].
  split; [vm_compute; reflexivity |]. split; [vm_compute; reflexivity |].
  split; [vm_compute; reflexivity |]. split; [vm_compute; reflexivity |].
  split; [exact P1 |]. split; [exact P2 |].
  split; [apply (bool_decide_unpack _); vm_compute; reflexivity |].
  split; [vm_compute; reflexivity |]. split; vm_compute; reflexivity.
Qed.

(** X9.  The statistic of an assembly built with a zero [delta] cannot be
    computed, at any point of its run: the division raises
    [ZeroDivisionError]; with another [delta] it is the float of
    [TRNG_sigma]. *)
Theorem sigma_needs_nonzero_delta (np_std : list Z -> float)
    (period delta jitter1 jitter2 : float) (verbose : bool) (variates : nat -> float) (k : nat) :
  let w := (steps k (TRNG_new period delta jitter1 jitter2 verbose variates)).2 in
  TRNG_sigma_checked np_std w =
  if (delta =? 0)%float then inl ZeroDivisionError else inr (TRNG_sigma np_std w).
Proof.
  cbv zeta. unfold TRNG_sigma_checked.
  pose proof (steps_same_wiring k (TRNG_new period delta jitter1 jitter2 verbose variates)) as Hw.
  unfold same_wiring, wiring in Hw.
  assert (Hd : TRNG.delta (steps k (TRNG_new period delta jitter1 jitter2 verbose variates)).2 =
               TRNG.delta (TRNG_new period delta jitter1 jitter2 verbose variates))
    by congruence.
  rewrite Hd. reflexivity.
Qed.

(** ** Registration on a broadcast pipe *)

Lemma get_output_conn_n (n : nat) (w : TRNG.t) (bp : nat) (p : BroadcastPipe.t) :
  TRNG.bpipes w !! bp = Some p ->
  BroadcastPipe.capacity p <> Some 0%nat ->
  exists w',
    mapM (fun _ : unit => BroadcastPipe_get_output_conn bp) (replicate n tt) w =
      (Return (seq (length (simpy.stores (TRNG.env w))) n), w') /\
    TRNG.bpipes w' !! bp =
      Some (BroadcastPipe.mk (BroadcastPipe.capacity p)
              (BroadcastPipe.pipes p ++ seq (length (simpy.stores (TRNG.env w))) n)) /\
    simpy.stores (TRNG.env w') =
      simpy.stores (TRNG.env w)
        ++ replicate n (simpy.mkStore (BroadcastPipe.capacity p) [] [] []).
Proof.
  revert w p. induction n as [|n IH]; intros w p Hbp Hcap.
  - exists w. cbn. rewrite !app_nil_r. split; [reflexivity |].
    split; [| reflexivity]. rewrite Hbp. destruct p; reflexivity.
  - set (w1 := registered bp (BroadcastPipe.capacity p) w).
    assert (Hbp1 : TRNG.bpipes w1 !! bp =
                   Some (BroadcastPipe.mk (BroadcastPipe.capacity p)
                           (BroadcastPipe.pipes p ++ [length (simpy.stores (TRNG.env w))]))).
    { subst w1. cbn. rewrite list_lookup_alter_eq, Hbp. reflexivity. }
    destruct (IH w1 _ Hbp1 Hcap) as (w' & Hrun & Hb & Hs).
    assert (Hlen : length (simpy.stores (TRNG.env w1)) = S (length (simpy.stores (TRNG.env w)))).
    { subst w1. cbn. rewrite length_app. cbn. lia. }
    rewrite Hlen in Hrun, Hb. cbn [BroadcastPipe.capacity BroadcastPipe.pipes] in Hrun, Hb, Hs.
    exists w'. split; [| split].
    + cbn [replicate mapM].
      rewrite (bind_Return _ _ _ _ _ (BroadcastPipe_get_output_conn_run w bp p Hbp Hcap)).
      fold w1. rewrite (bind_Return _ _ _ _ _ Hrun). reflexivity.
    + rewrite Hb, <- app_assoc. reflexivity.
    + rewrite Hs. subst w1. cbn. rewrite <- app_assoc. reflexivity.
Qed.

(** X10.  On a new pipe with [n >= 1] registered consumers a broadcast returns,
    and each of the [n] distinct stores handed out then holds the value and
    nothing else. *)
Theorem BroadcastPipe_register_then_put (w : TRNG.t) (capacity : option nat) (n : nat)
    (v : pyval) :
  capacity <> Some 0%nat -> (0 < n)%nat ->
  exists bp conns cond w',
    register_then_put capacity n v w = (Return (bp, conns, cond), w') /\
    length conns = n /\ NoDup conns /\
    TRNG.bpipes w' !! bp = Some (BroadcastPipe.mk capacity conns) /\
    forall s, s ∈ conns ->
      simpy.stores (TRNG.env w') !! s = Some (simpy.mkStore capacity [v] [] []).
Proof.
  intros Hcap Hn. unfold register_then_put.
  set (w0 := TRNG.set_bpipes (fun l => l ++ [BroadcastPipe.init capacity]) w).
  set (bp := length (TRNG.bpipes w)).
  assert (Hbp0 : TRNG.bpipes w0 !! bp = Some (BroadcastPipe.init capacity)).
  { subst w0 bp. cbn. apply list_lookup_middle. reflexivity. }
  destruct (get_output_conn_n n w0 bp _ Hbp0 Hcap) as (w1 & Hrun1 & Hb1 & Hs1).
  cbn [BroadcastPipe.init BroadcastPipe.capacity BroadcastPipe.pipes app] in Hrun1, Hb1, Hs1.
  set (L := length (simpy.stores (TRNG.env w0))) in *.
  assert (Hst : forall s, s ∈ seq L n ->
            simpy.stores (TRNG.env w1) !! s = Some (simpy.mkStore capacity [] [] [])).
  { intros s Hs. apply elem_of_seq in Hs. rewrite Hs1.
    rewrite lookup_app_r by (subst L; lia).
    apply lookup_replicate_2. subst L. lia. }
  assert (Hok : pipe_ok w1 bp (BroadcastPipe.mk capacity (seq L n))).
  { split; [exact Hb1 |]. split; [apply NoDup_seq |].
    apply Forall_forall. intros s Hs. exists (simpy.mkStore capacity [] [] []).
    split; [apply Hst, Hs |]. split; constructor. }
  assert (Hne : BroadcastPipe.pipes (BroadcastPipe.mk capacity (seq L n)) <> []).
  { cbn. destruct n; [lia | discriminate]. }
  destruct (BroadcastPipe_put_spec w1 bp _ v Hok Hne) as (cond & env' & Hput & P).
  exists bp, (seq L n), cond, (TRNG.set_env (fun _ => env') w1).
  split.
  { change (new_BroadcastPipe capacity w) with (Return bp, w0).
    rewrite (bind_Return _ _ _ _ _ (eq_refl : new_BroadcastPipe capacity w = (Return bp, w0))).
    rewrite (bind_Return _ _ _ _ _ Hrun1), (bind_Return _ _ _ _ _ Hput). reflexivity. }
  split; [apply length_seq |]. split; [apply NoDup_seq |]. split; [exact Hb1 |].
  intros s Hs. cbn [TRNG.env TRNG.set_env].
  rewrite (bc_delivered _ _ _ _ P s _ Hs (Hst s Hs)); [reflexivity | | reflexivity].
  unfold simpy.has_room. cbn. destruct capacity as [[|c]|]; [contradiction | | reflexivity].
  apply bool_decide_eq_true. lia.
Qed.

Lemma BroadcastPipe_register_then_put_witness :
  (None : option nat) <> Some 0%nat /\ (0 < 2)%nat /\
  exists bp conns cond w',
    register_then_put None 2 (VBool true) example_TRNG = (Return (bp, conns, cond), w') /\
    length conns = 2%nat /\ NoDup conns /\
    TRNG.bpipes w' !! bp = Some (BroadcastPipe.mk None conns) /\
    forall s, s ∈ conns ->
      simpy.stores (TRNG.env w') !! s = Some (simpy.mkStore None [VBool true] [] []).
Proof.
  assert (H1 : (None : option nat) <> Some 0%nat) by discriminate.
  assert (H2 : (0 < 2)%nat) by lia.
  split; [exact H1 | split; [exact H2 |]].
  exact (BroadcastPipe_register_then_put example_TRNG None 2 (VBool true) H1 H2).
Defined.

(** ** The sampler over a sequence of messages *)

Lemma last_truth_snoc (prev : bool) (msgs : list pyval) (m : pyval) :
  last_truth prev (msgs ++ [m]) = truthy m.
Proof. unfold last_truth. rewrite foldl_app. reflexivity. Qed.

Lemma rising_edges_snoc (prev : bool) (msgs : list pyval) (m : pyval) :
  rising_edges prev (msgs ++ [m]) =
  (rising_edges prev msgs + (if truthy m && negb (last_truth prev msgs) then 1 else 0))%nat.
Proof.
  revert prev. induction msgs as [|a msgs IH]; intros prev; cbn.
  - lia.
  - rewrite IH. unfold last_truth. cbn. lia.
Qed.

(** X11.  The sampler has recorded one entry for each rising edge in the sequence
    of messages it has handled, the value before the first message counting
    as false; a true message that follows a true message records nothing. *)
Theorem RandOut_records_once_per_rising_edge (msgs : list pyval) (r : RandOut.t) :
  sampled_msgs msgs r ->
  length (RandOut.data r) = rising_edges false msgs /\
  truthy (RandOut.old_i_clk r) = last_truth false msgs.
Proof.
  induction 1 as [i_clk_pipe i_Q verbose | msgs r m w Hs [IH1 IH2] Hr].
  - split; reflexivity.
  - subst r. rewrite RandOut_received_rand_out, rising_edges_snoc, last_truth_snoc.
    rewrite <- IH2, <- IH1.
    destruct (truthy m && negb (truthy (RandOut.old_i_clk (TRNG.rand_out w)))); cbn.
    + rewrite length_app. cbn. split; [lia | reflexivity].
    + split; [lia | reflexivity].
Qed.

Lemma RandOut_records_once_per_rising_edge_witness :
  sampled_msgs ([] ++ [VBool true])
    (TRNG.rand_out (RandOut_received (VBool true) example_TRNG)) /\
  length (RandOut.data (TRNG.rand_out (RandOut_received (VBool true) example_TRNG))) = 1%nat.
Proof.
  assert (H : sampled_msgs ([] ++ [VBool true])
                (TRNG.rand_out (RandOut_received (VBool true) example_TRNG))).
  { apply (sampled_next [] (RandOut.init 5 ref_counter false)); [constructor | reflexivity]. }
  split; [exact H |].
  exact (proj1 (RandOut_records_once_per_rising_edge _ _ H)).
Defined.

(** * Safety of the run *)

(** * Safety of the run *)

Section engine_safety.
Import simpy.
Context {mode : stop_mode}.

#[global] Instance extends_refl : Reflexive extends.
Proof.
  intros env. split; auto.
  - intros ev e H. exists e. repeat split; auto.
  - intros ev e' Hlen H. apply lookup_lt_Some in H. lia.
Qed.

#[global] Instance extends_trans : Transitive extends.
Proof.
  intros e1 e2 e3 H12 H23. split.
  - rewrite (ext_stores _ _ H23). apply (ext_stores _ _ H12).
  - intros ev e H. destruct (ext_events _ _ H12 ev e H) as (e' & H' & Hv & Hf & Hr & Hc).
    destruct (ext_events _ _ H23 ev e' H') as (e'' & H'' & Hv' & Hf' & Hr' & Hc').
    exists e''. split; [exact H'' |]. split; [auto |]. split; [auto |]. split.
    + congruence.
    + rewrite Hc'. exact Hc.
  - intros ev e'' Hlen H.
    destruct (decide (ev < length (events e2))%nat) as [Hlt | Hge].
    + apply lookup_lt_is_Some in Hlt. destruct Hlt as [e' H'].
      destruct (ext_events _ _ H23 ev e' H') as (e0 & H0 & _ & _ & Hr & _).
      rewrite H in H0. injection H0 as <-. rewrite Hr. apply (ext_new _ _ H12 ev e' Hlen H').
    + apply (ext_new _ _ H23 ev e''); [lia | exact H].
  - intros x Hx. apply (ext_queue _ _ H23), (ext_queue _ _ H12), Hx.
  - intros ev H. destruct (ext_get _ _ H23 ev H) as [H2 | H2].
    + apply (ext_get _ _ H12 ev H2).
    + right. assert (length (events e1) <= length (events e2))%nat; [| lia].
      destruct (decide (length (events e1) <= length (events e2))%nat) as [|Hn]; [assumption |].
      assert (Hlt : (length (events e2) < length (events e1))%nat) by lia.
      apply lookup_lt_is_Some in Hlt. destruct Hlt as [e He].
      destruct (ext_events _ _ H12 _ e He) as (e' & He' & _).
      apply lookup_lt_Some in He'. lia.
Qed.

Lemma extends_length (env env' : Environment) :
  extends env env' -> (length (events env) <= length (events env'))%nat.
Proof.
  intros H. destruct (decide (length (events env) <= length (events env'))%nat) as [|Hn];
    [assumption |].
  assert (Hlt : (length (events env') < length (events env))%nat) by lia.
  apply lookup_lt_is_Some in Hlt. destruct Hlt as [e He].
  destruct (ext_events _ _ H _ e He) as (e' & He' & _).
  apply lookup_lt_Some in He'. lia.
Qed.

Lemma cb_wf_extends (env env' : Environment) (cb : callback) :
  extends env env' -> cb_wf env cb -> cb_wf env' cb.
Proof.
  intros H. destruct cb as [p|s|s|c|]; cbn; try (rewrite (ext_stores _ _ H)); auto.
  intros [Hc Hn]. split.
  - pose proof (extends_length _ _ H). lia.
  - intros Hin. destruct (ext_get _ _ H c Hin) as [H1 | H1]; [auto | lia].
Qed.


Lemma in_get_queue_valid (env : Environment) (ev : nat) :
  env_wf env -> in_get_queue env ev -> pending env ev.
Proof. intros Hwf (s & st & Hst & Hin). apply (wf_get_queue _ Hwf s st Hst), Hin. Qed.

Lemma pending_valid (env : Environment) (ev : nat) :
  pending env ev -> (ev < length (events env))%nat.
Proof. intros (e & He & _). eapply lookup_lt_Some, He. Qed.


(** *** Elementary changes of the environment *)

Lemma pending_app (env : Environment) (f : list Event -> list Event) (ev : nat) (e : Event) :
  pending env ev -> pending (set_events (fun l => l ++ [e]) env) ev.
Proof. intros (e0 & He & Hv). exists e0. split; [apply lookup_app_l_Some, He | exact Hv]. Qed.

Lemma in_get_queue_below (env : Environment) (ev : nat) :
  env_wf env -> in_get_queue env ev -> (ev < length (events env))%nat.
Proof. intros Hwf H. apply pending_valid, in_get_queue_valid; assumption. Qed.

Lemma appended_wf (e : Event) (env : Environment) :
  env_wf env ->
  Forall (cb_wf env) (default [] (callbacks e)) ->
  (forall exc, value e = Failed exc -> negative_delay exc) ->
  env_wf (set_events (fun l => l ++ [e]) env).
Proof.
  intros Hwf Hcb Hf. split; cbn.
  - intros x Hx. destruct (wf_queue _ Hwf x Hx) as (e0 & He & Hv). exists e0.
    split; [apply lookup_app_l_Some, He | exact Hv].
  - apply (wf_eid _ Hwf).
  - apply (wf_eids _ Hwf).
  - apply (wf_unbounded _ Hwf).
  - intros s st Hst. destruct (wf_get_queue _ Hwf s st Hst) as [Hnd Hp].
    split; [exact Hnd |]. intros ev Hev. apply (pending_app env id), Hp, Hev.
  - apply (wf_disjoint _ Hwf).
  - assert (Hmono : forall cb, cb_wf env cb -> cb_wf (set_events (fun l => l ++ [e]) env) cb).
    { intros [p|s|s|c|]; cbn; auto. rewrite length_app. intros [H1 H2]. split; [lia | exact H2]. }
    intros ev e0 cbs He Hc. apply lookup_app_Some in He as [He | [Hlen He]].
    + eapply Forall_impl; [apply (wf_callbacks _ Hwf ev e0 cbs He Hc) | exact Hmono].
    + destruct (ev - length (events env))%nat; [| discriminate He].
      injection He as <-. rewrite Hc in Hcb. cbn in Hcb.
      eapply Forall_impl; [exact Hcb | exact Hmono].
  - intros ev e0 exc He Hv. apply lookup_app_Some in He as [He | [Hlen He]].
    + apply (wf_failed _ Hwf ev e0 exc He Hv).
    + destruct (ev - length (events env))%nat; [| discriminate He].
      injection He as <-. apply Hf, Hv.
Qed.

Lemma appended_extends (e : Event) (env : Environment) :
  resumes e = [] -> extends env (set_events (fun l => l ++ [e]) env).
Proof.
  intros Hr. split; cbn; auto.
  - intros ev e0 He. exists e0. split; [apply lookup_app_l_Some, He | repeat split; auto].
  - intros ev e' Hlen He. apply lookup_app_Some in He as [He | [_ He]].
    + apply lookup_lt_Some in He. lia.
    + destruct (ev - length (events env))%nat; [| discriminate He]. injection He as <-. exact Hr.
Qed.

Lemma scheduled_wf (ev priority : nat) (delay : float) (env : Environment) (e : Event) :
  env_wf env -> events env !! ev = Some e -> value e <> PENDING ->
  env_wf (scheduled ev priority delay env).
Proof.
  intros Hwf He Hv. split; cbn; try apply Hwf.
  - intros x Hx. apply elem_of_app in Hx as [Hx | Hx]; [apply (wf_queue _ Hwf x Hx) |].
    apply list_elem_of_singleton in Hx as ->. exists e. split; assumption.
  - intros x Hx. apply elem_of_app in Hx as [Hx | Hx].
    + pose proof (wf_eid _ Hwf x Hx). lia.
    + apply list_elem_of_singleton in Hx as ->. cbn. lia.
  - rewrite fmap_app. apply NoDup_app. split; [apply (wf_eids _ Hwf) |].
    split; [| apply NoDup_singleton].
    intros i Hi Hi'. apply list_elem_of_singleton in Hi'. subst i.
    apply list_elem_of_fmap in Hi as (x & Hx1 & Hx2).
    pose proof (wf_eid _ Hwf x Hx2). cbn in Hx1. lia.
Qed.

Lemma scheduled_extends (ev priority : nat) (delay : float) (env : Environment) :
  extends env (scheduled ev priority delay env).
Proof.
  split; cbn; auto.
  - intros ev0 e He. exists e. repeat split; auto.
  - intros ev0 e' Hlen He. apply lookup_lt_Some in He. lia.
  - intros x Hx. apply elem_of_app. left. exact Hx.
Qed.


Lemma altered_event_wf (ev : nat) (f : Event -> Event) (env : Environment) (e : Event) :
  env_wf env -> events env !! ev = Some e ->
  (value e <> PENDING -> value (f e) <> PENDING) ->
  (in_get_queue env ev -> value (f e) = PENDING) ->
  (forall cbs, callbacks (f e) = Some cbs -> Forall (cb_wf env) cbs) ->
  (forall exc, value (f e) = Failed exc -> negative_delay exc) ->
  env_wf (set_events (alter f ev) env).
Proof.
  intros Hwf He Hq Hg Hc Hf.
  assert (Hlook : forall x e', alter f ev (events env) !! x = Some e' ->
            (x = ev /\ e' = f e) \/ (x <> ev /\ events env !! x = Some e')).
  { intros x e' H. rewrite list_lookup_alter in H.
    destruct (decide (ev = x)) as [<- | Hne].
    - rewrite He in H. injection H as <-. left. auto.
    - right. auto. }
  assert (Hmono : forall cb, cb_wf env cb -> cb_wf (set_events (alter f ev) env) cb).
  { intros [p|s|s|c|]; cbn; auto. rewrite length_alter. auto. }
  split; cbn; try apply Hwf.
  - intros x Hx. destruct (wf_queue _ Hwf x Hx) as (e0 & He0 & Hv).
    rewrite list_lookup_alter. destruct (decide (ev = entry_event x)) as [Heq | Hne].
    + rewrite <- Heq in He0. rewrite He in He0 |- *. injection He0 as <-.
      exists (f e). split; [reflexivity | apply Hq, Hv].
    + exists e0. auto.
  - intros s st Hst. destruct (wf_get_queue _ Hwf s st Hst) as [Hnd Hp].
    split; [exact Hnd |]. intros x Hx. destruct (Hp x Hx) as (e0 & He0 & Hv).
    unfold pending. cbn. rewrite list_lookup_alter. destruct (decide (ev = x)) as [<- | Hne].
    + rewrite He. exists (f e). split; [reflexivity |]. apply Hg. exists s, st. auto.
    + exists e0. auto.
  - intros x e' cbs H Hcbs. destruct (Hlook x e' H) as [[-> ->] | [_ H']].
    + eapply Forall_impl; [apply Hc, Hcbs | exact Hmono].
    + eapply Forall_impl; [apply (wf_callbacks _ Hwf x e' cbs H' Hcbs) | exact Hmono].
  - intros x e' exc H Hv. destruct (Hlook x e' H) as [[-> ->] | [_ H']].
    + apply Hf, Hv.
    + apply (wf_failed _ Hwf x e' exc H' Hv).
Qed.

Lemma altered_event_extends (ev : nat) (f : Event -> Event) (env : Environment) :
  (forall e, events env !! ev = Some e ->
     (value e <> PENDING -> value (f e) <> PENDING) /\
     ((exists exc, value e = Failed exc) -> exists exc, value (f e) = Failed exc) /\
     resumes (f e) = resumes e /\
     (callbacks (f e) = None <-> callbacks e = None)) ->
  extends env (set_events (alter f ev) env).
Proof.
  intros Hf. split; cbn; auto.
  - intros x e He. rewrite list_lookup_alter. destruct (decide (ev = x)) as [<- | Hne].
    + rewrite He. exists (f e). split; [reflexivity | apply Hf, He].
    + exists e. repeat split; auto.
  - intros x e' Hlen He. apply lookup_lt_Some in He. rewrite length_alter in He. lia.
Qed.

Lemma altered_store_wf (s : nat) (g : Store -> Store) (env : Environment) (st : Store) :
  env_wf env -> stores env !! s = Some st ->
  capacity (g st) = capacity st -> put_queue (g st) = put_queue st ->
  NoDup (get_queue (g st)) ->
  (forall ev, ev ∈ get_queue (g st) -> ev ∈ get_queue st) ->
  env_wf (set_stores (alter g s) env).
Proof.
  intros Hwf Hst Hcap Hpq Hnd Hsub.
  assert (Hlook : forall x st', alter g s (stores env) !! x = Some st' ->
            (x = s /\ st' = g st) \/ (x <> s /\ stores env !! x = Some st')).
  { intros x st' H. rewrite list_lookup_alter in H.
    destruct (decide (s = x)) as [<- | Hne].
    - rewrite Hst in H. injection H as <-. left. auto.
    - right. auto. }
  assert (Hin : forall ev, in_get_queue (set_stores (alter g s) env) ev -> in_get_queue env ev).
  { intros ev (x & st' & H & Hev). destruct (Hlook x st' H) as [[-> ->] | [_ H']].
    - exists s, st. auto.
    - exists x, st'. auto. }
  split; cbn; try apply Hwf.
  - intros x st' H. destruct (Hlook x st' H) as [[-> ->] | [_ H']].
    + rewrite Hcap, Hpq. apply (wf_unbounded _ Hwf s st Hst).
    + apply (wf_unbounded _ Hwf x st' H').
  - intros x st' H. destruct (Hlook x st' H) as [[-> ->] | [_ H']].
    + split; [exact Hnd |]. intros ev Hev.
      apply (wf_get_queue _ Hwf s st Hst), Hsub, Hev.
    + apply (wf_get_queue _ Hwf x st' H').
  - intros s1 s2 st1 st2 ev H1 H2 Hev1 Hev2.
    destruct (Hlook s1 st1 H1) as [[-> ->] | [Hn1 H1']];
      destruct (Hlook s2 st2 H2) as [[-> ->] | [Hn2 H2']]; auto.
    + apply (wf_disjoint _ Hwf s s2 st st2 ev); auto.
    + apply (wf_disjoint _ Hwf s1 s st1 st ev); auto.
    + apply (wf_disjoint _ Hwf s1 s2 st1 st2 ev); auto.
  - intros ev e cbs He Hc. eapply Forall_impl; [apply (wf_callbacks _ Hwf ev e cbs He Hc) |].
    intros [p|x|x|c|]; cbn; auto; try (rewrite length_alter; auto).
    intros [H1 H2]. split; [exact H1 |]. intros H. apply H2, Hin, H.
Qed.

Lemma altered_store_extends (s : nat) (g : Store -> Store) (env : Environment) :
  (forall st ev, stores env !! s = Some st -> ev ∈ get_queue (g st) -> ev ∈ get_queue st) ->
  extends env (set_stores (alter g s) env).
Proof.
  intros Hsub. split; cbn; auto.
  - apply length_alter.
  - intros ev e He. exists e. repeat split; auto.
  - intros ev e' Hlen He. apply lookup_lt_Some in He. lia.
  - intros ev (x & st' & H & Hev). left. cbn in H. rewrite list_lookup_alter in H.
    destruct (decide (s = x)) as [<- | Hne].
    + destruct (stores env !! s) as [st|] eqn:Hst; [| discriminate H].
      injection H as <-. exists s, st. split; [exact Hst | apply (Hsub st ev eq_refl Hev)].
    + exists x, st'. auto.
Qed.

Lemma enqueued_get_wf (s : nat) (env : Environment) (st : Store) :
  env_wf env -> stores env !! s = Some st -> env_wf (enqueued_get s st env).
Proof.
  intros Hwf Hst.
  set (h := length (events env)).
  assert (Hfresh : ~ in_get_queue env h).
  { intros H. apply (in_get_queue_below _ _ Hwf) in H. unfold h in H. lia. }
  assert (Hlook : forall x st',
            alter (set_get_queue (get_queue st ++ [h])) s (stores env) !! x = Some st' ->
            (x = s /\ st' = set_get_queue (get_queue st ++ [h]) st) \/
            (x <> s /\ stores env !! x = Some st')).
  { intros x st' H. rewrite list_lookup_alter in H.
    destruct (decide (s = x)) as [<- | Hne].
    - rewrite Hst in H. injection H as <-. left. auto.
    - right. auto. }
  assert (Hin : forall ev, in_get_queue (enqueued_get s st env) ev -> in_get_queue env ev \/ ev = h).
  { intros ev (x & st' & H & Hev). destruct (Hlook x st' H) as [[-> ->] | [_ H']].
    - cbn in Hev. apply elem_of_app in Hev as [Hev | Hev].
      + left. exists s, st. auto.
      + right. apply list_elem_of_singleton in Hev. exact Hev.
    - left. exists x, st'. auto. }
  assert (Hpend : forall ev, pending env ev -> pending (enqueued_get s st env) ev).
  { intros ev (e & He & Hv). exists e. split; [apply lookup_app_l_Some, He | exact Hv]. }
  assert (Hh : pending (enqueued_get s st env) h).
  { exists (get_request s). split; [apply list_lookup_middle; reflexivity | reflexivity]. }
  split; cbn.
  - intros x Hx. destruct (wf_queue _ Hwf x Hx) as (e & He & Hv). exists e.
    split; [apply lookup_app_l_Some, He | exact Hv].
  - apply (wf_eid _ Hwf).
  - apply (wf_eids _ Hwf).
  - intros x st' H. destruct (Hlook x st' H) as [[-> ->] | [_ H']].
    + apply (wf_unbounded _ Hwf s st Hst).
    + apply (wf_unbounded _ Hwf x st' H').
  - intros x st' H. destruct (Hlook x st' H) as [[-> ->] | [_ H']].
    + destruct (wf_get_queue _ Hwf s st Hst) as [Hnd Hp]. cbn. split.
      * apply NoDup_app. split; [exact Hnd |]. split; [| apply NoDup_singleton].
        intros ev Hev Hev'. apply list_elem_of_singleton in Hev'. subst ev.
        apply Hfresh. exists s, st. auto.
      * intros ev Hev. apply elem_of_app in Hev as [Hev | Hev].
        -- apply Hpend, Hp, Hev.
        -- apply list_elem_of_singleton in Hev. subst ev. exact Hh.
    + destruct (wf_get_queue _ Hwf x st' H') as [Hnd Hp].
      split; [exact Hnd |]. intros ev Hev. apply Hpend, Hp, Hev.
  - intros s1 s2 st1 st2 ev H1 H2 Hev1 Hev2.
    destruct (Hlook s1 st1 H1) as [[-> ->] | [Hn1 H1']];
      destruct (Hlook s2 st2 H2) as [[-> ->] | [Hn2 H2']]; auto; cbn in *.
    + apply elem_of_app in Hev1 as [Hev1 | Hev1].
      * apply (wf_disjoint _ Hwf s s2 st st2 ev); auto.
      * apply list_elem_of_singleton in Hev1. subst ev. exfalso. apply Hfresh.
        exists s2, st2. auto.
    + apply elem_of_app in Hev2 as [Hev2 | Hev2].
      * apply (wf_disjoint _ Hwf s1 s st1 st ev); auto.
      * apply list_elem_of_singleton in Hev2. subst ev. exfalso. apply Hfresh.
        exists s1, st1. auto.
    + apply (wf_disjoint _ Hwf s1 s2 st1 st2 ev); auto.
  - assert (Hmono : forall cb, cb_wf env cb -> cb_wf (enqueued_get s st env) cb).
    { intros [p|x|x|c|]; cbn; auto; try (rewrite length_alter; auto).
      rewrite length_app. intros [H1 H2]. split; [lia |].
      intros H. destruct (Hin c H) as [H' | H']; [auto | unfold h in H'; lia]. }
    intros ev e cbs He Hc. apply lookup_app_Some in He as [He | [Hlen He]].
    + eapply Forall_impl; [apply (wf_callbacks _ Hwf ev e cbs He Hc) | exact Hmono].
    + destruct (ev - length (events env))%nat; [| discriminate He].
      injection He as <-. injection Hc as <-. constructor; [| constructor].
      cbn. rewrite length_alter. eapply lookup_lt_Some, Hst.
  - intros ev e exc He Hv. apply lookup_app_Some in He as [He | [Hlen He]].
    + apply (wf_failed _ Hwf ev e exc He Hv).
    + destruct (ev - length (events env))%nat; [| discriminate He].
      injection He as <-. discriminate Hv.
Qed.

Lemma enqueued_get_extends (s : nat) (env : Environment) (st : Store) :
  stores env !! s = Some st -> extends env (enqueued_get s st env).
Proof.
  intros Hst. split; cbn; auto.
  - apply length_alter.
  - intros ev e He. exists e. split; [apply lookup_app_l_Some, He | repeat split; auto].
  - intros ev e' Hlen He. apply lookup_app_Some in He as [He | [_ He]].
    + apply lookup_lt_Some in He. lia.
    + destruct (ev - length (events env))%nat; [| discriminate He]. injection He as <-.
      reflexivity.
  - intros ev (x & st' & H & Hev). cbn in H. rewrite list_lookup_alter in H.
    destruct (decide (s = x)) as [<- | Hne].
    + rewrite Hst in H. injection H as <-. cbn in Hev.
      apply elem_of_app in Hev as [Hev | Hev].
      * left. exists s, st. auto.
      * right. apply list_elem_of_singleton in Hev. lia.
    + left. exists x, st'. auto.
Qed.

(** *** The operations of the engine *)

Lemma succeeded_wf (ev : nat) (v : pyval) (env : Environment) :
  env_wf env -> pending env ev -> ~ in_get_queue env ev ->
  env_wf (succeeded ev v env) /\ extends env (succeeded ev v env).
Proof.
  intros Hwf (e & He & Hv) Hn.
  set (env1 := set_events (alter (set_value (Succeeded v)) ev) env).
  assert (Hwf1 : env_wf env1).
  { apply (altered_event_wf ev _ env e Hwf He); cbn.
    - discriminate.
    - intros H. contradiction.
    - intros cbs Hc. apply (wf_callbacks _ Hwf ev e cbs He Hc).
    - discriminate. }
  assert (Hext1 : extends env env1).
  { apply altered_event_extends. intros e0 He0. rewrite He in He0. injection He0 as <-.
    cbn. split; [intros H; contradiction |].
    split; [intros [exc Hx]; congruence | split; [reflexivity | tauto]]. }
  assert (He1 : events env1 !! ev = Some (set_value (Succeeded v) e)).
  { subst env1. cbn. rewrite list_lookup_alter_eq, He. reflexivity. }
  change (succeeded ev v env) with (scheduled ev NORMAL 0 env1). split.
  - apply (scheduled_wf ev NORMAL 0 env1 _ Hwf1 He1). discriminate.
  - transitivity env1; [exact Hext1 | apply scheduled_extends].
Qed.

Lemma succeed_safe (ev : nat) (v : pyval) (env : Environment) :
  env_wf env -> pending env ev -> ~ in_get_queue env ev ->
  runs_to (succeed ev v) env (fun _ env' => env' = succeeded ev v env).
Proof.
  intros Hwf Hp Hn. destruct (succeeded_wf ev v env Hwf Hp Hn) as [H1 H2].
  destruct Hp as (e & He & Hv).
  exists tt, (succeeded ev v env). split; [apply (succeed_run ev v env e He Hv) | auto].
Qed.

Lemma timeout_safe (delay : float) (env : Environment) :
  env_wf env -> ((delay <? 0)%float = true -> requested delay) ->
  match timeout delay env with
  | (Return ev, env') =>
      env_wf env' /\ extends env env' /\
      (exists e x, events env' !! ev = Some e /\ callbacks e = Some [] /\
                   x ∈ queue env' /\ entry_event x = ev)
  | (Raise exc, env') => env' = env /\ negative_delay exc
  end.
Proof.
  intros Hwf Hreq. rewrite timeout_run. destruct (delay <? 0)%float eqn:Hd.
  - split; [reflexivity |]. exists delay. auto.
  - set (e := plain_event [] (Succeeded VNone) VNone).
    set (env1 := set_events (fun l => l ++ [e]) env).
    assert (Hwf1 : env_wf env1).
    { apply appended_wf; [exact Hwf | constructor | discriminate]. }
    assert (He1 : events env1 !! length (events env) = Some e).
    { apply list_lookup_middle. reflexivity. }
    change (timeout_scheduled delay env) with (scheduled (length (events env)) NORMAL delay env1).
    split; [apply (scheduled_wf _ NORMAL delay env1 e Hwf1 He1); discriminate |].
    split; [transitivity env1; [apply appended_extends; reflexivity | apply scheduled_extends] |].
    exists e, ((now env + delay)%float, NORMAL, eid env, length (events env)).
    split; [exact He1 |]. split; [reflexivity |]. split; [| reflexivity].
    cbn. apply elem_of_app. right. apply list_elem_of_singleton. reflexivity.
Qed.


Lemma runs_to_bind {A B} (m : E A) (f : A -> E B) (env : Environment)
    (post1 : A -> Environment -> Prop) (post2 : B -> Environment -> Prop) :
  runs_to m env post1 ->
  (forall a env1, env_wf env1 -> extends env env1 -> post1 a env1 -> runs_to (f a) env1 post2) ->
  runs_to (m ≫= f) env post2.
Proof.
  intros (a & env1 & Hrun & Hwf1 & Hext1 & Hp1) Hf.
  destruct (Hf a env1 Hwf1 Hext1 Hp1) as (b & env2 & Hrun2 & Hwf2 & Hext2 & Hp2).
  exists b, env2. split; [rewrite (bind_Return _ _ _ _ _ Hrun); exact Hrun2 |].
  split; [exact Hwf2 |]. split; [transitivity env1; assumption | exact Hp2].
Qed.

Lemma runs_to_ret {A} (a : A) (env : Environment) (post : A -> Environment -> Prop) :
  env_wf env -> post a env -> runs_to (mret a) env post.
Proof. intros Hwf Hp. exists a, env. split; [reflexivity |]. split; [exact Hwf |]. split; [reflexivity | exact Hp]. Qed.

Lemma runs_to_post {A} (m : E A) (env : Environment) (post post' : A -> Environment -> Prop) :
  runs_to m env post -> (forall a env', extends env env' -> post a env' -> post' a env') ->
  runs_to m env post'.
Proof.
  intros (a & env' & Hrun & Hwf & Hext & Hp) H. exists a, env'. auto.
Qed.

Lemma not_in_get_queue_extends (env env' : Environment) (ev : nat) :
  env_wf env -> extends env env' -> (ev < length (events env))%nat ->
  ~ in_get_queue env ev -> ~ in_get_queue env' ev.
Proof.
  intros Hwf Hext Hlt Hn H. destruct (ext_get _ _ Hext ev H) as [H' | H']; [auto | lia].
Qed.

Lemma put_queue_restored (s h : nat) (X : list pyval) (L : list Store) (st : Store) :
  L !! s = Some st -> put_queue st = [] ->
  alter (set_put_queue []) s (alter (set_items X) s (alter (set_put_queue [h]) s L)) =
  alter (set_items X) s L.
Proof.
  intros Hst Hq. apply list_eq. intros i.
  destruct (decide (s = i)) as [<- | Hne].
  - rewrite !list_lookup_alter_eq, Hst. cbn. f_equal. destruct st. cbn in *. subst. reflexivity.
  - rewrite !list_lookup_alter_ne by exact Hne. reflexivity.
Qed.

Lemma put_safe (s : nat) (v : pyval) (env : Environment) :
  env_wf env -> (s < length (stores env))%nat ->
  runs_to (put s v) env (fun ev env' => (ev < length (events env'))%nat).
Proof.
  intros Hwf Hs. apply lookup_lt_is_Some in Hs. destruct Hs as [st Hst].
  destruct (wf_unbounded _ Hwf s st Hst) as [Hcap Hpq].
  set (h := length (events env)).
  set (env1 := set_events (fun l => l ++ [put_request s v]) env).
  set (env2 := set_stores (alter (set_items (items st ++ [v])) s) env1).
  assert (Hrun : put s v env = (Return h, succeeded h VNone env2)).
  { rewrite (put_room s v env st h [] (put_request s v) Hst).
    - f_equal. unfold succeeded, set_stores, set_events. cbn. f_equal.
      apply (put_queue_restored s h _ _ st Hst Hpq).
    - unfold has_room. rewrite Hcap. reflexivity.
    - rewrite Hpq. reflexivity.
    - apply list_lookup_middle. reflexivity.
    - reflexivity. }
  assert (Hwf1 : env_wf env1).
  { apply appended_wf; [exact Hwf | | discriminate].
    cbn. constructor; [| constructor]. cbn. eapply lookup_lt_Some, Hst. }
  assert (Hext1 : extends env env1) by (apply appended_extends; reflexivity).
  assert (Hwf2 : env_wf env2).
  { apply (altered_store_wf s _ env1 st Hwf1 Hst); try reflexivity; [| auto].
    apply (wf_get_queue _ Hwf s st Hst). }
  assert (Hext2 : extends env1 env2) by (apply altered_store_extends; auto).
  assert (Hp : pending env2 h).
  { exists (put_request s v). split; [apply list_lookup_middle; reflexivity | reflexivity]. }
  assert (Hn : ~ in_get_queue env2 h).
  { intros (x & st' & H & Hev). cbn in H. rewrite list_lookup_alter in H.
    assert (Hin : in_get_queue env h).
    { destruct (decide (s = x)) as [<- | Hne].
      - rewrite Hst in H. injection H as <-. exists s, st. auto.
      - exists x, st'. auto. }
    apply (in_get_queue_below _ _ Hwf) in Hin. unfold h in Hin. lia. }
  destruct (succeeded_wf h VNone env2 Hwf2 Hp Hn) as [Hwf3 Hext3].
  exists h, (succeeded h VNone env2). split; [exact Hrun |]. split; [exact Hwf3 |].
  split; [transitivity env1; [exact Hext1 |]; transitivity env2; assumption |].
  cbn. rewrite length_alter, length_app. cbn. unfold h. lia.
Qed.

Lemma trigger_put_safe (s : nat) (env : Environment) :
  env_wf env -> (s < length (stores env))%nat ->
  runs_to (trigger_put s) env (fun _ _ => True).
Proof.
  intros Hwf Hs. apply lookup_lt_is_Some in Hs. destruct Hs as [st Hst].
  destruct (wf_unbounded _ Hwf s st Hst) as [_ Hpq].
  exists tt, env. split; [| split; [exact Hwf | split; [reflexivity | exact I]]].
  unfold trigger_put. rewrite (bind_Return _ _ _ _ _ (deref_Some stores s env st Hst)), Hpq.
  reflexivity.
Qed.

Lemma served_wf (s h : nat) (v : pyval) (rest : list pyval) (r : list nat)
    (env : Environment) (st : Store) :
  env_wf env -> stores env !! s = Some st -> get_queue st = h :: r ->
  env_wf (served s h v rest r env) /\ extends env (served s h v rest r env).
Proof.
  intros Hwf Hst Hq.
  destruct (wf_get_queue _ Hwf s st Hst) as [Hnd Hp]. rewrite Hq in Hnd, Hp.
  apply NoDup_cons in Hnd as [Hh Hnd].
  set (env1 := set_stores (alter (set_items rest) s) env).
  set (env2 := set_stores (alter (set_get_queue r) s) env1).
  assert (Hwf1 : env_wf env1).
  { apply (altered_store_wf s _ env st Hwf Hst); try reflexivity; [| auto].
    apply (wf_get_queue _ Hwf s st Hst). }
  assert (Hst1 : stores env1 !! s = Some (set_items rest st)).
  { subst env1. cbn. rewrite list_lookup_alter_eq, Hst. reflexivity. }
  assert (Hwf2 : env_wf env2).
  { apply (altered_store_wf s _ env1 _ Hwf1 Hst1); try reflexivity; cbn; [exact Hnd |].
    intros ev Hev. rewrite Hq. apply list_elem_of_further, Hev. }
  assert (Hext : extends env env2).
  { transitivity env1; [apply altered_store_extends; auto |].
    apply altered_store_extends. intros st0 ev H0 Hev. rewrite Hst1 in H0.
    injection H0 as <-. cbn in *. rewrite Hq. apply list_elem_of_further, Hev. }
  assert (Hpend : pending env2 h) by (apply Hp; left).
  assert (Hn : ~ in_get_queue env2 h).
  { intros (x & st' & H & Hev). cbn in H.
    destruct (decide (s = x)) as [<- | Hne].
    - rewrite !list_lookup_alter_eq, Hst in H. injection H as <-. cbn in Hev. contradiction.
    - rewrite !list_lookup_alter_ne in H by exact Hne.
      apply Hne. apply (wf_disjoint _ Hwf s x st st' h Hst H); [| exact Hev].
      rewrite Hq. left. }
  destruct (succeeded_wf h v env2 Hwf2 Hpend Hn) as [Hwf3 Hext3].
  split; [exact Hwf3 | transitivity env2; assumption].
Qed.

Lemma do_get_run (s ev : nat) (env : Environment) (st : Store) (e : Event) :
  stores env !! s = Some st -> events env !! ev = Some e -> value e = PENDING ->
  do_get s ev env =
  (Return tt,
   match items st with
   | v :: rest => succeeded ev v (set_stores (alter (set_items rest) s) env)
   | [] => env
   end).
Proof.
  intros Hst He Hv. unfold do_get.
  rewrite (bind_Return _ _ _ _ _ (deref_Some stores s env st Hst)).
  destruct (items st) as [|v rest]; [reflexivity |].
  rewrite (bind_Return _ _ _ _ _ (update_store_run s _ env st Hst)).
  apply (succeed_run ev v _ e); assumption.
Qed.

Lemma trigger_get_run (s : nat) (env : Environment) (st : Store) :
  env_wf env -> stores env !! s = Some st ->
  trigger_get s env =
  (Return tt,
   match get_queue st, items st with
   | h :: r, v :: rest => served s h v rest r env
   | _, _ => env
   end).
Proof.
  intros Hwf Hst. unfold trigger_get.
  rewrite (bind_Return _ _ _ _ _ (deref_Some stores s env st Hst)).
  destruct (get_queue st) as [|h r] eqn:Hq; [reflexivity |].
  destruct (wf_get_queue _ Hwf s st Hst) as [_ Hp].
  destruct (Hp h) as (e & He & Hv); [rewrite Hq; left |].
  rewrite (bind_Return _ _ _ _ _ (do_get_run s h env st e Hst He Hv)).
  destruct (items st) as [|v rest] eqn:Hi.
  - rewrite (bind_Return _ _ _ _ _ (deref_Some events h env e He)).
    unfold triggered. rewrite Hv. reflexivity.
  - set (env2 := succeeded h v _).
    assert (He2 : events env2 !! h = Some (set_value (Succeeded v) e)).
    { subst env2. cbn. rewrite list_lookup_alter_eq, He. reflexivity. }
    rewrite (bind_Return _ _ _ _ _ (deref_Some events h env2 _ He2)).
    cbn [triggered set_value value].
    assert (Hs2 : stores env2 !! s = Some (set_items rest st)).
    { subst env2. cbn. rewrite list_lookup_alter_eq, Hst. reflexivity. }
    rewrite (update_store_run s _ env2 _ Hs2). reflexivity.
Qed.

Lemma trigger_get_safe (s : nat) (env : Environment) :
  env_wf env -> (s < length (stores env))%nat ->
  runs_to (trigger_get s) env (fun _ _ => True).
Proof.
  intros Hwf Hs. apply lookup_lt_is_Some in Hs. destruct Hs as [st Hst].
  eexists tt, _. split; [apply (trigger_get_run s env st Hwf Hst) |].
  destruct (get_queue st) as [|h r] eqn:Hq.
  { split; [exact Hwf | split; [reflexivity | exact I]]. }
  destruct (items st) as [|v rest] eqn:Hi.
  { split; [exact Hwf | split; [reflexivity | exact I]]. }
  destruct (served_wf s h v rest r env st Hwf Hst Hq) as [H1 H2]. auto.
Qed.

Lemma get_safe (s : nat) (env : Environment) :
  env_wf env -> (s < length (stores env))%nat ->
  runs_to (get s) env
    (fun ev env' => ev = length (events env) /\
                    exists e cbs, events env' !! ev = Some e /\ callbacks e = Some cbs /\
                                  resumes e = []).
Proof.
  intros Hwf Hs. apply lookup_lt_is_Some in Hs. destruct Hs as [st Hst].
  set (h := length (events env)).
  set (env2 := enqueued_get s st env).
  assert (Hwf2 : env_wf env2) by (apply enqueued_get_wf; assumption).
  assert (Hext2 : extends env env2) by (apply enqueued_get_extends; assumption).
  assert (Hst2 : stores env2 !! s = Some (set_get_queue (get_queue st ++ [h]) st)).
  { subst env2. cbn. rewrite list_lookup_alter_eq, Hst. reflexivity. }
  assert (He2 : events env2 !! h = Some (get_request s)).
  { apply list_lookup_middle. reflexivity. }
  assert (Hrun : get s env = (Return h, (trigger_get s env2).2)).
  { unfold get. rewrite (bind_Return _ _ _ _ _ (deref_Some stores s env st Hst)).
    unfold new_event at 1. rewrite bind_run. cbv beta iota.
    set (env1 := set_events _ env).
    assert (Hs1 : stores env1 !! s = Some st) by exact Hst.
    rewrite (bind_Return _ _ _ _ _ (update_store_run s _ env1 st Hs1)).
    change (set_stores _ env1) with env2.
    rewrite (bind_Return _ _ _ _ _ (trigger_get_run s env2 _ Hwf2 Hst2)).
    rewrite (trigger_get_run s env2 _ Hwf2 Hst2). reflexivity. }
  assert (Hs2 : (s < length (stores env2))%nat) by (eapply lookup_lt_Some, Hst2).
  destruct (trigger_get_safe s env2 Hwf2 Hs2) as ([] & env3 & Hrun3 & Hwf3 & Hext3 & _).
  rewrite Hrun3 in Hrun. cbn in Hrun.
  exists h, env3. split; [exact Hrun |]. split; [exact Hwf3 |].
  split; [transitivity env2; assumption |]. split; [reflexivity |].
  destruct (ext_events _ _ Hext3 h _ He2) as (e' & He' & _ & _ & Hr & Hc).
  exists e'. destruct (callbacks e') as [cbs|] eqn:Hcb.
  - exists cbs. auto.
  - exfalso. assert (Hnone : callbacks (get_request s) = None) by (apply Hc; reflexivity).
    discriminate Hnone.
Qed.


Lemma Condition_check_safe (c : nat) (env : Environment) :
  env_wf env -> (c < length (events env))%nat -> ~ in_get_queue env c ->
  runs_to (Condition_check c) env (fun _ _ => True).
Proof.
  intros Hwf Hc Hn. apply lookup_lt_is_Some in Hc. destruct Hc as [e He].
  unfold Condition_check, runs_to.
  rewrite (bind_Return _ _ _ _ _ (deref_Some events c env e He)).
  destruct (triggered e) eqn:Ht.
  { exists tt, env. split; [reflexivity |]. split; [exact Hwf |]. split; [reflexivity | exact I]. }
  assert (Hv : value e = PENDING).
  { unfold triggered in Ht. destruct (value e); [reflexivity | discriminate..]. }
  set (env1 := set_events (alter (set_cond_count (S (cond_count e))) c) env).
  assert (Hwf1 : env_wf env1).
  { apply (altered_event_wf c _ env e Hwf He); cbn; auto.
    - intros cbs Hcb. apply (wf_callbacks _ Hwf c e cbs He Hcb).
    - intros exc Hx. apply (wf_failed _ Hwf c e exc He Hx). }
  assert (Hext1 : extends env env1).
  { apply altered_event_extends. intros e0 He0. cbn. repeat split; auto. }
  rewrite (bind_Return _ _ _ _ _ (update_event_run c _ env e He)). fold env1.
  destruct (bool_decide _).
  - assert (Hp1 : pending env1 c).
    { exists (set_cond_count (S (cond_count e)) e). split; [| exact Hv].
      subst env1. cbn. rewrite list_lookup_alter_eq, He. reflexivity. }
    assert (Hn1 : ~ in_get_queue env1 c) by exact Hn.
    destruct (succeed_safe c VNone env1 Hwf1 Hp1 Hn1) as ([] & env2 & Hrun & Hwf2 & Hext2 & _).
    exists tt, env2. split; [exact Hrun |]. split; [exact Hwf2 |].
    split; [transitivity env1; assumption | exact I].
  - exists tt, env1. split; [reflexivity |]. split; [exact Hwf1 |]. split; [exact Hext1 | exact I].
Qed.

Lemma resumes_snoc (e : Event) (cbs : list callback) (cb : callback) :
  callbacks e = Some cbs ->
  resumes (set_callbacks (Some (cbs ++ [cb])) e) = resumes e ++ option_list (resume_of cb).
Proof.
  intros Hc. unfold resumes. rewrite Hc. cbn. rewrite omap_app. cbn.
  destruct (resume_of cb); reflexivity.
Qed.

Lemma add_callback_wf (ev : nat) (cb : callback) (env : Environment) (e : Event)
    (cbs : list callback) :
  env_wf env -> events env !! ev = Some e -> callbacks e = Some cbs -> cb_wf env cb ->
  add_callback ev cb env =
    (Return tt, set_events (alter (set_callbacks (Some (cbs ++ [cb]))) ev) env) /\
  env_wf (set_events (alter (set_callbacks (Some (cbs ++ [cb]))) ev) env).
Proof.
  intros Hwf He Hc Hcb. split.
  - unfold add_callback. rewrite (bind_Return _ _ _ _ _ (deref_Some events ev env e He)), Hc.
    apply (update_event_run ev _ env e He).
  - apply (altered_event_wf ev _ env e Hwf He); cbn; auto.
    + intros H. destruct (in_get_queue_valid _ _ Hwf H) as (e0 & He0 & Hv0). congruence.
    + intros cbs' H'. injection H' as <-. apply Forall_app. split.
      * apply (wf_callbacks _ Hwf ev e cbs He Hc).
      * constructor; [exact Hcb | constructor].
    + intros exc Hx. apply (wf_failed _ Hwf ev e exc He Hx).
Qed.

Lemma add_callback_safe (ev : nat) (cb : callback) (env : Environment) (e : Event)
    (cbs : list callback) :
  env_wf env -> events env !! ev = Some e -> callbacks e = Some cbs -> cb_wf env cb ->
  resume_of cb = None ->
  runs_to (add_callback ev cb) env (fun _ _ => True).
Proof.
  intros Hwf He Hc Hcb Hr. destruct (add_callback_wf ev cb env e cbs Hwf He Hc Hcb) as [Hrun Hwf1].
  eexists tt, _. split; [exact Hrun |]. split; [exact Hwf1 |]. split; [| exact I].
  apply altered_event_extends. intros e0 He0. rewrite He in He0. injection He0 as <-.
  split; [auto |]. split.
  - auto.
  - split; [rewrite (resumes_snoc e cbs cb Hc), Hr; cbn; apply app_nil_r |].
    cbn. rewrite Hc. split; discriminate.
Qed.

Lemma all_of_register_safe (cond ev : nat) (env : Environment) :
  env_wf env -> (ev < length (events env))%nat ->
  (cond < length (events env))%nat -> ~ in_get_queue env cond ->
  runs_to (all_of_register cond ev) env (fun _ _ => True).
Proof.
  intros Hwf Hev Hc Hn. apply lookup_lt_is_Some in Hev. destruct Hev as [e He].
  unfold all_of_register, runs_to.
  rewrite (bind_Return _ _ _ _ _ (deref_Some events ev env e He)).
  destruct (callbacks e) as [cbs|] eqn:Hcb.
  - apply (add_callback_safe ev _ env e cbs Hwf He Hcb); [| reflexivity]. split; assumption.
  - apply Condition_check_safe; assumption.
Qed.

Lemma all_of_registers_safe (cond : nat) (evs : list nat) (env : Environment) :
  env_wf env -> Forall (fun ev => ev < length (events env))%nat evs ->
  (cond < length (events env))%nat -> ~ in_get_queue env cond ->
  runs_to (mapM (all_of_register cond) evs) env (fun _ _ => True).
Proof.
  revert env. induction evs as [|ev evs IH]; intros env Hwf Hevs Hc Hn.
  - apply runs_to_ret; auto.
  - apply Forall_cons in Hevs as [Hev Hevs]. cbn [mapM].
    eapply runs_to_bind; [apply all_of_register_safe; assumption |].
    intros [] env1 Hwf1 Hext1 _.
    pose proof (extends_length _ _ Hext1) as Hlen.
    eapply runs_to_bind.
    + apply IH; [exact Hwf1 | | lia |].
      * eapply Forall_impl; [exact Hevs |]. cbn. intros x Hx. lia.
      * apply (not_in_get_queue_extends env env1 cond Hwf Hext1 Hc Hn).
    + intros l env2 Hwf2 _ _. apply runs_to_ret; auto.
Qed.

Lemma all_of_safe (evs : list nat) (env : Environment) :
  env_wf env -> Forall (fun ev => ev < length (events env))%nat evs ->
  runs_to (all_of evs) env (fun _ _ => True).
Proof.
  intros Hwf Hevs. unfold all_of.
  set (c := mkEvent (Some []) PENDING VNone evs 0).
  set (env1 := set_events (fun l => l ++ [c]) env).
  assert (Hwf1 : env_wf env1) by (apply appended_wf; [exact Hwf | constructor | discriminate]).
  assert (Hext1 : extends env env1) by (apply appended_extends; reflexivity).
  assert (Hnew : runs_to (new_event c) env
                   (fun cond env' => cond = length (events env) /\ env' = env1)).
  { exists (length (events env)), env1. auto. }
  eapply runs_to_bind; [exact Hnew |].
  intros cond env' _ _ [-> ->].
  assert (Hc : (length (events env) < length (events env1))%nat).
  { subst env1. cbn. rewrite length_app. cbn. lia. }
  assert (Hn : ~ in_get_queue env1 (length (events env))).
  { intros H. assert (Hin : in_get_queue env (length (events env))) by exact H.
    apply (in_get_queue_below _ _ Hwf) in Hin. lia. }
  destruct evs as [|ev evs'] eqn:Hevs'.
  - eapply runs_to_bind.
    + apply succeed_safe; [exact Hwf1 | | exact Hn].
      exists c. split; [apply list_lookup_middle; reflexivity | reflexivity].
    + intros [] env2 Hwf2 _ _. apply runs_to_ret; auto.
  - rewrite <- Hevs'. eapply runs_to_bind.
    + apply all_of_registers_safe; [exact Hwf1 | | exact Hc | exact Hn].
      rewrite <- Hevs' in Hevs. eapply Forall_impl; [exact Hevs |].
      intros x Hx. eapply Nat.lt_trans; [exact Hx | exact Hc].
    + intros l env2 Hwf2 _ _. apply runs_to_ret; auto.
Qed.

Lemma puts_safe (v : pyval) (ss : list nat) (env : Environment) :
  env_wf env -> Forall (fun s => s < length (stores env))%nat ss ->
  runs_to (mapM (fun store => put store v) ss) env
    (fun evs env' => Forall (fun ev => ev < length (events env'))%nat evs).
Proof.
  revert env. induction ss as [|s ss IH]; intros env Hwf Hss.
  - apply runs_to_ret; [exact Hwf | constructor].
  - apply Forall_cons in Hss as [Hs Hss]. cbn [mapM].
    eapply runs_to_bind; [apply put_safe; assumption |].
    intros ev env1 Hwf1 Hext1 Hev.
    eapply runs_to_bind.
    + apply IH; [exact Hwf1 |]. rewrite (ext_stores _ _ Hext1). exact Hss.
    + intros evs env2 Hwf2 Hext2 Hevs. apply runs_to_ret; [exact Hwf2 |].
      constructor; [| exact Hevs]. pose proof (extends_length _ _ Hext2). cbn beta in *. lia.
Qed.

End engine_safety.

Section run_safety.
Context {mode : stop_mode}.

(** ** The generators *)

Lemma waitable_timeout (delay : float) (env : simpy.Environment) :
  env_wf env -> ((delay <? 0)%float = true -> requested delay) ->
  match simpy.timeout delay env with
  | (Return ev, env') =>
      env_wf env' /\ extends env env' /\ waitable env' ev /\ queued env' ev
  | (Raise exc, env') => env' = env /\ negative_delay exc
  end.
Proof.
  intros Hwf Hreq. pose proof (timeout_safe delay env Hwf Hreq) as H.
  destruct (simpy.timeout delay env) as [[ev|exc] env']; [| exact H].
  destruct H as (H1 & H2 & e & x & He & Hc & Hx & Hev).
  split; [exact H1 |]. split; [exact H2 |]. split.
  - exists e, []. split; [exact He |]. split; [exact Hc |]. unfold resumes. rewrite Hc. reflexivity.
  - exists x. auto.
Qed.

Lemma BroadcastPipe_put_safe (bp : nat) (v : pyval) (w : TRNG.t) :
  env_wf (TRNG.env w) -> pipe_valid w bp ->
  exists cond env',
    BroadcastPipe_put bp v w = (Return cond, TRNG.set_env (fun _ => env') w) /\
    env_wf env' /\ extends (TRNG.env w) env'.
Proof.
  intros Hwf (p & Hbp & Hne & Hall).
  destruct (puts_safe v _ _ Hwf Hall) as (evs & env1 & Hrun1 & Hwf1 & Hext1 & Hevs).
  destruct (all_of_safe evs env1 Hwf1 Hevs) as (cond & env2 & Hrun2 & Hwf2 & Hext2 & _).
  exists cond, env2. split; [| split; [exact Hwf2 | transitivity env1; assumption]].
  unfold BroadcastPipe_put.
  rewrite (bind_Return _ _ _ _ _ (deref_Some TRNG.bpipes bp w p Hbp)).
  destruct (BroadcastPipe.pipes p) as [|s0 ss] eqn:Hp; [contradiction |].
  rewrite (bind_Return _ _ _ _ _ (lift_Return _ w _ _ Hrun1)).
  apply (lift_Return (simpy.all_of evs) (TRNG.set_env (fun _ => env1) w) cond env2 Hrun2).
Qed.

Lemma await_safe (store : nat) {pc : Type} (at_get : pc) (w : TRNG.t) :
  env_wf (TRNG.env w) -> (store < length (simpy.stores (TRNG.env w)))%nat ->
  exists ev env',
    await store at_get w = (Return (at_get, ev), TRNG.set_env (fun _ => env') w) /\
    env_wf env' /\ extends (TRNG.env w) env' /\ waitable env' ev.
Proof.
  intros Hwf Hs.
  destruct (get_safe store _ Hwf Hs) as (ev & env' & Hrun & Hwf' & Hext & _ & Hw).
  exists ev, env'. split; [| auto].
  unfold await. rewrite (lift_Return _ w _ _ Hrun). reflexivity.
Qed.

(** The outcome of a generator resumed in a well-formed state: the event it
    yields can be waited for (and is queued when [queues] holds), or the
    exception is the one of a negative delay; in both cases the environment
    left is well formed and comes after the one of [w]. *)
Lemma RO_wait_safe (self : ro_ref) (w : TRNG.t) :
  env_wf (TRNG.env w) -> (forall z, requested (jittered_wait (the_RO self w) z)) ->
  match RO_wait self w with
  | (Return ev, w') =>
      env_wf (TRNG.env w') /\ extends (TRNG.env w) (TRNG.env w') /\
      waitable (TRNG.env w') ev /\ queued (TRNG.env w') ev
  | (Raise exc, w') =>
      env_wf (TRNG.env w') /\ extends (TRNG.env w) (TRNG.env w') /\ negative_delay exc
  end.
Proof.
  intros Hwf Hreq. rewrite RO_wait_run.
  pose proof (waitable_timeout (sampled_wait self w) (TRNG.env w) Hwf
                (fun _ => Hreq (TRNG.variates w (TRNG.random_pos w)))) as H.
  rewrite timeout_run in H. destruct (sampled_wait self w <? 0)%float.
  - destruct H as [_ H]. split; [exact Hwf |]. split; [reflexivity | exact H].
  - exact H.
Qed.

Lemma jittered_wait_logged (self : ro_ref) (w : TRNG.t) (z : float) :
  jittered_wait (the_RO self (RO_logged self w)) z = jittered_wait (the_RO self w) z.
Proof. unfold RO_logged. destruct self; destruct (RO.verbose _); reflexivity. Qed.

Lemma jittered_wait_toggled (self : ro_ref) (w : TRNG.t) (z : float) :
  jittered_wait (the_RO self (toggled self w)) z = jittered_wait (the_RO self w) z.
Proof. destruct self; reflexivity. Qed.

Lemma env_RO_logged (self : ro_ref) (w : TRNG.t) : TRNG.env (RO_logged self w) = TRNG.env w.
Proof. unfold RO_logged. destruct self; destruct (RO.verbose _); reflexivity. Qed.

Lemma env_toggled (self : ro_ref) (w : TRNG.t) : TRNG.env (toggled self w) = TRNG.env w.
Proof. destruct self; reflexivity. Qed.

Lemma pipe_valid_env (w w' : TRNG.t) (bp : nat) :
  TRNG.bpipes w' = TRNG.bpipes w ->
  length (simpy.stores (TRNG.env w')) = length (simpy.stores (TRNG.env w)) ->
  pipe_valid w bp -> pipe_valid w' bp.
Proof. intros Hb Hl (p & H1 & H2 & H3). exists p. rewrite Hb, Hl. auto. Qed.

Lemma RO_run_safe (self : ro_ref) (pc : RO_pc) (sent : pyval) (w : TRNG.t) :
  env_wf (TRNG.env w) -> wired w ->
  match RO_run self pc sent w with
  | (Return (pc', ev), w') =>
      env_wf (TRNG.env w') /\ extends (TRNG.env w) (TRNG.env w') /\
      waitable (TRNG.env w') ev /\ queued (TRNG.env w') ev
  | (Raise exc, w') =>
      env_wf (TRNG.env w') /\ extends (TRNG.env w) (TRNG.env w') /\ negative_delay exc
  end.
Proof.
  intros Hwf Hwired.
  assert (Hwait : forall w0, env_wf (TRNG.env w0) -> extends (TRNG.env w) (TRNG.env w0) ->
            (forall z, jittered_wait (the_RO self w0) z = jittered_wait (the_RO self w) z) ->
            match (match RO_wait self w0 with
                   | (Return ev, w') => (Return (RO_half_wait, ev), w')
                   | (Raise e, w') => (Raise e, w')
                   end) with
            | (Return (pc', ev), w') =>
                env_wf (TRNG.env w') /\ extends (TRNG.env w) (TRNG.env w') /\
                waitable (TRNG.env w') ev /\ queued (TRNG.env w') ev
            | (Raise exc, w') =>
                env_wf (TRNG.env w') /\ extends (TRNG.env w) (TRNG.env w') /\ negative_delay exc
            end).
  { intros w0 Hwf0 Hext0 Hcfg.
    assert (Hreq : forall z, requested (jittered_wait (the_RO self w0) z)).
    { intros z. rewrite Hcfg. apply (wired_wait _ Hwired). }
    pose proof (RO_wait_safe self w0 Hwf0 Hreq) as H.
    destruct (RO_wait self w0) as [[ev|exc] w1].
    - destruct H as (H1 & H2 & H3 & H4). split; [exact H1 |].
      split; [transitivity (TRNG.env w0); assumption | auto].
    - destruct H as (H1 & H2 & H3). split; [exact H1 |].
      split; [transitivity (TRNG.env w0); assumption | auto]. }
  destruct pc.
  - destruct (RO.out_pipe (the_RO self w)) as [bp|] eqn:Hout.
    + rewrite (RO_run_start_sink self sent w bp Hout).
      pose proof (waitable_timeout (RO.period (the_RO self w) / 4) (TRNG.env w) Hwf
                    (fun _ => wired_offset _ Hwired self bp Hout)) as H.
      rewrite timeout_run in H. destruct (_ <? 0)%float.
      * destruct H as [_ H]. split; [exact Hwf |]. split; [reflexivity | exact H].
      * exact H.
    + rewrite (RO_run_start_no_sink self sent w Hout).
      apply Hwait; [exact Hwf | reflexivity | reflexivity].
  - rewrite RO_run_offset_wait. apply Hwait; [exact Hwf | reflexivity | reflexivity].
  - destruct (RO.out_pipe (the_RO self w)) as [bp|] eqn:Hout.
    + assert (Hv : pipe_valid (toggled self w) bp).
      { apply (pipe_valid_env w); [destruct self; reflexivity | rewrite env_toggled; reflexivity |].
        apply (wired_ro _ Hwired self bp Hout). }
      assert (Hwft : env_wf (TRNG.env (toggled self w))) by (rewrite env_toggled; exact Hwf).
      destruct (BroadcastPipe_put_safe bp (VBool (negb (RO.state (the_RO self w))))
                  (toggled self w) Hwft Hv) as (cond & env' & Hput & Hwf' & Hext').
      rewrite env_toggled in Hext'.
      rewrite (RO_run_half_wait_sink self sent w bp cond env' Hout Hput).
      apply Hwait; rewrite ?env_RO_logged; [assumption | assumption |].
      intros z. rewrite jittered_wait_logged. apply (jittered_wait_toggled self w z).
    + rewrite (RO_run_half_wait_no_sink self sent w Hout).
      apply Hwait; rewrite ?env_RO_logged, ?env_toggled; [exact Hwf | reflexivity |].
      intros z. rewrite jittered_wait_logged. apply jittered_wait_toggled.
Qed.

Lemma await_yields_ok (store : nat) {pc : Type} (at_get : pc) (w0 w : TRNG.t) :
  env_wf (TRNG.env w) -> extends (TRNG.env w0) (TRNG.env w) ->
  (store < length (simpy.stores (TRNG.env w)))%nat ->
  yields_ok w0 (await store at_get w).
Proof.
  intros Hwf Hext Hs.
  destruct (await_safe store at_get w Hwf Hs) as (ev & env' & -> & Hwf' & Hext' & Hw).
  cbn. split; [exact Hwf' |]. split; [transitivity (TRNG.env w); assumption | exact Hw].
Qed.

Lemma FF_run_safe (pc : FF_pc) (sent : pyval) (w : TRNG.t) :
  env_wf (TRNG.env w) -> wired w -> yields_ok w (FF_run pc sent w).
Proof.
  intros Hwf Hwired. destruct pc.
  - change (FF_run FF_start sent w) with (await (FF.i_clk_pipe (TRNG.beat_ff w)) FF_get w).
    apply await_yields_ok; [exact Hwf | reflexivity | apply (wired_ff_in _ Hwired)].
  - destruct (truthy sent) eqn:Hsent.
    + rewrite (FF_run_true sent w Hsent).
      assert (Hv : pipe_valid (FF_latched w) (FF.o_beat_pipe (TRNG.beat_ff w))).
      { apply (pipe_valid_env w); [reflexivity | reflexivity | apply (wired_ff_out _ Hwired)]. }
      destruct (BroadcastPipe_put_safe (FF.o_beat_pipe (TRNG.beat_ff w))
                  (state_of (FF.i_data (TRNG.beat_ff w)) w) (FF_latched w) Hwf Hv)
        as (cond & env' & -> & Hwf' & Hext').
      apply await_yields_ok; [exact Hwf' | exact Hext' |].
      cbn. rewrite (ext_stores _ _ Hext'). apply (wired_ff_in _ Hwired).
    + rewrite (FF_run_false sent w Hsent).
      apply await_yields_ok; [exact Hwf | reflexivity | apply (wired_ff_in _ Hwired)].
Qed.

Lemma env_Counter_logged (w : TRNG.t) : TRNG.env (Counter_logged w) = TRNG.env w.
Proof. unfold Counter_logged. destruct (Counter.verbose _); reflexivity. Qed.

Lemma env_Counter_counted (w : TRNG.t) : TRNG.env (Counter_counted w) = TRNG.env w.
Proof. unfold Counter_counted, Counter_branched. destruct (reset_event w); reflexivity. Qed.

Lemma clk_Counter_counted (w : TRNG.t) :
  Counter.i_clk_pipe (TRNG.counter (Counter_counted w)) = Counter.i_clk_pipe (TRNG.counter w).
Proof. unfold Counter_counted, Counter_branched. destruct (reset_event w); reflexivity. Qed.

Lemma clk_Counter_logged (w : TRNG.t) :
  Counter.i_clk_pipe (TRNG.counter (Counter_logged w)) = Counter.i_clk_pipe (TRNG.counter w).
Proof. unfold Counter_logged. destruct (Counter.verbose _); reflexivity. Qed.

Lemma settle_delay_not_negative : (settle_delay <? 0)%float = false.
Proof. reflexivity. Qed.

Lemma Counter_run_safe (pc : Counter_pc) (sent : pyval) (w : TRNG.t) :
  env_wf (TRNG.env w) -> wired w -> yields_ok w (Counter_run pc sent w).
Proof.
  intros Hwf Hwired. destruct pc.
  - change (Counter_run Counter_start sent w)
      with (await (Counter.i_clk_pipe (TRNG.counter w)) Counter_get w).
    apply await_yields_ok; [exact Hwf | reflexivity | apply (wired_counter_in _ Hwired)].
  - destruct (truthy sent) eqn:Hsent.
    + rewrite (Counter_run_get_true sent w Hsent).
      assert (Hreq : (settle_delay <? 0)%float = true -> requested settle_delay).
      { rewrite settle_delay_not_negative. discriminate. }
      pose proof (waitable_timeout settle_delay (TRNG.env w) Hwf Hreq) as H.
      rewrite timeout_run, settle_delay_not_negative in H.
      destruct H as (H1 & H2 & H3 & _). cbn. auto.
    + rewrite (Counter_run_get_false sent w Hsent).
      apply await_yields_ok; [exact Hwf | reflexivity | apply (wired_counter_in _ Hwired)].
  - rewrite Counter_run_settle, Counter_clocked_run.
    assert (Hwfl : env_wf (TRNG.env (Counter_logged w))) by (rewrite env_Counter_logged; exact Hwf).
    assert (Hs : (Counter.o_Q_pipe (TRNG.counter w)
                  < length (simpy.stores (TRNG.env (Counter_logged w))))%nat).
    { rewrite env_Counter_logged. apply (wired_counter_out _ Hwired). }
    destruct (put_safe _ (VInt (Counter.count (TRNG.counter w))) _ Hwfl Hs)
      as (ev & env1 & Hrun & Hwf1 & Hext1 & _).
    rewrite (lift_Return _ _ _ _ Hrun). rewrite env_Counter_logged in Hext1.
    set (w1 := TRNG.set_env (fun _ => env1) (Counter_logged w)).
    apply await_yields_ok.
    + rewrite env_Counter_counted. exact Hwf1.
    + rewrite env_Counter_counted. exact Hext1.
    + rewrite env_Counter_counted, clk_Counter_counted. subst w1. cbn.
      rewrite clk_Counter_logged, (ext_stores _ _ Hext1). apply (wired_counter_in _ Hwired).
Qed.

Lemma RandOut_run_get (i_clk : pyval) (w : TRNG.t) :
  RandOut_run RandOut_get i_clk w =
  await (RandOut.i_clk_pipe (TRNG.rand_out w)) RandOut_get (RandOut_sampled i_clk w).
Proof.
  unfold RandOut_sampled. rewrite RandOut_received_rand_out.
  unfold RandOut_run, await, sampled. mcbv.
  destruct (truthy i_clk && negb (truthy (RandOut.old_i_clk (TRNG.rand_out w)))).
  - destruct (RandOut.verbose (TRNG.rand_out w)); mcbv; reflexivity.
  - mcbv. reflexivity.
Qed.

Lemma RandOut_run_safe (pc : RandOut_pc) (sent : pyval) (w : TRNG.t) :
  env_wf (TRNG.env w) -> wired w -> yields_ok w (RandOut_run pc sent w).
Proof.
  intros Hwf Hwired. destruct pc.
  - change (RandOut_run RandOut_start sent w)
      with (await (RandOut.i_clk_pipe (TRNG.rand_out w)) RandOut_get w).
    apply await_yields_ok; [exact Hwf | reflexivity | apply (wired_rand_in _ Hwired)].
  - rewrite RandOut_run_get.
    apply await_yields_ok; [exact Hwf | reflexivity | apply (wired_rand_in _ Hwired)].
Qed.

Lemma send_safe (g : generator) (v : pyval) (w : TRNG.t) :
  env_wf (TRNG.env w) -> wired w ->
  match send g v w with
  | (Return (g', ev), w') =>
      env_wf (TRNG.env w') /\ extends (TRNG.env w) (TRNG.env w') /\ waitable (TRNG.env w') ev /\
      (is_RO_gen g -> is_RO_gen g' /\ queued (TRNG.env w') ev)
  | (Raise exc, w') =>
      env_wf (TRNG.env w') /\ extends (TRNG.env w) (TRNG.env w') /\ negative_delay exc
  end.
Proof.
  intros Hwf Hwired. destruct g as [self pc|pc|pc|pc]; cbn [send]; rewrite bind_run.
  - pose proof (RO_run_safe self pc v w Hwf Hwired) as H.
    destruct (RO_run self pc v w) as [[[pc' ev]|exc] w']; [| exact H].
    destruct H as (H1 & H2 & H3 & H4). cbn.
    split; [exact H1 |]. split; [exact H2 |]. split; [exact H3 |].
    intros _. split; [exact I | exact H4].
  - pose proof (FF_run_safe pc v w Hwf Hwired) as H. unfold yields_ok in H.
    destruct (FF_run pc v w) as [[[pc' ev]|exc] w']; [| exact H].
    destruct H as (H1 & H2 & H3). cbn.
    split; [exact H1 |]. split; [exact H2 |]. split; [exact H3 | intros []].
  - pose proof (Counter_run_safe pc v w Hwf Hwired) as H. unfold yields_ok in H.
    destruct (Counter_run pc v w) as [[[pc' ev]|exc] w']; [| exact H].
    destruct H as (H1 & H2 & H3). cbn.
    split; [exact H1 |]. split; [exact H2 |]. split; [exact H3 | intros []].
  - pose proof (RandOut_run_safe pc v w Hwf Hwired) as H. unfold yields_ok in H.
    destruct (RandOut_run pc v w) as [[[pc' ev]|exc] w']; [| exact H].
    destruct H as (H1 & H2 & H3). cbn.
    split; [exact H1 |]. split; [exact H2 |]. split; [exact H3 | intros []].
Qed.

(** ** Processes *)

Lemma Process_resume_ok (p : simpy.proc) (event next : nat) (w w' : TRNG.t)
    (e en : simpy.Event) (g g' : generator) (cbs : list simpy.callback) :
  simpy.events (TRNG.env w) !! event = Some e ->
  gen (TRNG.procs w p) = Some g ->
  resumed_with g e w = (Return (g', next), w') ->
  simpy.events (TRNG.env w') !! next = Some en ->
  simpy.callbacks en = Some cbs ->
  Process_resume p event w = (Return tt, process_waits p g' next cbs w').
Proof.
  intros He Hg Hsend Hn Hc. unfold Process_resume.
  rewrite (bind_Return _ _ _ _ _ (lift_deref_events w event e He)).
  mcbv. rewrite Hg. unfold resumed_with in Hsend.
  destruct (simpy.value e) as [|v|exc0]; [discriminate Hsend | | discriminate Hsend].
  rewrite Hsend.
  assert (Hadd : simpy.add_callback next (simpy.Process_resume_cb p) (TRNG.env w') =
                 (Return tt, hooked p next cbs (TRNG.env w'))).
  { unfold simpy.add_callback.
    rewrite (bind_Return _ _ _ _ _ (deref_Some simpy.events next _ en Hn)), Hc.
    apply (update_event_run next _ _ en Hn). }
  rewrite (lift_Return _ w' tt _ Hadd). reflexivity.
Qed.

Lemma Process_resume_failed (p : simpy.proc) (event : nat) (w w' : TRNG.t)
    (e : simpy.Event) (g : generator) (exc : exn) :
  simpy.events (TRNG.env w) !! event = Some e ->
  gen (TRNG.procs w p) = Some g ->
  resumed_with g e w = (Raise exc, w') ->
  pevent (TRNG.procs w' p) = pevent (TRNG.procs w p) ->
  (pevent (TRNG.procs w p) < length (simpy.events (TRNG.env w')))%nat ->
  Process_resume p event w = (Return tt, process_failed p (pevent (TRNG.procs w p)) exc w').
Proof.
  intros He Hg Hsend Hpe Hvalid. unfold Process_resume.
  rewrite (bind_Return _ _ _ _ _ (lift_deref_events w event e He)).
  mcbv. rewrite Hg. unfold resumed_with, raise in Hsend.
  destruct (lookup_lt_is_Some_2 _ _ Hvalid) as [pe Hlook].
  destruct (simpy.value e) as [|v|exc0];
    [injection Hsend as <- <- | rewrite Hsend | injection Hsend as <- <-];
    cbv beta iota; unfold set_process; mcbv; rewrite ?Hpe;
    (set (w1 := TRNG.set_proc p _ _);
     assert (Hlook1 : simpy.events (TRNG.env w1) !! pevent (TRNG.procs w p) = Some pe)
       by exact Hlook;
     rewrite (lift_Return _ w1 tt _ (update_event_run _ _ _ pe Hlook1));
     reflexivity).
Qed.

(** ** Stability of the invariants *)

Lemma wired_stable (w w' : TRNG.t) :
  wired w -> same_wiring w w' ->
  length (simpy.stores (TRNG.env w')) = length (simpy.stores (TRNG.env w)) ->
  wired w'.
Proof.
  intros Hw Hs Hl. unfold same_wiring, wiring, RO_config in Hs.
  assert (Hb : TRNG.bpipes w' = TRNG.bpipes w) by congruence.
  assert (H1 : RO.out_pipe (TRNG.ro1 w') = RO.out_pipe (TRNG.ro1 w)) by congruence.
  assert (H2 : RO.out_pipe (TRNG.ro2 w') = RO.out_pipe (TRNG.ro2 w)) by congruence.
  assert (H3 : FF.o_beat_pipe (TRNG.beat_ff w') = FF.o_beat_pipe (TRNG.beat_ff w)) by congruence.
  assert (H4 : FF.i_clk_pipe (TRNG.beat_ff w') = FF.i_clk_pipe (TRNG.beat_ff w)) by congruence.
  assert (H5 : Counter.i_clk_pipe (TRNG.counter w') = Counter.i_clk_pipe (TRNG.counter w))
    by congruence.
  assert (H6 : Counter.o_Q_pipe (TRNG.counter w') = Counter.o_Q_pipe (TRNG.counter w))
    by congruence.
  assert (H7 : RandOut.i_clk_pipe (TRNG.rand_out w') = RandOut.i_clk_pipe (TRNG.rand_out w))
    by congruence.
  assert (Hp : forall bp, pipe_valid w bp -> pipe_valid w' bp).
  { intros bp. apply pipe_valid_env; assumption. }
  assert (Hcfg : forall self, RO_config (the_RO self w') = RO_config (the_RO self w)).
  { intros []; unfold RO_config; cbn [the_RO]; congruence. }
  split.
  - intros self bp Hout. apply Hp, (wired_ro _ Hw self).
    destruct self; cbn in *; congruence.
  - intros self z. specialize (Hcfg self). unfold RO_config in Hcfg.
    replace (jittered_wait (the_RO self w') z) with (jittered_wait (the_RO self w) z);
      [apply (wired_wait _ Hw) |].
    unfold jittered_wait. injection Hcfg as Ej Ep Eh Ef Eo Ev. rewrite Eh, Ej. reflexivity.
  - intros self bp Hout. specialize (Hcfg self). unfold RO_config in Hcfg.
    injection Hcfg as Ej Ep Eh Ef Eo Ev. rewrite Ep. apply (wired_offset _ Hw self bp).
    congruence.
  - rewrite H3. apply Hp, (wired_ff_out _ Hw).
  - rewrite H4, Hl. apply (wired_ff_in _ Hw).
  - rewrite H5, Hl. apply (wired_counter_in _ Hw).
  - rewrite H6, Hl. apply (wired_counter_out _ Hw).
  - rewrite H7, Hl. apply (wired_rand_in _ Hw).
Qed.

Lemma lookup_extends (env env' : simpy.Environment) (ev : nat) (e' : simpy.Event) :
  extends env env' -> simpy.events env' !! ev = Some e' ->
  (exists e, simpy.events env !! ev = Some e /\ resumes e' = resumes e /\
             (simpy.callbacks e' = None <-> simpy.callbacks e = None)) \/
  ((length (simpy.events env) <= ev)%nat /\ resumes e' = []).
Proof.
  intros Hext He'. destruct (decide (ev < length (simpy.events env))%nat) as [Hlt | Hge].
  - left. apply lookup_lt_is_Some in Hlt. destruct Hlt as [e He]. exists e.
    destruct (ext_events _ _ Hext ev e He) as (e0 & He0 & _ & _ & Hr & Hc).
    rewrite He' in He0. injection He0 as <-. auto.
  - right. split; [lia |]. apply (ext_new _ _ Hext ev e'); [lia | exact He'].
Qed.

Lemma not_resumed_extends (env env' : simpy.Environment) (p : simpy.proc) :
  extends env env' ->
  (forall ev e, simpy.events env !! ev = Some e -> p ∉ resumes e) ->
  forall ev e, simpy.events env' !! ev = Some e -> p ∉ resumes e.
Proof.
  intros Hext H ev e' He'.
  destruct (lookup_extends env env' ev e' Hext He') as [(e & He & Hr & _) | [_ Hr]]; rewrite Hr.
  - apply (H ev e He).
  - apply not_elem_of_nil.
Qed.

Lemma procs_wf_extends (w w' : TRNG.t) :
  env_wf (TRNG.env w) -> procs_wf w -> extends (TRNG.env w) (TRNG.env w') ->
  (forall q, TRNG.procs w' q = TRNG.procs w q) -> procs_wf w'.
Proof.
  intros Hwf Hp Hext Hq. split.
  - intros ev e' p He' Hin. rewrite Hq.
    destruct (lookup_extends _ _ ev e' Hext He') as [(e & He & Hr & _) | [_ Hr]];
      rewrite Hr in Hin.
    + apply (pw_resume _ Hp ev e p He Hin).
    + apply elem_of_nil in Hin. contradiction.
  - intros ev e' He'.
    destruct (lookup_extends _ _ ev e' Hext He') as [(e & He & Hr & _) | [_ Hr]]; rewrite Hr.
    + apply (pw_nodup _ Hp ev e He).
    + constructor.
  - intros p. rewrite Hq. destruct (pw_pevent _ Hp p) as [H1 H2]. split.
    + pose proof (extends_length _ _ Hext). lia.
    + apply (not_in_get_queue_extends _ _ _ Hwf Hext H1 H2).
  - intros g. rewrite Hq. apply (pw_ro _ Hp).
Qed.

Lemma procs_wf_resumed (p : simpy.proc) (pr' : Process) (w w' : TRNG.t) :
  env_wf (TRNG.env w) -> procs_wf w -> extends (TRNG.env w) (TRNG.env w') ->
  (forall ev e, simpy.events (TRNG.env w) !! ev = Some e -> p ∉ resumes e) ->
  (forall q, TRNG.procs w' q = if decide (q = p) then pr' else TRNG.procs w q) ->
  pevent pr' = pevent (TRNG.procs w p) ->
  (p = simpy.ro1_proc -> forall g, gen pr' = Some g -> is_RO_gen g) ->
  procs_wf w'.
Proof.
  intros Hwf Hp Hext Hno Hq Hpe Hro.
  pose proof (not_resumed_extends _ _ p Hext Hno) as Hno'.
  assert (Hpev : forall q, pevent (TRNG.procs w' q) = pevent (TRNG.procs w q)).
  { intros q. rewrite Hq. destruct (decide (q = p)) as [-> | _]; auto. }
  split.
  - intros ev e' q He' Hin. rewrite Hq. destruct (decide (q = p)) as [-> | Hne].
    + exfalso. apply (Hno' ev e' He' Hin).
    + destruct (lookup_extends _ _ ev e' Hext He') as [(e & He & Hr & _) | [_ Hr]];
        rewrite Hr in Hin.
      * apply (pw_resume _ Hp ev e q He Hin).
      * apply elem_of_nil in Hin. contradiction.
  - intros ev e' He'.
    destruct (lookup_extends _ _ ev e' Hext He') as [(e & He & Hr & _) | [_ Hr]]; rewrite Hr.
    + apply (pw_nodup _ Hp ev e He).
    + constructor.
  - intros q. rewrite Hpev. destruct (pw_pevent _ Hp q) as [H1 H2]. split.
    + pose proof (extends_length _ _ Hext). lia.
    + apply (not_in_get_queue_extends _ _ _ Hwf Hext H1 H2).
  - intros g. rewrite Hq. destruct (decide (simpy.ro1_proc = p)) as [<- | Hne].
    + apply Hro. reflexivity.
    + apply (pw_ro _ Hp).
Qed.

Lemma processed_extends (env env' : simpy.Environment) (event : nat) :
  extends env env' ->
  (exists e, simpy.events env !! event = Some e /\
             simpy.callbacks e = None /\ simpy.value e <> simpy.PENDING) ->
  exists e, simpy.events env' !! event = Some e /\
            simpy.callbacks e = None /\ simpy.value e <> simpy.PENDING.
Proof.
  intros Hext (e & He & Hc & Hv).
  destruct (ext_events _ _ Hext event e He) as (e' & He' & Hv' & _ & _ & Hc').
  exists e'. split; [exact He' |]. split; [apply Hc', Hc | apply Hv', Hv].
Qed.

Lemma failed_extends (env env' : simpy.Environment) (event : nat) :
  extends env env' ->
  (exists e exc, simpy.events env !! event = Some e /\ simpy.value e = simpy.Failed exc) ->
  exists e exc, simpy.events env' !! event = Some e /\ simpy.value e = simpy.Failed exc.
Proof.
  intros Hext (e & exc & He & Hv).
  destruct (ext_events _ _ Hext event e He) as (e' & He' & _ & Hf & _).
  destruct Hf as [exc' Hf]; [exists exc; exact Hv |]. exists e', exc'. auto.
Qed.

Lemma runnable_extends (env env' : simpy.Environment) :
  extends env env' -> runnable env -> runnable env'.
Proof.
  intros Hext (x & e & Hx & He & H).
  destruct (ext_events _ _ Hext _ e He) as (e' & He' & _ & Hf & Hr & _).
  exists x, e'. split; [apply (ext_queue _ _ Hext x Hx) |]. split; [exact He' |].
  destruct H as [H | H]; [left; rewrite Hr; exact H | right; apply Hf, H].
Qed.

Lemma mid_wf_engine (event : nat) (cb : simpy.callback) (pend : list simpy.callback)
    (w : TRNG.t) (m : simpy.E unit) :
  mid_wf event (cb :: pend) w -> resume_of cb = None ->
  runs_to m (TRNG.env w) (fun _ _ => True) ->
  exists w', lift m w = (Return tt, w') /\ mid_wf event pend w'.
Proof.
  intros Hmid Hcb ([] & env' & Hrun & Hwf' & Hext & _).
  exists (TRNG.set_env (fun _ => env') w). split; [apply lift_Return, Hrun |].
  assert (Hres : omap resume_of (cb :: pend) = omap resume_of pend) by (cbn; rewrite Hcb; reflexivity).
  split; cbn [TRNG.env TRNG.set_env TRNG.procs].
  - exact Hwf'.
  - apply (wired_stable w); [apply (mid_wired _ _ _ Hmid) | reflexivity |].
    apply (ext_stores _ _ Hext).
  - apply (procs_wf_extends w); [apply (mid_env _ _ _ Hmid) | apply (mid_procs _ _ _ Hmid) | exact Hext |].
    reflexivity.
  - apply (processed_extends _ _ event Hext), (mid_event _ _ _ Hmid).
  - pose proof (mid_cbs _ _ _ Hmid) as H. apply Forall_cons in H as [_ H].
    eapply Forall_impl; [exact H |]. intros c. apply cb_wf_extends, Hext.
  - rewrite <- Hres. apply (mid_nodup _ _ _ Hmid).
  - intros p Hp. rewrite <- Hres in Hp. destruct (mid_alive _ _ _ Hmid p Hp) as [H1 H2].
    split; [exact H1 | apply (not_resumed_extends _ _ p Hext H2)].
  - rewrite <- Hres. destruct (mid_runnable _ _ _ Hmid) as [H | [H | H]].
    + left. exact H.
    + right. left. apply (failed_extends _ _ event Hext H).
    + right. right. apply (runnable_extends _ _ Hext H).
Qed.

#[local] Instance untouched_refl : Reflexive untouched.
Proof. intros w. split; reflexivity. Qed.

#[local] Instance untouched_trans : Transitive untouched.
Proof. intros w1 w2 w3 [H1 H2] [H3 H4]. split; congruence. Qed.

Lemma send_untouched (g : generator) (v : pyval) (w : TRNG.t) : untouched w (send g v w).2.
Proof.
  apply (send_preserves untouched); try (intros; split; reflexivity).
  - intros self w0. destruct self; split; reflexivity.
  - intros self w0. unfold RO_logged. destruct self; destruct (RO.verbose _); split; reflexivity.
  - intros w0. unfold Counter_logged. destruct (Counter.verbose _); split; reflexivity.
  - intros w0. unfold Counter_counted, Counter_branched. destruct (reset_event w0); split; reflexivity.
  - intros i_clk w0. destruct (RandOut_received_footprint i_clk w0) as [env' ->].
    split; [| reflexivity]. unfold wiring. cbn. rewrite RandOut_received_rand_out.
    destruct (_ && _); reflexivity.
Qed.

Lemma resumed_with_safe (g : generator) (e : simpy.Event) (w : TRNG.t) :
  env_wf (TRNG.env w) -> wired w -> simpy.value e <> simpy.PENDING ->
  (forall exc, simpy.value e = simpy.Failed exc -> negative_delay exc) ->
  untouched w (resumed_with g e w).2 /\
  match resumed_with g e w with
  | (Return (g', ev), w') =>
      env_wf (TRNG.env w') /\ extends (TRNG.env w) (TRNG.env w') /\ waitable (TRNG.env w') ev /\
      (is_RO_gen g -> is_RO_gen g' /\ queued (TRNG.env w') ev)
  | (Raise exc, w') =>
      env_wf (TRNG.env w') /\ extends (TRNG.env w) (TRNG.env w') /\ negative_delay exc
  end.
Proof.
  intros Hwf Hwired Hv Hf. unfold resumed_with. destruct (simpy.value e) as [|v|exc].
  - contradiction.
  - split; [apply send_untouched | apply send_safe; assumption].
  - split; [reflexivity |]. cbn. split; [exact Hwf |]. split; [reflexivity | apply Hf; reflexivity].
Qed.

Lemma hooked_lookup (p : simpy.proc) (next : nat) (cbs : list simpy.callback)
    (env : simpy.Environment) (en : simpy.Event) (ev : nat) (e : simpy.Event) :
  simpy.events env !! next = Some en ->
  simpy.events (hooked p next cbs env) !! ev = Some e ->
  (ev = next /\ e = simpy.set_callbacks (Some (cbs ++ [simpy.Process_resume_cb p])) en) \/
  (ev <> next /\ simpy.events env !! ev = Some e).
Proof.
  intros Hn H. unfold hooked in H. cbn in H. rewrite list_lookup_alter in H.
  destruct (decide (next = ev)) as [<- | Hne].
  - rewrite Hn in H. injection H as <-. left. auto.
  - right. auto.
Qed.

Lemma hooked_wf (p : simpy.proc) (next : nat) (cbs : list simpy.callback)
    (env : simpy.Environment) (en : simpy.Event) :
  env_wf env -> simpy.events env !! next = Some en -> simpy.callbacks en = Some cbs ->
  env_wf (hooked p next cbs env).
Proof.
  intros Hwf Hn Hc. apply (add_callback_wf next (simpy.Process_resume_cb p) env en cbs Hwf Hn Hc).
  exact I.
Qed.

Lemma cb_wf_hooked (p : simpy.proc) (next : nat) (cbs : list simpy.callback)
    (env : simpy.Environment) (cb : simpy.callback) :
  cb_wf env cb -> cb_wf (hooked p next cbs env) cb.
Proof.
  destruct cb as [q|s|s|c|]; cbn; auto. rewrite length_alter. auto.
Qed.

Lemma failed_scheduled_wf (pe : nat) (exc : exn) (env : simpy.Environment) (e : simpy.Event) :
  env_wf env -> simpy.events env !! pe = Some e -> ~ in_get_queue env pe ->
  negative_delay exc -> env_wf (failed_scheduled pe exc env).
Proof.
  intros Hwf He Hq Hexc. unfold failed_scheduled.
  apply (scheduled_wf _ _ _ _ (simpy.set_value (simpy.Failed exc) e)).
  - apply (altered_event_wf pe _ env e Hwf He); cbn.
    + discriminate.
    + intros H. contradiction.
    + intros cbs Hc. apply (wf_callbacks _ Hwf pe e cbs He Hc).
    + intros exc0 [= <-]. exact Hexc.
  - cbn. rewrite list_lookup_alter_eq, He. reflexivity.
  - discriminate.
Qed.

Lemma failed_scheduled_extends (pe : nat) (exc : exn) (env : simpy.Environment) :
  extends env (failed_scheduled pe exc env).
Proof.
  unfold failed_scheduled. etransitivity; [| apply scheduled_extends].
  apply altered_event_extends. intros e He. cbn.
  split; [discriminate |]. split; [eauto |]. split; reflexivity.
Qed.

Lemma failed_scheduled_runnable (pe : nat) (exc : exn) (env : simpy.Environment) (e : simpy.Event) :
  simpy.events env !! pe = Some e -> runnable (failed_scheduled pe exc env).
Proof.
  intros He.
  exists ((simpy.now env + 0)%float, simpy.NORMAL, simpy.eid env, pe),
         (simpy.set_value (simpy.Failed exc) e).
  split; [cbn; apply elem_of_app; right; apply list_elem_of_singleton; reflexivity |].
  split; [cbn; rewrite list_lookup_alter_eq, He; reflexivity |].
  right. exists exc. reflexivity.
Qed.

Lemma hooked_runnable (p : simpy.proc) (next : nat) (cbs : list simpy.callback)
    (env : simpy.Environment) (en : simpy.Event) :
  simpy.events env !! next = Some en -> simpy.callbacks en = Some cbs ->
  runnable env -> runnable (hooked p next cbs env).
Proof.
  intros Hn Hc (x & e & Hx & He & H).
  destruct (decide (entry_event x = next)) as [Heq | Hne].
  - exists x, (simpy.set_callbacks (Some (cbs ++ [simpy.Process_resume_cb p])) en).
    split; [exact Hx |]. rewrite Heq in *. rewrite Hn in He. injection He as <-.
    split; [cbn; rewrite list_lookup_alter_eq, Hn; reflexivity |].
    destruct H as [H | H]; [left | right; exact H].
    rewrite (resumes_snoc en cbs _ Hc). apply elem_of_app. left. exact H.
  - exists x, e. split; [exact Hx |].
    split; [cbn; rewrite list_lookup_alter_ne by congruence; exact He | exact H].
Qed.

Lemma hooked_queued_runnable (next : nat) (cbs : list simpy.callback)
    (env : simpy.Environment) (en : simpy.Event) :
  simpy.events env !! next = Some en -> simpy.callbacks en = Some cbs ->
  queued env next -> runnable (hooked simpy.ro1_proc next cbs env).
Proof.
  intros Hn Hc (x & Hx & Hev).
  exists x, (simpy.set_callbacks (Some (cbs ++ [simpy.Process_resume_cb simpy.ro1_proc])) en).
  split; [exact Hx |]. rewrite Hev.
  split; [cbn; rewrite list_lookup_alter_eq, Hn; reflexivity |].
  left. rewrite (resumes_snoc en cbs _ Hc). apply elem_of_app. right. cbn.
  apply list_elem_of_singleton. reflexivity.
Qed.

Lemma procs_wf_hooked (p : simpy.proc) (next : nat) (cbs : list simpy.callback)
    (en : simpy.Event) (w1 w2 : TRNG.t) :
  procs_wf w1 ->
  TRNG.env w2 = hooked p next cbs (TRNG.env w1) ->
  TRNG.procs w2 = TRNG.procs w1 ->
  simpy.events (TRNG.env w1) !! next = Some en -> simpy.callbacks en = Some cbs ->
  resumes en = [] ->
  gen (TRNG.procs w1 p) <> None -> target (TRNG.procs w1 p) = Some next ->
  procs_wf w2.
Proof.
  intros Hp Henv Hprocs Hn Hc Hr Hg Ht. split; rewrite ?Henv, ?Hprocs.
  - intros ev e q He Hin.
    destruct (hooked_lookup p next cbs _ en ev e Hn He) as [[-> ->] | [Hne He1]].
    + rewrite (resumes_snoc en cbs _ Hc), Hr in Hin. cbn in Hin.
      apply list_elem_of_singleton in Hin. subst q. auto.
    + apply (pw_resume _ Hp ev e q He1 Hin).
  - intros ev e He.
    destruct (hooked_lookup p next cbs _ en ev e Hn He) as [[-> ->] | [Hne He1]].
    + rewrite (resumes_snoc en cbs _ Hc), Hr. cbn. apply NoDup_singleton.
    + apply (pw_nodup _ Hp ev e He1).
  - intros q. destruct (pw_pevent _ Hp q) as [H1 H2]. split.
    + unfold hooked. cbn. rewrite length_alter. exact H1.
    + exact H2.
  - apply (pw_ro _ Hp).
Qed.

Lemma mid_wf_resume (event : nat) (p : simpy.proc) (pend : list simpy.callback) (w : TRNG.t) :
  mid_wf event (simpy.Process_resume_cb p :: pend) w ->
  exists w', Process_resume p event w = (Return tt, w') /\ mid_wf event pend w'.
Proof.
  intros Hmid.
  pose proof (mid_env _ _ _ Hmid) as Hwf. pose proof (mid_wired _ _ _ Hmid) as Hwired.
  pose proof (mid_procs _ _ _ Hmid) as Hprocs.
  destruct (mid_event _ _ _ Hmid) as (e & He & Hcb & Hval).
  pose proof (mid_nodup _ _ _ Hmid) as Hnd. cbn in Hnd. apply NoDup_cons in Hnd as [Hp_pend Hnd].
  destruct (mid_alive _ _ _ Hmid p) as [Hgen Hno]; [cbn; left |].
  destruct (gen (TRNG.procs w p)) as [g |] eqn:Hg; [clear Hgen | contradiction].
  assert (Hother : forall q, q ∈ omap resume_of pend ->
            q <> p /\ gen (TRNG.procs w q) <> None /\
            forall ev e0, simpy.events (TRNG.env w) !! ev = Some e0 -> q ∉ resumes e0).
  { intros q Hq. split; [intros ->; contradiction |].
    apply (mid_alive _ _ _ Hmid q). cbn. right. exact Hq. }
  destruct (resumed_with_safe g e w Hwf Hwired Hval (fun exc => wf_failed _ Hwf event e exc He))
    as [[Hwiring Hsame] Hres].
  destruct (resumed_with g e w) as [[[g' next] | exc] w'] eqn:Hsend; cbn [snd] in Hwiring, Hsame.
  - destruct Hres as (Hwf' & Hext & (en & cbs & Hn & Hc & Hr) & Hro).
    exists (process_waits p g' next cbs w').
    split; [apply (Process_resume_ok p event next w w' e en g g' cbs He Hg Hsend Hn Hc) |].
    pose proof (processed_extends _ _ event Hext (ex_intro _ e (conj He (conj Hcb Hval))))
      as (e' & He' & Hcb' & Hval').
    assert (Hne : event <> next).
    { intros ->. rewrite Hn in He'. injection He' as <-. congruence. }
    set (w1 := TRNG.set_proc p (mkProcess (Some g') (Some next) (pevent (TRNG.procs w' p))) w').
    assert (Hw1 : procs_wf w1).
    { apply (procs_wf_resumed p (mkProcess (Some g') (Some next) (pevent (TRNG.procs w' p))) w w1
               Hwf Hprocs Hext Hno).
      - intros q. cbn. rewrite Hsame. reflexivity.
      - cbn. rewrite Hsame. reflexivity.
      - intros -> g0 [= <-]. apply Hro, (pw_ro _ Hprocs g Hg). }
    split.
    + apply (hooked_wf p next cbs _ en Hwf' Hn Hc).
    + apply (wired_stable w); [exact Hwired | exact Hwiring |]. apply (ext_stores _ _ Hext).
    + apply (procs_wf_hooked p next cbs en w1); auto.
      * cbn. destruct (decide (p = p)); [discriminate | contradiction].
      * cbn. destruct (decide (p = p)); [reflexivity | contradiction].
    + exists e'. split; [| auto]. cbn. rewrite list_lookup_alter_ne by congruence. exact He'.
    + pose proof (mid_cbs _ _ _ Hmid) as H. apply Forall_cons in H as [_ H].
      eapply Forall_impl; [exact H |]. intros c Hc0.
      apply (cb_wf_hooked p next cbs (TRNG.env w')), (cb_wf_extends _ _ c Hext Hc0).
    + exact Hnd.
    + intros q Hq. destruct (Hother q Hq) as (Hqp & Hq1 & Hq2). split.
      * cbn. destruct (decide (q = p)); [contradiction |]. rewrite Hsame. exact Hq1.
      * intros ev e0 He0.
        destruct (hooked_lookup p next cbs _ en ev e0 Hn He0) as [[-> ->] | [_ He1]].
        -- rewrite (resumes_snoc en cbs _ Hc), Hr. cbn. intros Hin.
           apply list_elem_of_singleton in Hin. contradiction.
        -- apply (not_resumed_extends _ _ q Hext Hq2 ev e0 He1).
    + destruct (mid_runnable _ _ _ Hmid) as [H | [H | H]].
      * cbn in H. apply elem_of_cons in H as [<- | H]; [| left; exact H].
        right. right. destruct Hro as [_ Hqueued]; [apply (pw_ro _ Hprocs g Hg) |].
        apply (hooked_queued_runnable next cbs _ en Hn Hc Hqueued).
      * right. left. destruct (failed_extends _ _ event Hext H) as (e1 & exc & He1 & Hv1).
        exists e1, exc. split; [| exact Hv1]. cbn. rewrite list_lookup_alter_ne by congruence.
        exact He1.
      * right. right. apply (hooked_runnable p next cbs _ en Hn Hc).
        apply (runnable_extends _ _ Hext H).
  - destruct Hres as (Hwf' & Hext & Hexc).
    destruct (pw_pevent _ Hprocs p) as [Hpe Hpq].
    assert (Hpe' : (pevent (TRNG.procs w p) < length (simpy.events (TRNG.env w')))%nat).
    { pose proof (extends_length _ _ Hext). lia. }
    exists (process_failed p (pevent (TRNG.procs w p)) exc w').
    split.
    { apply (Process_resume_failed p event w w' e g exc He Hg Hsend); [| exact Hpe'].
      rewrite Hsame. reflexivity. }
    destruct (lookup_lt_is_Some_2 _ _ Hpe') as [ep Hep].
    pose proof (not_in_get_queue_extends _ _ _ Hwf Hext Hpe Hpq) as Hpq'.
    set (wf := process_failed p (pevent (TRNG.procs w p)) exc w').
    assert (Henv : TRNG.env wf = failed_scheduled (pevent (TRNG.procs w p)) exc (TRNG.env w'))
      by reflexivity.
    assert (Hextf : extends (TRNG.env w) (TRNG.env wf)).
    { rewrite Henv. etransitivity; [exact Hext | apply failed_scheduled_extends]. }
    split.
    + rewrite Henv. apply (failed_scheduled_wf _ _ _ ep Hwf' Hep Hpq' Hexc).
    + apply (wired_stable w); [exact Hwired | exact Hwiring |]. apply (ext_stores _ _ Hextf).
    + apply (procs_wf_resumed p (mkProcess None None (pevent (TRNG.procs w p))) w wf
               Hwf Hprocs Hextf Hno).
      * intros q. cbn. rewrite Hsame. reflexivity.
      * reflexivity.
      * intros _ g0 [=].
    + apply (processed_extends _ _ event Hextf). exists e. auto.
    + pose proof (mid_cbs _ _ _ Hmid) as H. apply Forall_cons in H as [_ H].
      eapply Forall_impl; [exact H |]. intros c. apply cb_wf_extends, Hextf.
    + exact Hnd.
    + intros q Hq. destruct (Hother q Hq) as (Hqp & Hq1 & Hq2). split.
      * cbn. destruct (decide (q = p)); [contradiction |]. rewrite Hsame. exact Hq1.
      * apply (not_resumed_extends _ _ q Hextf Hq2).
    + destruct (mid_runnable _ _ _ Hmid) as [H | [H | H]].
      * cbn in H. apply elem_of_cons in H as [<- | H]; [| left; exact H].
        right. right. rewrite Henv. apply (failed_scheduled_runnable _ _ _ ep Hep).
      * right. left. apply (failed_extends _ _ event Hextf H).
      * right. right. apply (runnable_extends _ _ Hextf H).
Qed.

(** ** The event loop *)

Lemma run_callback_safe (event : nat) (cb : simpy.callback) (pend : list simpy.callback)
    (w : TRNG.t) :
  mid_wf event (cb :: pend) w ->
  (exists w', run_callback event cb w = (Return tt, w') /\ mid_wf event pend w') \/
  (stop_allowed /\ exists w', run_callback event cb w = (Raise StopSimulation, w')).
Proof.
  intros Hmid. pose proof (mid_env _ _ _ Hmid) as Hwf.
  pose proof (mid_cbs _ _ _ Hmid) as Hcbs. apply Forall_cons in Hcbs as [Hcb _].
  destruct cb as [p | s | s | c |]; cbn [run_callback].
  - left. apply mid_wf_resume, Hmid.
  - left. apply (mid_wf_engine event _ pend w _ Hmid); [reflexivity |].
    apply trigger_get_safe; assumption.
  - left. apply (mid_wf_engine event _ pend w _ Hmid); [reflexivity |].
    apply trigger_put_safe; assumption.
  - left. destruct Hcb as [Hc1 Hc2].
    apply (mid_wf_engine event _ pend w _ Hmid); [reflexivity |].
    apply Condition_check_safe; assumption.
  - right. split; [exact Hcb |]. exists w. reflexivity.
Qed.

Lemma run_callbacks_safe (event : nat) (pend : list simpy.callback) (w : TRNG.t) :
  mid_wf event pend w ->
  (exists l w', mapM (run_callback event) pend w = (Return l, w') /\ mid_wf event [] w') \/
  (stop_allowed /\ exists w', mapM (run_callback event) pend w = (Raise StopSimulation, w')).
Proof.
  revert w. induction pend as [| cb pend IH]; intros w Hmid.
  - left. exists [], w. split; [reflexivity | exact Hmid].
  - cbn [mapM].
    destruct (run_callback_safe event cb pend w Hmid) as [(w1 & Hrun & Hmid1) | [Hs [w1 Hrun]]].
    + rewrite (bind_Return _ _ _ _ _ Hrun).
      destruct (IH w1 Hmid1) as [(l & w2 & Hrest & Hmid2) | [Hs [w2 Hrest]]].
      * left. exists (tt :: l), w2. split; [| exact Hmid2].
        rewrite (bind_Return _ _ _ _ _ Hrest). reflexivity.
      * right. split; [exact Hs |]. exists w2. apply bind_Raise, Hrest.
    + right. split; [exact Hs |]. exists w1. apply bind_Raise, Hrun.
Qed.

Lemma entry_min_in (a : float * nat * nat * nat) (l : list (float * nat * nat * nat)) :
  simpy.entry_min a l ∈ a :: l.
Proof.
  unfold simpy.entry_min. revert a. induction l as [| x l IH]; intros a; cbn.
  - left.
  - destruct (simpy.entry_lt x a).
    + right. apply IH.
    + specialize (IH a). apply elem_of_cons in IH as [-> | IH]; [left | right; right; exact IH].
Qed.

Lemma heappop_Some (q : list (float * nat * nat * nat)) :
  q <> [] ->
  exists m, simpy.heappop q = Some (m, filter (fun x => simpy.entry_eid x ≠ simpy.entry_eid m) q) /\
            m ∈ q.
Proof.
  intros Hq. destruct q as [| a l]; [contradiction |].
  exists (simpy.entry_min a l). split; [reflexivity | apply entry_min_in].
Qed.

Lemma NoDup_fmap_eq {A B} (f : A -> B) (l : list A) (x y : A) :
  NoDup (f <$> l) -> x ∈ l -> y ∈ l -> f x = f y -> x = y.
Proof.
  induction l as [| a l IH]; intros Hnd Hx Hy Hf; [apply elem_of_nil in Hx; contradiction |].
  cbn in Hnd. apply NoDup_cons in Hnd as [Ha Hnd].
  apply elem_of_cons in Hx as [-> | Hx]; apply elem_of_cons in Hy as [-> | Hy]; auto.
  - exfalso. apply Ha. rewrite Hf. apply list_elem_of_fmap. eauto.
  - exfalso. apply Ha. rewrite <- Hf. apply list_elem_of_fmap. eauto.
Qed.

Lemma step_run (w : TRNG.t) (t : float) (pr i event : nat)
    (rest : list (float * nat * nat * nat)) (e : simpy.Event) :
  simpy.heappop (simpy.queue (TRNG.env w)) = Some ((t, pr, i, event), rest) ->
  simpy.events (TRNG.env w) !! event = Some e ->
  step w =
    (mapM (run_callback event) (default [] (simpy.callbacks e));;
     e' ← lift (deref simpy.events event);
     match simpy.value e' with
     | simpy.Failed exc => raise exc
     | _ => mret tt
     end) (TRNG.set_env (fun _ => popped t rest event (TRNG.env w)) w).
Proof.
  intros Hpop He. unfold step. mcbv. rewrite Hpop. cbv beta iota.
  set (w0 := TRNG.set_env _ w).
  assert (He0 : simpy.events (TRNG.env w0) !! event = Some e) by exact He.
  change (lift (deref simpy.events event) w0) with (lift (deref simpy.events event) w0).
  fold (@mbind (M TRNG.t) _).
  rewrite (lift_deref_events w0 event e He0).
  rewrite (lift_Return _ w0 tt _ (update_event_run event _ _ e He0)).
  reflexivity.
Qed.

Lemma popped_lookup (t : float) (rest : list (float * nat * nat * nat)) (event : nat)
    (env : simpy.Environment) (e : simpy.Event) (ev : nat) (e0 : simpy.Event) :
  simpy.events env !! event = Some e ->
  simpy.events (popped t rest event env) !! ev = Some e0 ->
  (ev = event /\ e0 = simpy.set_callbacks None e) \/
  (ev <> event /\ simpy.events env !! ev = Some e0).
Proof.
  intros He H. unfold popped in H. cbn in H. rewrite list_lookup_alter in H.
  destruct (decide (event = ev)) as [<- | Hne].
  - rewrite He in H. injection H as <-. left. auto.
  - right. auto.
Qed.

Lemma popped_wf (m : float * nat * nat * nat) (env : simpy.Environment) (e : simpy.Event) :
  env_wf env -> m ∈ simpy.queue env ->
  simpy.events env !! entry_event m = Some e -> simpy.value e <> simpy.PENDING ->
  env_wf (popped m.1.1.1
            (filter (fun x => simpy.entry_eid x ≠ simpy.entry_eid m) (simpy.queue env))
            (entry_event m) env).
Proof.
  intros Hwf Hm He Hv. unfold popped.
  apply (altered_event_wf _ _ _ e).
  - split; cbn.
    + intros x Hx. apply list_elem_of_filter in Hx as [_ Hx]. apply (wf_queue _ Hwf x Hx).
    + intros x Hx. apply list_elem_of_filter in Hx as [_ Hx]. apply (wf_eid _ Hwf x Hx).
    + apply (sublist_NoDup _ (simpy.entry_eid <$> simpy.queue env)); [apply (wf_eids _ Hwf) |].
      apply fmap_sublist, sublist_filter.
    + apply (wf_unbounded _ Hwf).
    + apply (wf_get_queue _ Hwf).
    + apply (wf_disjoint _ Hwf).
    + apply (wf_callbacks _ Hwf).
    + apply (wf_failed _ Hwf).
  - exact He.
  - cbn. auto.
  - intros (s & st & Hs & Hin). exfalso.
    destruct (wf_get_queue _ Hwf s st Hs) as [_ Hpend].
    destruct (Hpend _ Hin) as (e1 & He1 & Hv1). cbn in He1. congruence.
  - cbn. discriminate.
  - cbn. intros exc. apply (wf_failed _ Hwf _ e exc He).
Qed.

Lemma popped_mid (m : float * nat * nat * nat) (w : TRNG.t) (e : simpy.Event) :
  run_wf w -> m ∈ simpy.queue (TRNG.env w) ->
  simpy.events (TRNG.env w) !! entry_event m = Some e -> simpy.value e <> simpy.PENDING ->
  mid_wf (entry_event m) (default [] (simpy.callbacks e))
    (TRNG.set_env
       (fun _ => popped m.1.1.1
          (filter (fun x => simpy.entry_eid x ≠ simpy.entry_eid m) (simpy.queue (TRNG.env w)))
          (entry_event m) (TRNG.env w)) w).
Proof.
  intros [Hwf Hwired Hprocs Hrun] Hm He Hv.
  set (event := entry_event m) in *.
  set (rest := filter _ _).
  assert (Hlook : simpy.events (popped m.1.1.1 rest event (TRNG.env w)) !! event =
                  Some (simpy.set_callbacks None e)).
  { unfold popped. cbn. rewrite list_lookup_alter_eq, He. reflexivity. }
  assert (Hres : forall ev e0, simpy.events (popped m.1.1.1 rest event (TRNG.env w)) !! ev = Some e0 ->
            resumes e0 = [] \/ (ev <> event /\ simpy.events (TRNG.env w) !! ev = Some e0)).
  { intros ev e0 H. destruct (popped_lookup _ _ _ _ e ev e0 He H) as [[_ ->] | H1]; auto. }
  split; cbn [TRNG.env TRNG.set_env TRNG.procs].
  - apply (popped_wf m (TRNG.env w) e Hwf Hm He Hv).
  - apply (wired_stable w); [exact Hwired | reflexivity | reflexivity].
  - split; cbn [TRNG.env TRNG.set_env TRNG.procs].
    + intros ev e0 p H Hin. destruct (Hres ev e0 H) as [Hr | [_ H0]].
      * rewrite Hr in Hin. apply elem_of_nil in Hin. contradiction.
      * apply (pw_resume _ Hprocs ev e0 p H0 Hin).
    + intros ev e0 H. destruct (Hres ev e0 H) as [Hr | [_ H0]].
      * rewrite Hr. constructor.
      * apply (pw_nodup _ Hprocs ev e0 H0).
    + intros p. destruct (pw_pevent _ Hprocs p) as [H1 H2]. split.
      * unfold popped. cbn. rewrite length_alter. exact H1.
      * exact H2.
    + apply (pw_ro _ Hprocs).
  - exists (simpy.set_callbacks None e). split; [exact Hlook |]. split; [reflexivity | exact Hv].
  - destruct (simpy.callbacks e) as [cbs |] eqn:Hc; [| constructor].
    pose proof (wf_callbacks _ Hwf event e cbs He Hc) as H.
    eapply Forall_impl; [exact H |]. intros c. unfold popped.
    destruct c as [q|s|s|c|]; cbn; auto. rewrite length_alter. auto.
  - apply (pw_nodup _ Hprocs event e He).
  - intros p Hp. destruct (pw_resume _ Hprocs event e p He Hp) as [Hg Ht].
    split; [exact Hg |]. intros ev e0 H Hin. destruct (Hres ev e0 H) as [Hr | [Hne H0]].
    + rewrite Hr in Hin. apply elem_of_nil in Hin. contradiction.
    + destruct (pw_resume _ Hprocs ev e0 p H0 Hin) as [_ Ht']. congruence.
  - destruct Hrun as (x & ex & Hx & Hex & H).
    destruct (decide (entry_event x = event)) as [Heq | Hne].
    + rewrite Heq, He in Hex. injection Hex as <-. destruct H as [H | [exc H]].
      * left. exact H.
      * right. left. exists (simpy.set_callbacks None e), exc. split; [exact Hlook | exact H].
    + right. right. exists x, ex. split.
      * apply list_elem_of_filter. split; [| exact Hx]. intros Heid.
        apply Hne. f_equal.
        apply (NoDup_fmap_eq simpy.entry_eid (simpy.queue (TRNG.env w)) x m
                 (wf_eids _ Hwf) Hx Hm Heid).
      * split; [| exact H]. unfold popped. cbn. rewrite list_lookup_alter_ne by congruence.
        exact Hex.
Qed.

(** The exceptions that can leave the event loop in a well-formed state:
    the end of a run with a time limit, where the mode has one, and the
    error of a negative delay. *)
Lemma step_safe (w : TRNG.t) :
  run_wf w ->
  match step w with
  | (Return _, w') => run_wf w'
  | (Raise exc, _) => (stop_allowed /\ exc = StopSimulation) \/ negative_delay exc
  end.
Proof.
  intros Hrw. pose proof Hrw as [Hwf Hwired Hprocs Hrun].
  assert (Hq : simpy.queue (TRNG.env w) <> []).
  { destruct Hrun as (x & _ & Hx & _). intros Heq. rewrite Heq in Hx.
    apply elem_of_nil in Hx. contradiction. }
  destruct (heappop_Some _ Hq) as (m & Hpop & Hm).
  destruct (wf_queue _ Hwf m Hm) as (e & He & Hv).
  pose proof (popped_mid m w e Hrw Hm He Hv) as Hmid.
  destruct m as [[[t pr] i] event]. cbn [fst snd entry_event] in *.
  rewrite (step_run w t pr i event _ e Hpop He).
  destruct (run_callbacks_safe _ _ _ Hmid) as [(l & w2 & Hloop & Hmid2) | [Hs [w2 Hloop]]].
  - rewrite (bind_Return _ _ _ _ _ Hloop).
    destruct (mid_event _ _ _ Hmid2) as (e' & He' & _ & Hv').
    rewrite (bind_Return _ _ _ _ _ (lift_deref_events w2 event e' He')).
    destruct (simpy.value e') as [| v | exc] eqn:Hval; [contradiction | |].
    + split.
      * apply (mid_env _ _ _ Hmid2).
      * apply (mid_wired _ _ _ Hmid2).
      * apply (mid_procs _ _ _ Hmid2).
      * destruct (mid_runnable _ _ _ Hmid2) as [H | [H | H]].
        -- apply elem_of_nil in H. contradiction.
        -- destruct H as (e1 & exc & He1 & Hv1). congruence.
        -- exact H.
    + right. apply (wf_failed _ (mid_env _ _ _ Hmid2) event e' exc He' Hval).
  - rewrite (bind_Raise _ _ _ _ _ Hloop). left. auto.
Qed.

Lemma steps_safe (k : nat) (w : TRNG.t) :
  run_wf w ->
  match steps k w with
  | (Return _, w') => run_wf w'
  | (Raise exc, _) => (stop_allowed /\ exc = StopSimulation) \/ negative_delay exc
  end.
Proof.
  revert w. induction k as [| k IH]; intros w Hrw; [exact Hrw |].
  cbn [steps]. rewrite bind_run. pose proof (step_safe w Hrw) as Hstep.
  destruct (step w) as [[[] | exc] w1]; [apply IH, Hstep | exact Hstep].
Qed.


(** ** The state built by the constructor *)

Lemma no_get_request (env : simpy.Environment) (ev : nat) :
  Forall (fun st => simpy.get_queue st = []) (simpy.stores env) -> ~ in_get_queue env ev.
Proof.
  intros Hall (s & st & Hs & Hin). rewrite Forall_lookup in Hall.
  rewrite (Hall s st Hs) in Hin. apply elem_of_nil in Hin. exact Hin.
Qed.

Lemma TRNG_new_env_wf (period delta jitter1 jitter2 : float) (verbose : bool)
    (variates : nat -> float) :
  env_wf (TRNG.env (TRNG_new period delta jitter1 jitter2 verbose variates)).
Proof.
  vm_compute TRNG.env.
  assert (Hget : forall ev,
            ~ in_get_queue (TRNG.env (TRNG_new period delta jitter1 jitter2 verbose variates)) ev).
  { intros ev. apply no_get_request. vm_compute TRNG.env. repeat constructor. }
  vm_compute TRNG.env in Hget.
  split; cbn [simpy.queue simpy.eid simpy.events simpy.stores].
  - intros x Hx. repeat (apply elem_of_cons in Hx as [-> | Hx]);
      [eexists; split; [reflexivity | discriminate] .. | apply elem_of_nil in Hx; contradiction].
  - intros x Hx. repeat (apply elem_of_cons in Hx as [-> | Hx]);
      [cbn; lia .. | apply elem_of_nil in Hx; contradiction].
  - apply (NoDup_seq 0 5).
  - intros s st Hs.
    do 6 (destruct s as [| s]; [injection Hs as <-; split; reflexivity |]). discriminate Hs.
  - intros s st Hs.
    do 6 (destruct s as [| s];
          [injection Hs as <-; split; [constructor | intros ev Hev; apply elem_of_nil in Hev; contradiction] |]).
    discriminate Hs.
  - intros s1 s2 st1 st2 ev H1 _ Hin _. exfalso. apply (Hget ev). exists s1, st1. auto.
  - intros ev e cbs He Hc.
    do 10 (destruct ev as [| ev];
           [injection He as <-; injection Hc as <-; repeat constructor |]).
    discriminate He.
  - intros ev e exc He Hv.
    do 10 (destruct ev as [| ev]; [injection He as <-; discriminate Hv |]).
    discriminate He.
Qed.

Lemma TRNG_new_wired (period delta jitter1 jitter2 : float) (verbose : bool)
    (variates : nat -> float) :
  (forall d, oscillator_delay period delta jitter1 jitter2 d -> requested d) ->
  wired (TRNG_new period delta jitter1 jitter2 verbose variates).
Proof.
  intros Hreq.
  set (w := TRNG_new period delta jitter1 jitter2 verbose variates).
  assert (Hpipe0 : pipe_valid w 0).
  { eexists. split; [vm_compute; reflexivity |]. split; [discriminate |].
    vm_compute. repeat constructor. }
  assert (Hpipe1 : pipe_valid w 1).
  { eexists. split; [vm_compute; reflexivity |]. split; [discriminate |].
    vm_compute. repeat constructor. }
  destruct (TRNG_new_components period delta jitter1 jitter2 verbose variates)
    as (Hro1 & Hro2 & _).
  fold w in Hro1, Hro2.
  split.
  + intros [] bp; vm_compute; [discriminate | intros [= <-]; exact Hpipe0].
  + intros self z. apply Hreq. destruct self; cbn [the_RO].
    * left. exists z. rewrite Hro1. reflexivity.
    * right. left. exists z. rewrite Hro2. reflexivity.
  + intros self bp. destruct self; cbn [the_RO].
    * rewrite Hro1. discriminate.
    * intros _. apply Hreq. right. right. rewrite Hro2. reflexivity.
  + exact Hpipe1.
  + vm_compute. repeat constructor.
  + vm_compute. repeat constructor.
  + vm_compute. repeat constructor.
  + vm_compute. repeat constructor.
Qed.

Lemma TRNG_new_procs_wf (period delta jitter1 jitter2 : float) (verbose : bool)
    (variates : nat -> float) :
  procs_wf (TRNG_new period delta jitter1 jitter2 verbose variates).
Proof.
  assert (Hget : forall ev, ~ in_get_queue (TRNG.env (TRNG_new period delta jitter1 jitter2 verbose variates)) ev).
  { intros ev. apply no_get_request. vm_compute. repeat constructor. }
  split.
  + intros ev e p. vm_compute TRNG.env. cbn [simpy.events]. intros He Hin.
    do 10 (destruct ev as [| ev];
             [injection He as <-; vm_compute in Hin;
              first [ apply elem_of_nil in Hin; contradiction
                    | apply list_elem_of_singleton in Hin; subst p;
                      vm_compute; split; [discriminate | reflexivity] ] |]).
    discriminate He.
  + intros ev e. vm_compute TRNG.env. cbn [simpy.events]. intros He.
      do 10 (destruct ev as [| ev];
             [injection He as <-; first [apply NoDup_nil_2 | apply NoDup_singleton] |]).
      discriminate He.
  + intros p. split; [| apply Hget]. destruct p; vm_compute; repeat constructor.
  + intros g. vm_compute. intros [= <-]. exact I.
Qed.

Lemma TRNG_new_runnable (period delta jitter1 jitter2 : float) (verbose : bool)
    (variates : nat -> float) :
  runnable (TRNG.env (TRNG_new period delta jitter1 jitter2 verbose variates)).
Proof.
  exists (0%float, 0%nat, 0%nat, 1%nat). eexists.
    split; [vm_compute; left |]. split; [vm_compute; reflexivity |].
    left. vm_compute. left.
Qed.

Lemma TRNG_new_run_wf (period delta jitter1 jitter2 : float) (verbose : bool)
    (variates : nat -> float) :
  (forall d, oscillator_delay period delta jitter1 jitter2 d -> requested d) ->
  run_wf (TRNG_new period delta jitter1 jitter2 verbose variates).
Proof.
  intros Hreq. split.
  - apply TRNG_new_env_wf.
  - apply TRNG_new_wired, Hreq.
  - apply TRNG_new_procs_wf.
  - apply TRNG_new_runnable.
Qed.

(** ** A run with a time limit *)



End run_safety.




(** A negative delay does occur: with jitter 2 on a period of 4 and a
    variate of -5, the first half period of the first oscillator is below
    zero, and the event loop stops with the [ValueError] of its timeout. *)
Example negative_delay_stops_the_loop :
  exists d,
    (steps 12 (TRNG_new 4 1 2 2 false (fun _ => (-5)%float))).1 = Raise (ValueError d) /\
    (d <? 0)%float = true.
Proof. eexists. split; vm_compute; reflexivity. Qed.

(** X14.  Between the steps of the event loop of a new assembly every store
    is unbounded and holds no waiting put: what an oscillator or the latch
    broadcasts, and what the counter publishes, is in the consumer's store
    at once. *)
Theorem puts_never_wait
    (period delta jitter1 jitter2 : float) (verbose : bool) (variates : nat -> float)
    (k : nat) (w' : TRNG.t) :
  steps k (TRNG_new period delta jitter1 jitter2 verbose variates) = (Return tt, w') ->
  forall s st, simpy.stores (TRNG.env w') !! s = Some st ->
    simpy.capacity st = None /\ simpy.put_queue st = [].
Proof.
  intros Hrun.
  pose proof (steps_safe k _
                (TRNG_new_run_wf (mode := loop_mode period delta jitter1 jitter2)
                   period delta jitter1 jitter2 verbose variates (fun d H => H))) as H.
  rewrite Hrun in H. apply (wf_unbounded _ (rw_env _ H)).
Qed.

Lemma puts_never_wait_witness :
  steps 100 (TRNG_new 0x1p-28 0x1p-30 0 0 false (fun _ => 0%float)) =
    (Return tt, example_after 100) /\
  forall s st, simpy.stores (TRNG.env (example_after 100)) !! s = Some st ->
    simpy.capacity st = None /\ simpy.put_queue st = [].
Proof.
  assert (H : steps 100 (TRNG_new 0x1p-28 0x1p-30 0 0 false (fun _ => 0%float)) =
              (Return tt, example_after 100))
    by (vm_compute; reflexivity).
  split; [exact H |].
  exact (puts_never_wait 0x1p-28 0x1p-30 0 0 false (fun _ => 0%float) 100 _ H).
Defined.

(** ** Signs of floating-point results *)







(** * Stores and the running mean *)

(** ** Stores that nobody reads *)

Section store_kept.
Import simpy.
Variable P : list pyval -> list pyval -> Prop.
Context `{!Reflexive P, !Transitive P}.
Variable s : nat.

#[global] Instance store_kept_refl : Reflexive (store_kept P s).
Proof. intros env st Hst Hidle. exists st. split; [exact Hst |]. split; [exact Hidle | reflexivity]. Qed.

#[global] Instance store_kept_trans : Transitive (store_kept P s).
Proof.
  intros env1 env2 env3 H12 H23 st Hst Hidle.
  destruct (H12 st Hst Hidle) as (st2 & Hst2 & Hidle2 & HP2).
  destruct (H23 st2 Hst2 Hidle2) as (st3 & Hst3 & Hidle3 & HP3).
  exists st3. split; [exact Hst3 |]. split; [exact Hidle3 | transitivity (items st2); assumption].
Qed.

Lemma store_kept_lookup (env env' : Environment) :
  stores env' !! s = stores env !! s -> store_kept P s env env'.
Proof.
  intros H st Hst Hidle. exists st. rewrite H. split; [exact Hst |]. split; [exact Hidle | reflexivity].
Qed.

Lemma update_store_kept (s' : nat) (f : Store -> Store) :
  s' <> s -> preserves (store_kept P s) (update_store s' f).
Proof.
  intros Hne. apply preserves_bind; [apply _ | apply preserves_deref; apply _ |].
  intros _. apply preserves_modify. intros env. apply store_kept_lookup. cbn.
  apply list_lookup_alter_ne. exact Hne.
Qed.

Lemma update_event_kept (ev : nat) (f : Event -> Event) :
  preserves (store_kept P s) (update_event ev f).
Proof.
  apply preserves_bind; [apply _ | apply preserves_deref; apply _ |].
  intros _. apply preserves_modify. intros env. apply store_kept_lookup. reflexivity.
Qed.

Lemma schedule_kept (ev priority : nat) (delay : float) :
  preserves (store_kept P s) (schedule ev priority delay).
Proof. apply preserves_modify. intros env. apply store_kept_lookup. reflexivity. Qed.

Lemma new_event_kept (e : Event) : preserves (store_kept P s) (new_event e).
Proof. intros env. apply store_kept_lookup. reflexivity. Qed.

Ltac kept :=
  repeat first
    [ apply update_event_kept
    | apply schedule_kept
    | apply new_event_kept
    | apply update_store_kept; assumption
    | apply preserves_deref; apply _
    | apply preserves_ret; apply _
    | apply preserves_raise; apply _
    | apply preserves_bind; [apply _ | |]; intros
    | match goal with
      | |- preserves _ (match ?x with _ => _ end) => destruct x
      | |- preserves _ (if ?x then _ else _) => destruct x
      end ].

Lemma succeed_kept (ev : nat) (v : pyval) : preserves (store_kept P s) (succeed ev v).
Proof. unfold succeed. kept. Qed.

Lemma timeout_kept (delay : float) : preserves (store_kept P s) (timeout delay).
Proof. unfold timeout. kept. Qed.

Lemma add_callback_kept (ev : nat) (cb : callback) :
  preserves (store_kept P s) (add_callback ev cb).
Proof. unfold add_callback. kept. Qed.

Lemma Condition_check_kept (c : nat) : preserves (store_kept P s) (Condition_check c).
Proof. unfold Condition_check. kept. Qed.

Lemma all_of_register_kept (cond ev : nat) :
  preserves (store_kept P s) (all_of_register cond ev).
Proof.
  unfold all_of_register. kept; first [apply add_callback_kept | apply Condition_check_kept].
Qed.

Lemma mapM_kept {A B} (f : A -> E B) (l : list A) :
  Forall (fun a => preserves (store_kept P s) (f a)) l ->
  preserves (store_kept P s) (mapM f l).
Proof.
  induction 1 as [| a l Ha _ IH]; cbn [mapM].
  - apply preserves_ret; apply _.
  - apply preserves_bind; [apply _ | exact Ha |]. intros b.
    apply preserves_bind; [apply _ | exact IH |]. intros bs. apply preserves_ret; apply _.
Qed.

Lemma all_of_kept (evs : list nat) : preserves (store_kept P s) (all_of evs).
Proof.
  unfold all_of. apply preserves_bind; [apply _ | apply new_event_kept |]. intros cond.
  destruct evs as [| ev evs].
  - kept.
  - apply preserves_bind; [apply _ | | intros; apply preserves_ret; apply _].
    apply mapM_kept. apply Forall_forall. intros x _. apply all_of_register_kept.
Qed.

Lemma trigger_get_other (s' : nat) : s' <> s -> preserves (store_kept P s) (trigger_get s').
Proof. intros Hne. unfold trigger_get, do_get. kept. Qed.

Lemma trigger_put_other (s' : nat) : s' <> s -> preserves (store_kept P s) (trigger_put s').
Proof. intros Hne. unfold trigger_put, do_put. kept. Qed.

Lemma get_kept (s' : nat) : s' <> s -> preserves (store_kept P s) (get s').
Proof. intros Hne. unfold get. kept. Qed.

Lemma put_kept (s' : nat) (v : pyval) : s' <> s -> preserves (store_kept P s) (put s' v).
Proof. intros Hne. unfold put. kept. Qed.

Lemma trigger_get_kept (s' : nat) : preserves (store_kept P s) (trigger_get s').
Proof.
  destruct (decide (s' = s)) as [-> | Hne]; [| apply trigger_get_other, Hne].
  intros env st Hst Hidle. unfold trigger_get.
  rewrite (bind_Return _ _ _ _ _ (deref_Some stores s env st Hst)).
  destruct Hidle as (Hc & Hp & Hg). rewrite Hg. exists st. cbn.
  split; [exact Hst |]. split; [repeat split; assumption | reflexivity].
Qed.

Lemma trigger_put_kept (s' : nat) : preserves (store_kept P s) (trigger_put s').
Proof.
  destruct (decide (s' = s)) as [-> | Hne]; [| apply trigger_put_other, Hne].
  intros env st Hst Hidle. unfold trigger_put.
  rewrite (bind_Return _ _ _ _ _ (deref_Some stores s env st Hst)).
  destruct Hidle as (Hc & Hp & Hg). rewrite Hp. exists st. cbn.
  split; [exact Hst |]. split; [repeat split; assumption | reflexivity].
Qed.

Lemma put_self_kept (v : pyval) :
  (forall l, P l (l ++ [v])) -> preserves (store_kept P s) (put s v).
Proof.
  intros HP env st Hst Hidle. destruct Hidle as (Hc & Hp & Hg).
  assert (Hroom : has_room st = true) by (unfold has_room; rewrite Hc; reflexivity).
  rewrite (put_room s v env st (length (events env)) [] (put_request s v) Hst Hroom).
  - cbn. rewrite !list_lookup_alter_eq, Hst. cbn. eexists. split; [reflexivity |].
    split; [repeat split; cbn; assumption | apply HP].
  - rewrite Hp. reflexivity.
  - apply list_lookup_middle. reflexivity.
  - reflexivity.
Qed.

End store_kept.

Section keeps_store.
Variable P : list pyval -> list pyval -> Prop.
Context `{!Reflexive P, !Transitive P}.
Variable written : bool.
Variable s : nat.
Hypothesis P_snoc : written = true -> forall l v, P l (l ++ [v]).

Lemma unread_wiring (w w' : TRNG.t) :
  same_wiring w w' -> unread written s w -> unread written s w'.
Proof.
  unfold same_wiring, wiring. intros Hs (H1 & H2 & H3 & H4 & H5).
  assert (Hb : TRNG.bpipes w' = TRNG.bpipes w) by congruence.
  assert (E1 : FF.i_clk_pipe (TRNG.beat_ff w') = FF.i_clk_pipe (TRNG.beat_ff w)) by congruence.
  assert (E2 : Counter.i_clk_pipe (TRNG.counter w') = Counter.i_clk_pipe (TRNG.counter w))
    by congruence.
  assert (E3 : RandOut.i_clk_pipe (TRNG.rand_out w') = RandOut.i_clk_pipe (TRNG.rand_out w))
    by congruence.
  assert (E4 : Counter.o_Q_pipe (TRNG.counter w') = Counter.o_Q_pipe (TRNG.counter w))
    by congruence.
  unfold unread. rewrite Hb, E1, E2, E3, E4. auto.
Qed.

#[global] Instance keeps_store_refl : Reflexive (keeps_store P written s).
Proof. intros w. split; [reflexivity |]. intros _. apply (store_kept_refl P s). Qed.

#[global] Instance keeps_store_trans : Transitive (keeps_store P written s).
Proof.
  intros w1 w2 w3 [Hw12 H12] [Hw23 H23]. split.
  - unfold same_wiring in *. congruence.
  - intros Hun. apply (store_kept_trans P s _ (TRNG.env w2)); [apply H12, Hun |].
    apply H23, (unread_wiring w1 w2 Hw12 Hun).
Qed.

Lemma keeps_state (w w' : TRNG.t) :
  wiring w' = wiring w -> TRNG.env w' = TRNG.env w -> keeps_store P written s w w'.
Proof. intros Hw He. split; [exact Hw |]. intros _. rewrite He. apply (store_kept_refl P s). Qed.

Lemma keeps_env (w : TRNG.t) (env' : simpy.Environment) :
  (unread written s w -> store_kept P s (TRNG.env w) env') ->
  keeps_store P written s w (TRNG.set_env (fun _ => env') w).
Proof. intros H. split; [reflexivity | exact H]. Qed.

Lemma keeps_lift_at {A} (m : simpy.E A) (w : TRNG.t) :
  (unread written s w -> store_kept P s (TRNG.env w) (m (TRNG.env w)).2) ->
  keeps_store P written s w (lift m w).2.
Proof. intros H. rewrite lift_run. apply keeps_env, H. Qed.

Lemma keeps_lift {A} (m : simpy.E A) :
  preserves (store_kept P s) m -> preserves (keeps_store P written s) (lift m).
Proof. intros H w. apply keeps_lift_at. intros _. apply H. Qed.

Lemma BroadcastPipe_put_keeps (bp : nat) (v : pyval) :
  preserves (keeps_store P written s) (BroadcastPipe_put bp v).
Proof.
  intros w. unfold BroadcastPipe_put. rewrite bind_run. unfold deref.
  destruct (TRNG.bpipes w !! bp) as [p |] eqn:Hbp; [| cbn; reflexivity].
  destruct (BroadcastPipe.pipes p) as [| a l] eqn:Hp; [cbn; reflexivity |].
  cbv beta iota. rewrite bind_run.
  assert (H1 : keeps_store P written s w
                 (lift (mapM (fun store => simpy.put store v) (a :: l)) w).2).
  { apply keeps_lift_at. intros (_ & _ & _ & Hpipes & _). apply (mapM_kept P s).
    apply Forall_forall. intros x Hx. apply (put_kept P s x v). intros Heq.
    apply (Hpipes bp p Hbp). rewrite Hp, <- Heq. exact Hx. }
  destruct (lift _ w) as [[evs | e] w1]; cbn in H1 |- *; [| exact H1].
  transitivity w1; [exact H1 | apply keeps_lift, all_of_kept; apply _].
Qed.

Lemma await_keeps (store : nat) {pc : Type} (at_get : pc) (w : TRNG.t) :
  (unread written s w -> store <> s) ->
  keeps_store P written s w (await store at_get w).2.
Proof.
  intros Hne. unfold await.
  assert (H : keeps_store P written s w (lift (simpy.get store) w).2).
  { apply keeps_lift_at. intros Hun. apply (get_kept P s store (Hne Hun)). }
  destruct (lift (simpy.get store) w) as [[ev | e] w1]; exact H.
Qed.

Lemma timeout_scheduled_keeps (delay : float) (w : TRNG.t) :
  keeps_store P written s w (TRNG.set_env (timeout_scheduled delay) w).
Proof.
  apply (keeps_env w (timeout_scheduled delay (TRNG.env w))). intros _.
  apply (store_kept_lookup P s). reflexivity.
Qed.

Lemma RO_wait_keeps (self : ro_ref) : preserves (keeps_store P written s) (RO_wait self).
Proof.
  intros w. rewrite RO_wait_run.
  transitivity (drawn w); [apply keeps_state; reflexivity |].
  destruct (_ <? 0)%float; [reflexivity | apply timeout_scheduled_keeps].
Qed.

Lemma keeps_outcome {A B} (m : W A) (f : A -> B) (w : TRNG.t) :
  keeps_store P written s w (m w).2 ->
  keeps_store P written s w
    (match m w with
     | (Return a, w') => (Return (f a), w')
     | (Raise e, w') => (Raise e, w')
     end).2.
Proof. intros Hm. destruct (m w) as [[a | e] w1]; exact Hm. Qed.

Lemma toggled_keeps (self : ro_ref) (w : TRNG.t) : keeps_store P written s w (toggled self w).
Proof. apply keeps_state; destruct self; reflexivity. Qed.

Lemma RO_logged_keeps (self : ro_ref) (w : TRNG.t) :
  keeps_store P written s w (RO_logged self w).
Proof.
  apply keeps_state; unfold RO_logged; destruct self; destruct (RO.verbose _); reflexivity.
Qed.

Lemma RO_run_keeps (self : ro_ref) (pc : RO_pc) (sent : pyval) :
  preserves (keeps_store P written s) (RO_run self pc sent).
Proof.
  intros w. destruct pc.
  - destruct (RO.out_pipe (the_RO self w)) as [bp |] eqn:Hout.
    + rewrite (RO_run_start_sink self sent w bp Hout).
      destruct (_ <? 0)%float; [reflexivity | apply timeout_scheduled_keeps].
    + rewrite (RO_run_start_no_sink self sent w Hout).
      apply (keeps_outcome (RO_wait self) (fun ev => (RO_half_wait, ev))), RO_wait_keeps.
  - rewrite RO_run_offset_wait.
    apply (keeps_outcome (RO_wait self) (fun ev => (RO_half_wait, ev))), RO_wait_keeps.
  - destruct (RO.out_pipe (the_RO self w)) as [bp |] eqn:Hout.
    + pose proof (BroadcastPipe_put_keeps bp (VBool (negb (RO.state (the_RO self w))))
                    (toggled self w)) as Hk.
      destruct (BroadcastPipe_put_frame bp (VBool (negb (RO.state (the_RO self w)))) (toggled self w))
        as [env' He].
      destruct (BroadcastPipe_put bp _ (toggled self w)) as [[cond | e] w1] eqn:Hput;
        cbn in He, Hk; subst w1.
      * rewrite (RO_run_half_wait_sink self sent w bp cond env' Hout Hput).
        transitivity (toggled self w); [apply toggled_keeps |].
        transitivity (TRNG.set_env (fun _ => env') (toggled self w)); [exact Hk |].
        transitivity (RO_logged self (TRNG.set_env (fun _ => env') (toggled self w)));
          [apply RO_logged_keeps |].
        apply (keeps_outcome (RO_wait self) (fun ev => (RO_half_wait, ev))), RO_wait_keeps.
      * rewrite (RO_run_half_wait_sink_raise self sent w _ bp e Hout Hput). cbn.
        transitivity (toggled self w); [apply toggled_keeps | exact Hk].
    + rewrite (RO_run_half_wait_no_sink self sent w Hout).
      transitivity (toggled self w); [apply toggled_keeps |].
      transitivity (RO_logged self (toggled self w)); [apply RO_logged_keeps |].
      apply (keeps_outcome (RO_wait self) (fun ev => (RO_half_wait, ev))), RO_wait_keeps.
Qed.

Lemma await_FF_keeps (w0 w : TRNG.t) :
  same_wiring w0 w ->
  keeps_store P written s w (await (FF.i_clk_pipe (TRNG.beat_ff w0)) FF_get w).2.
Proof.
  intros Hs. apply await_keeps. intros (H1 & _).
  unfold same_wiring, wiring in Hs.
  assert (E : FF.i_clk_pipe (TRNG.beat_ff w) = FF.i_clk_pipe (TRNG.beat_ff w0)) by congruence.
  congruence.
Qed.

Lemma await_Counter_keeps (w0 w : TRNG.t) :
  same_wiring w0 w ->
  keeps_store P written s w (await (Counter.i_clk_pipe (TRNG.counter w0)) Counter_get w).2.
Proof.
  intros Hs. apply await_keeps. intros (_ & H2 & _).
  unfold same_wiring, wiring in Hs.
  assert (E : Counter.i_clk_pipe (TRNG.counter w) = Counter.i_clk_pipe (TRNG.counter w0))
    by congruence.
  congruence.
Qed.

Lemma await_RandOut_keeps (w0 w : TRNG.t) :
  same_wiring w0 w ->
  keeps_store P written s w (await (RandOut.i_clk_pipe (TRNG.rand_out w0)) RandOut_get w).2.
Proof.
  intros Hs. apply await_keeps. intros (_ & _ & H3 & _).
  unfold same_wiring, wiring in Hs.
  assert (E : RandOut.i_clk_pipe (TRNG.rand_out w) = RandOut.i_clk_pipe (TRNG.rand_out w0))
    by congruence.
  congruence.
Qed.

Lemma FF_run_keeps (pc : FF_pc) (sent : pyval) :
  preserves (keeps_store P written s) (FF_run pc sent).
Proof.
  intros w. destruct pc.
  - change (FF_run FF_start sent w) with (await (FF.i_clk_pipe (TRNG.beat_ff w)) FF_get w).
    apply await_FF_keeps. reflexivity.
  - destruct (truthy sent) eqn:Hsent.
    + rewrite (FF_run_true sent w Hsent).
      assert (Hl : keeps_store P written s w (FF_latched w)) by (apply keeps_state; reflexivity).
      pose proof (BroadcastPipe_put_keeps (FF.o_beat_pipe (TRNG.beat_ff w))
                    (state_of (FF.i_data (TRNG.beat_ff w)) w) (FF_latched w)) as Hput.
      destruct (BroadcastPipe_put _ _ _) as [[cond | e] w1]; cbn in Hput.
      * assert (H1 : keeps_store P written s w w1) by (transitivity (FF_latched w); assumption).
        transitivity w1; [exact H1 | apply await_FF_keeps, H1].
      * transitivity (FF_latched w); assumption.
    + rewrite (FF_run_false sent w Hsent). apply await_FF_keeps. reflexivity.
Qed.

Lemma Counter_clocked_keeps : preserves (keeps_store P written s) Counter_clocked.
Proof.
  intros w. rewrite Counter_clocked_run.
  assert (Hl : keeps_store P written s w (Counter_logged w)).
  { apply keeps_state; unfold Counter_logged; destruct (Counter.verbose _); reflexivity. }
  assert (Hput : keeps_store P written s (Counter_logged w)
                   (lift (simpy.put (Counter.o_Q_pipe (TRNG.counter w))
                            (VInt (Counter.count (TRNG.counter w)))) (Counter_logged w)).2).
  { apply keeps_lift_at. intros (_ & _ & _ & _ & Hq).
    assert (E : Counter.o_Q_pipe (TRNG.counter (Counter_logged w)) =
                Counter.o_Q_pipe (TRNG.counter w)).
    { unfold Counter_logged. destruct (Counter.verbose _); reflexivity. }
    rewrite E in Hq.
    destruct (decide (Counter.o_Q_pipe (TRNG.counter w) = s)) as [Heq | Hne].
    - rewrite Heq. destruct written; [| exfalso; apply Hq; auto].
      apply (put_self_kept P s). intros l. apply P_snoc. reflexivity.
    - apply (put_kept P s _ _ Hne). }
  destruct (lift _ _) as [[ev | e] w1]; cbn in Hput |- *.
  - transitivity (Counter_logged w); [exact Hl |]. transitivity w1; [exact Hput |].
    apply keeps_state; unfold Counter_counted, Counter_branched; destruct (reset_event w1);
      reflexivity.
  - transitivity (Counter_logged w); assumption.
Qed.

Lemma Counter_run_keeps (pc : Counter_pc) (sent : pyval) :
  preserves (keeps_store P written s) (Counter_run pc sent).
Proof.
  intros w. destruct pc.
  - change (Counter_run Counter_start sent w)
      with (await (Counter.i_clk_pipe (TRNG.counter w)) Counter_get w).
    apply await_Counter_keeps. reflexivity.
  - destruct (truthy sent) eqn:Hsent.
    + rewrite (Counter_run_get_true sent w Hsent). apply timeout_scheduled_keeps.
    + rewrite (Counter_run_get_false sent w Hsent). apply await_Counter_keeps. reflexivity.
  - rewrite Counter_run_settle.
    pose proof (Counter_clocked_keeps w) as Hc.
    destruct (Counter_clocked w) as [[[] | e] w1]; cbn in Hc; [| exact Hc].
    transitivity w1; [exact Hc | apply await_Counter_keeps; reflexivity].
Qed.

Lemma RandOut_run_keeps (pc : RandOut_pc) (sent : pyval) :
  preserves (keeps_store P written s) (RandOut_run pc sent).
Proof.
  intros w. destruct pc.
  - change (RandOut_run RandOut_start sent w)
      with (await (RandOut.i_clk_pipe (TRNG.rand_out w)) RandOut_get w).
    apply await_RandOut_keeps. reflexivity.
  - rewrite RandOut_run_get.
    assert (H1 : keeps_store P written s w (RandOut_sampled sent w)).
    { apply keeps_state; [| reflexivity]. unfold RandOut_sampled, wiring. cbn.
      rewrite RandOut_received_rand_out. destruct (_ && _); reflexivity. }
    transitivity (RandOut_sampled sent w); [exact H1 | apply await_RandOut_keeps, H1].
Qed.

Lemma send_keeps (g : generator) (v : pyval) : preserves (keeps_store P written s) (send g v).
Proof.
  destruct g as [self pc | pc | pc | pc]; cbn [send].
  - apply preserves_bind; [apply _ | apply RO_run_keeps |].
    intros [pc' ev]. apply preserves_ret; apply _.
  - apply preserves_bind; [apply _ | apply FF_run_keeps |].
    intros [pc' ev]. apply preserves_ret; apply _.
  - apply preserves_bind; [apply _ | apply Counter_run_keeps |].
    intros [pc' ev]. apply preserves_ret; apply _.
  - apply preserves_bind; [apply _ | apply RandOut_run_keeps |].
    intros [pc' ev]. apply preserves_ret; apply _.
Qed.

Ltac keeps :=
  repeat first
    [ apply keeps_lift;
      first [ apply timeout_kept | apply add_callback_kept | apply update_event_kept
            | apply schedule_kept | apply trigger_get_kept | apply trigger_put_kept
            | apply Condition_check_kept | apply preserves_deref ];
      try apply _
    | apply preserves_ret; apply _
    | apply preserves_raise; apply _
    | apply preserves_deref; apply _
    | apply send_keeps
    | apply preserves_modify; intros; apply keeps_state; reflexivity
    | apply preserves_modify; intros; apply keeps_env; intros _; apply (store_kept_lookup P s);
      reflexivity
    | apply preserves_bind; [apply _ | |]; intros
    | apply preserves_try_except; [apply _ | | |]; intros
    | apply preserves_mapM; [apply _ | apply _ |]; intros
    | match goal with
      | |- preserves _ (gets _) => intros ?; reflexivity
      | |- preserves _ (match ?x with _ => _ end) => destruct x
      | |- preserves _ (if ?x then _ else _) => destruct x
      | |- preserves _ (let '(_, _) := ?x in _) => destruct x
      end ].

Lemma Process_resume_keeps (p : simpy.proc) (event : nat) :
  preserves (keeps_store P written s) (Process_resume p event).
Proof. unfold Process_resume, set_process. keeps. Qed.

Lemma run_callback_keeps (event : nat) (cb : simpy.callback) :
  preserves (keeps_store P written s) (run_callback event cb).
Proof. destruct cb; cbn [run_callback]; [apply Process_resume_keeps | keeps ..]. Qed.

Lemma step_keeps : preserves (keeps_store P written s) step.
Proof. unfold step. keeps. all: try apply run_callback_keeps. Qed.

Lemma steps_keeps (k : nat) : preserves (keeps_store P written s) (steps k).
Proof.
  induction k as [| k IH]; cbn [steps]; [apply preserves_ret; apply _ |].
  apply preserves_bind; [apply _ | apply step_keeps | intros _; exact IH].
Qed.

End keeps_store.

Lemma steps_add (k j : nat) (w : TRNG.t) :
  steps (k + j) w =
  match steps k w with
  | (Return _, w1) => steps j w1
  | (Raise e, w1) => (Raise e, w1)
  end.
Proof.
  revert w. induction k as [| k IH]; intros w; [reflexivity |].
  cbn [Nat.add steps]. rewrite !bind_run.
  destruct (step w) as [[[] | e] w1]; [apply IH | reflexivity].
Qed.

Lemma TRNG_new_unread (period delta jitter1 jitter2 : float) (verbose : bool)
    (variates : nat -> float) (written : bool) (s : nat) :
  (s < 3)%nat -> (written = false -> s <> 1%nat) ->
  unread written s (TRNG_new period delta jitter1 jitter2 verbose variates).
Proof.
  intros Hs Hw.
  destruct (TRNG_new_components period delta jitter1 jitter2 verbose variates)
    as (_ & _ & Hff & Hc & Hr & Hb).
  unfold unread. rewrite Hff, Hc, Hr, Hb. cbn.
  split; [lia |]. split; [lia |]. split; [lia |]. split; [| intros H; specialize (Hw H); lia].
  intros bp p Hbp Hin.
  destruct bp as [| [| bp]]; [| | discriminate Hbp]; injection Hbp as <-; cbn in Hin;
    repeat (apply elem_of_cons in Hin as [-> | Hin]); try lia;
    apply elem_of_nil in Hin; exact Hin.
Qed.

Lemma TRNG_new_spare_store (period delta jitter1 jitter2 : float) (verbose : bool)
    (variates : nat -> float) (s : nat) :
  (s < 3)%nat ->
  simpy.stores (TRNG.env (TRNG_new period delta jitter1 jitter2 verbose variates)) !! s =
  Some (simpy.mkStore None [] [] []).
Proof.
  intros Hs. vm_compute TRNG.env. cbn [simpy.stores].
  destruct s as [| [| [| s]]]; [reflexivity .. | lia].
Qed.

Lemma TRNG_new_stores (period delta jitter1 jitter2 : float) (verbose : bool)
    (variates : nat -> float) :
  let w := TRNG_new period delta jitter1 jitter2 verbose variates in
  TRNG.counter_pipe w = 0%nat /\ TRNG.q_pipe w = 1%nat /\ TRNG.out_pipe w = 2%nat.
Proof. vm_compute. auto. Qed.

Lemma wiring_stores (w w' : TRNG.t) :
  same_wiring w w' ->
  TRNG.counter_pipe w' = TRNG.counter_pipe w /\ TRNG.q_pipe w' = TRNG.q_pipe w /\
  TRNG.out_pipe w' = TRNG.out_pipe w.
Proof. unfold same_wiring, wiring. intros H. repeat split; congruence. Qed.

Lemma idle_store (st : simpy.Store) :
  idle st -> st = simpy.mkStore None (simpy.items st) [] [].
Proof. destruct st as [c i p g]. intros (H1 & H2 & H3). cbn in *. subst. reflexivity. Qed.

(** X15.  The stores [counter_pipe] and [out_pipe] that the constructor
    creates are never used: however long the event loop runs, each of them
    is the empty, unbounded store it was at construction, without any
    request. *)
Theorem spare_stores_are_never_used
    (period delta jitter1 jitter2 : float) (verbose : bool) (variates : nat -> float) (k : nat) :
  let w := (steps k (TRNG_new period delta jitter1 jitter2 verbose variates)).2 in
  simpy.stores (TRNG.env w) !! TRNG.counter_pipe w = Some (simpy.mkStore None [] [] []) /\
  simpy.stores (TRNG.env w) !! TRNG.out_pipe w = Some (simpy.mkStore None [] [] []).
Proof.
  set (w0 := TRNG_new period delta jitter1 jitter2 verbose variates). intros w.
  assert (H : forall s, (s < 3)%nat -> s <> 1%nat ->
            simpy.stores (TRNG.env w) !! s = Some (simpy.mkStore None [] [] [])).
  { intros s Hs Hne.
    assert (Hsnoc : false = true -> forall (l : list pyval) v, l = l ++ [v]) by discriminate.
    destruct (steps_keeps eq false s Hsnoc k w0) as [_ Hkept].
    destruct (Hkept (TRNG_new_unread _ _ _ _ _ _ false s Hs (fun _ => Hne)) _
                (TRNG_new_spare_store _ _ _ _ _ _ s Hs))
      as (st' & Hst' & Hidle & Hitems); [repeat split |].
    cbn in Hitems. unfold w. rewrite Hst', (idle_store st' Hidle), <- Hitems. reflexivity. }
  destruct (steps_keeps eq false 0 ltac:(discriminate) k w0) as [Hw _].
  destruct (wiring_stores w0 w Hw) as (E1 & _ & E3).
  destruct (TRNG_new_stores period delta jitter1 jitter2 verbose variates) as (F1 & _ & F3).
  fold w0 in F1, F3. rewrite E1, E3, F1, F3. split; apply H; lia.
Qed.

(** X16.  Nobody reads [q_pipe], the store the counter publishes its count
    into: at every point of the run it is unbounded and has no request
    waiting, and what it holds after [k] steps is still there, in the same
    order and at the front, after any further steps.  The published counts
    only accumulate. *)
Theorem q_pipe_only_accumulates
    (period delta jitter1 jitter2 : float) (verbose : bool) (variates : nat -> float)
    (k j : nat) :
  let w0 := TRNG_new period delta jitter1 jitter2 verbose variates in
  let w := (steps k w0).2 in
  let w' := (steps (k + j) w0).2 in
  exists held held',
    simpy.stores (TRNG.env w) !! TRNG.q_pipe w = Some (simpy.mkStore None held [] []) /\
    simpy.stores (TRNG.env w') !! TRNG.q_pipe w' = Some (simpy.mkStore None held' [] []) /\
    held `prefix_of` held'.
Proof.
  intros w0 w w'.
  assert (Hsnoc : true = true -> forall (l : list pyval) v, l `prefix_of` l ++ [v]).
  { intros _ l v. apply prefix_app_r. reflexivity. }
  pose proof (steps_keeps prefix true 1 Hsnoc k w0) as Hk. fold w in Hk.
  assert (Hkj : keeps_store prefix true 1 w w').
  { subst w'. rewrite steps_add. pose proof (steps_keeps prefix true 1 Hsnoc j w) as Hj.
    subst w. destruct (steps k w0) as [[[] | e] w1]; [exact Hj | reflexivity]. }
  assert (Hun0 : unread true 1 w0).
  { apply TRNG_new_unread; [lia | discriminate]. }
  destruct Hk as [Hw Hk]. destruct Hkj as [Hw' Hkj].
  destruct (Hk Hun0 _ (TRNG_new_spare_store _ _ _ _ _ _ 1 ltac:(lia)))
    as (st & Hst & Hidle & _); [repeat split |].
  destruct (Hkj (unread_wiring true 1 w0 w Hw Hun0) st Hst Hidle) as (st' & Hst' & Hidle' & Hpre).
  destruct (wiring_stores w0 w Hw) as (_ & E & _).
  destruct (wiring_stores w w' Hw') as (_ & E' & _).
  destruct (TRNG_new_stores period delta jitter1 jitter2 verbose variates) as (_ & F & _).
  fold w0 in F. rewrite E', E, F.
  exists (simpy.items st), (simpy.items st').
  rewrite <- (idle_store st Hidle), <- (idle_store st' Hidle'). auto.
Qed.

(** ** The running mean of the counter *)

Lemma steps_running_mean (k : nat) (w : TRNG.t) :
  (Counter.avg (TRNG.counter w), Counter.n (TRNG.counter w)) =
    running_mean (Counter.count_max (TRNG.counter w)) ->
  (Counter.avg (TRNG.counter (steps k w).2), Counter.n (TRNG.counter (steps k w).2)) =
    running_mean (Counter.count_max (TRNG.counter (steps k w).2)).
Proof.
  apply (steps_preserves
           (kept (fun w => (Counter.avg (TRNG.counter w), Counter.n (TRNG.counter w)) =
                           running_mean (Counter.count_max (TRNG.counter w)))));
    try (intros; exact (fun H => H)).
  - intros self w0. destruct self; exact (fun H => H).
  - intros self w0. unfold RO_logged.
    destruct self; destruct (RO.verbose _); exact (fun H => H).
  - intros w0. unfold Counter_logged. destruct (Counter.verbose _); exact (fun H => H).
  - intros w0 H. unfold Counter_counted, Counter_branched.
    destruct (reset_event w0); [| exact H].
    cbn [TRNG.counter TRNG.set_counter Counter.avg Counter.n Counter.count_max
         Counter.set_old_state].
    unfold running_mean in *. rewrite foldl_snoc, <- H. reflexivity.
  - intros v w0. destruct (RandOut_received_footprint v w0) as [env' ->]. exact (fun H => H).
Qed.

(** X17.  Throughout the run of an assembly the counter's [avg] is the
    running mean of all the entries of [count_max], taken in order from 0
    by the update [avg + (count - avg) / n]: the first entry, which [sigma]
    leaves out as incomplete, is part of [avg]. *)
Theorem avg_is_running_mean_of_count_max
    (period delta jitter1 jitter2 : float) (verbose : bool) (variates : nat -> float) (k : nat) :
  let c := TRNG.counter (steps k (TRNG_new period delta jitter1 jitter2 verbose variates)).2 in
  Counter.avg c = (running_mean (Counter.count_max c)).1.
Proof.
  intros c.
  assert (H : (Counter.avg c, Counter.n c) = running_mean (Counter.count_max c)).
  { apply steps_running_mean.
    destruct (TRNG_new_components period delta jitter1 jitter2 verbose variates)
      as (_ & _ & _ & -> & _).
    reflexivity. }
  rewrite <- H. reflexivity.
Qed.
